(** * QR attendance: the reconciliation logic of the three page variants

    The repository holds three versions of the organizer page and two of the
    student page.  This development embeds the attendance handling of each
    organizer page:

    - [ScanLog]: the scan-log page ([parseDeviceIdFromQrPayload],
      [handleDecoded]), de-duplicating on the device id;
    - [Roster]: the name-keyed organizer page without a lock ([addEntry],
      [handleDecode], [handleManualAdd], [clearAll]);
    - [Gate]: the name-keyed organizer page with the mode switch, the PIN
      lock and the one-attempt self check-in.

    React state is modelled by explicit state passing: every handler is a
    function from the page state to the next page state, together with a tag
    naming the [return] it left through.  Handlers run to completion and the
    page re-renders (running its effects) before the next event is taken. *)

From Stdlib Require Import ZArith NArith List String Ascii Bool Lia.
From Stdlib Require Import Permutation Sorted.
From Stdlib Require DecimalString.
Import ListNotations.

Local Open Scope Z_scope.

(** ** JavaScript strings

    A JavaScript string is a sequence of 16-bit code units. *)

Definition jsstring : Type := list N.

(** Literals: the code units of an ASCII text. *)
Definition js (s : string) : jsstring :=
  map N_of_ascii (list_ascii_of_string s).

(** Literals that contain double quotes are written with single quotes and
    converted: [jsq "{'a':'b'}"] is the text [{"a":"b"}]. *)
Definition jsq (s : string) : jsstring :=
  map (fun c => if N.eqb c 39 then 34%N else c) (js s).

Fixpoint jseqb (a b : jsstring) : bool :=
  match a, b with
  | [], [] => true
  | x :: a', y :: b' => N.eqb x y && jseqb a' b'
  | _, _ => false
  end.

(** [!s] on a string: only the empty string is falsy. *)
Definition isEmpty (s : jsstring) : bool :=
  match s with [] => true | _ => false end.

(** WhiteSpace and LineTerminator code units, the ones [trim] strips. *)
Definition isWhiteSpace (c : N) : bool :=
  (N.leb 9 c && N.leb c 13) || N.eqb c 32 || N.eqb c 160 || N.eqb c 5760
  || (N.leb 8192 c && N.leb c 8202) || N.eqb c 8232 || N.eqb c 8233
  || N.eqb c 8239 || N.eqb c 8287 || N.eqb c 12288 || N.eqb c 65279.

Fixpoint trimStart (s : jsstring) : jsstring :=
  match s with
  | c :: r => if isWhiteSpace c then trimStart r else s
  | [] => []
  end.

Definition trimEnd (s : jsstring) : jsstring := rev (trimStart (rev s)).

Definition trim (s : jsstring) : jsstring := trimEnd (trimStart s).

(** ** Collation: [String.prototype.localeCompare]

    The comparison is the platform's (Intl.Collator).  Its [sensitivity]
    option selects which differences count:
    - [Base]: only base letters differ (a = A, a = a-acute);
    - [Accent]: base letters and accents differ (a = A, a <> a-acute);
    - [Case]: base letters and case differ (a <> A, a = a-acute);
    - [Variant]: everything differs; the default of [localeCompare].

    The collator is modelled by a key: a string is mapped to its key by
    folding, in the Basic Latin and Latin-1 Supplement letters, what the
    sensitivity ignores, and keys are compared code unit by code unit.

    What the key gets right of the platform's collation (root order, the
    one of English): which strings of printable Basic Latin characters
    (U+0020 to U+007E) compare equal, at sensitivity [accent] those that
    differ by letter case at most; that a string compares equal to itself,
    and that comparing equal is an equivalence; the order of ISO timestamps
    of the years 0000 to 9999.  Beyond that the platform equates more
    strings than the key does (space and no-break space, a precomposed
    letter and its decomposition, case pairs outside Latin-1, characters
    the collation ignores), and it orders punctuation and letters of
    different case otherwise than by code unit.  Statements about names
    therefore take "compares equal" as [localeCompare ... = 0] itself, or
    are restricted to [printableAscii] strings. *)

Inductive Sensitivity : Type := Base | Accent | Case | Variant.

Definition inRange (lo hi c : N) : bool := N.leb lo c && N.leb c hi.

(** Lower-case form: A-Z, and the capitals U+00C0-U+00DE but the
    multiplication sign U+00D7. *)
Definition foldCase (c : N) : N :=
  if inRange 65 90 c then (c + 32)%N
  else if inRange 192 222 c && negb (N.eqb c 215) then (c + 32)%N
  else c.

(** Base letter of the Latin-1 letters that carry a diacritic. *)
Definition foldAccent (c : N) : N :=
  if inRange 192 197 c then 65%N        (* U+00C0-U+00C5 *)
  else if N.eqb c 199 then 67%N         (* U+00C7 *)
  else if inRange 200 203 c then 69%N   (* U+00C8-U+00CB *)
  else if inRange 204 207 c then 73%N   (* U+00CC-U+00CF *)
  else if N.eqb c 209 then 78%N         (* U+00D1 *)
  else if inRange 210 214 c then 79%N   (* U+00D2-U+00D6 *)
  else if N.eqb c 216 then 79%N         (* U+00D8 *)
  else if inRange 217 220 c then 85%N   (* U+00D9-U+00DC *)
  else if N.eqb c 221 then 89%N         (* U+00DD *)
  else if inRange 224 229 c then 97%N   (* U+00E0-U+00E5 *)
  else if N.eqb c 231 then 99%N         (* U+00E7 *)
  else if inRange 232 235 c then 101%N  (* U+00E8-U+00EB *)
  else if inRange 236 239 c then 105%N  (* U+00EC-U+00EF *)
  else if N.eqb c 241 then 110%N        (* U+00F1 *)
  else if inRange 242 246 c then 111%N  (* U+00F2-U+00F6 *)
  else if N.eqb c 248 then 111%N        (* U+00F8 *)
  else if inRange 249 252 c then 117%N  (* U+00F9-U+00FC *)
  else if N.eqb c 253 || N.eqb c 255 then 121%N (* U+00FD, U+00FF *)
  else c.

Definition collationUnit (sens : Sensitivity) (c : N) : N :=
  match sens with
  | Base => foldCase (foldAccent c)
  | Accent => foldCase c
  | Case => foldAccent c
  | Variant => c
  end.

Definition collationKey (sens : Sensitivity) (s : jsstring) : jsstring :=
  map (collationUnit sens) s.

(** Lexicographic comparison of keys: negative, zero or positive. *)
Fixpoint compareUnits (a b : jsstring) : Z :=
  match a, b with
  | [], [] => 0
  | [], _ :: _ => -1
  | _ :: _, [] => 1
  | x :: a', y :: b' =>
      match N.compare x y with
      | Eq => compareUnits a' b'
      | Lt => -1
      | Gt => 1
      end
  end.

Definition localeCompare (sens : Sensitivity) (a b : jsstring) : Z :=
  compareUnits (collationKey sens a) (collationKey sens b).


(** ** Decimal digits *)

(** The decimal digits of a natural number, without leading zeros. *)
Definition decimalDigits (n : N) : jsstring :=
  js (DecimalString.NilZero.string_of_uint (N.to_uint n)).

(** [String.prototype.padStart(width, "0")]. *)
Definition padStart0 (width : nat) (s : jsstring) : jsstring :=
  repeat 48%N (width - List.length s) ++ s.

(** ** [Date.prototype.toISOString]

    An instant is the number of milliseconds since the epoch, as [Date.now()]
    reads it.  The calendar date is the proleptic Gregorian one. *)

Definition msPerDay : Z := 86400000.

(** Year, month and day of the day number [z] (days since 1970-01-01). *)
Definition civilFromDays (z : Z) : Z * Z * Z :=
  let z := z + 719468 in
  let era := z / 146097 in
  let doe := z - era * 146097 in
  let yoe := (doe - doe / 1460 + doe / 36524 - doe / 146096) / 365 in
  let doy := doe - (365 * yoe + yoe / 4 - yoe / 100) in
  let mp := (5 * doy + 2) / 153 in
  let d := doy - (153 * mp + 2) / 5 + 1 in
  let m := if mp <? 10 then mp + 3 else mp - 9 in
  let y := yoe + era * 400 + (if m <=? 2 then 1 else 0) in
  (y, m, d).

Definition pad (width : nat) (z : Z) : jsstring :=
  padStart0 width (decimalDigits (Z.to_N z)).

(** Four digits for the years 0 to 9999, a sign and six digits otherwise. *)
Definition isoYear (y : Z) : jsstring :=
  if (0 <=? y) && (y <=? 9999) then pad 4 y
  else if y <? 0 then js "-" ++ pad 6 (- y)
  else js "+" ++ pad 6 y.

Definition toISOString (t : Z) : jsstring :=
  let '(y, m, d) := civilFromDays (t / msPerDay) in
  let ms := t mod msPerDay in
  isoYear y ++ js "-" ++ pad 2 m ++ js "-" ++ pad 2 d ++ js "T"
  ++ pad 2 (ms / 3600000) ++ js ":" ++ pad 2 (ms / 60000 mod 60) ++ js ":"
  ++ pad 2 (ms / 1000 mod 60) ++ js "." ++ pad 3 (ms mod 1000) ++ js "Z".

(** ** JSON values and [JSON.parse]

    A number is kept as the decimal [m * 10^e] its literal is; where a
    page reads the number, it reads the binary64 value of that decimal
    ([toDouble]).  An object is the list of its
    own properties in creation order; a repeated key keeps its first
    position and takes the last value, as [JSON.parse] builds it. *)

#[local] Set Warnings "-register-all".

Inductive json : Type :=
| JNull
| JBool (b : bool)
| JNum (m e : Z)
| JStr (s : jsstring)
| JArr (items : list json)
| JObj (props : list (jsstring * json)).

Fixpoint setProp (props : list (jsstring * json)) (key : jsstring) (v : json)
  : list (jsstring * json) :=
  match props with
  | [] => [(key, v)]
  | (k, w) :: rest =>
      if jseqb k key then (k, v) :: rest else (k, w) :: setProp rest key v
  end.

Fixpoint getProp (props : list (jsstring * json)) (key : jsstring) : option json :=
  match props with
  | [] => None
  | (k, w) :: rest => if jseqb k key then Some w else getProp rest key
  end.

Inductive parseResult (A : Type) : Type :=
| POk (a : A) (rest : jsstring)
| PSyntaxError
| POutOfFuel.

Arguments POk {A} a rest.
Arguments PSyntaxError {A}.
Arguments POutOfFuel {A}.

(** JSON white space: tab, line feed, carriage return, space. *)
Definition isJsonWs (c : N) : bool :=
  N.eqb c 9 || N.eqb c 10 || N.eqb c 13 || N.eqb c 32.

Fixpoint skipWs (s : jsstring) : jsstring :=
  match s with
  | c :: r => if isJsonWs c then skipWs r else s
  | [] => []
  end.

Definition isDigit (c : N) : bool := inRange 48 57 c.

Definition hexValue (c : N) : option N :=
  if isDigit c then Some (c - 48)%N
  else if inRange 65 70 c then Some (c - 55)%N
  else if inRange 97 102 c then Some (c - 87)%N
  else None.

Definition hex4 (a b c d : N) : option N :=
  match hexValue a, hexValue b, hexValue c, hexValue d with
  | Some x, Some y, Some z, Some w => Some (((x * 16 + y) * 16 + z) * 16 + w)%N
  | _, _, _, _ => None
  end.

(** The character an escape letter stands for. *)
Definition simpleEscape (c : N) : option N :=
  if N.eqb c 34 then Some 34%N        (* quote *)
  else if N.eqb c 92 then Some 92%N   (* backslash *)
  else if N.eqb c 47 then Some 47%N   (* slash *)
  else if N.eqb c 98 then Some 8%N    (* b *)
  else if N.eqb c 102 then Some 12%N  (* f *)
  else if N.eqb c 110 then Some 10%N  (* n *)
  else if N.eqb c 114 then Some 13%N  (* r *)
  else if N.eqb c 116 then Some 9%N   (* t *)
  else None.

(** The characters of a string literal, after its opening quote. *)
Fixpoint parseChars (s : jsstring) : option (jsstring * jsstring) :=
  match s with
  | [] => None
  | c :: r =>
      if N.eqb c 34 then Some ([], r)
      else if N.eqb c 92 then
        match r with
        | [] => None
        | e :: r1 =>
            if N.eqb e 117 then
              match r1 with
              | h1 :: h2 :: h3 :: h4 :: r2 =>
                  match hex4 h1 h2 h3 h4, parseChars r2 with
                  | Some u, Some (str, rest) => Some (u :: str, rest)
                  | _, _ => None
                  end
              | _ => None
              end
            else
              match simpleEscape e, parseChars r1 with
              | Some u, Some (str, rest) => Some (u :: str, rest)
              | _, _ => None
              end
        end
      else if N.ltb c 32 then None
      else
        match parseChars r with
        | Some (str, rest) => Some (c :: str, rest)
        | None => None
        end
  end.

Fixpoint takeDigits (s : jsstring) : jsstring * jsstring :=
  match s with
  | c :: r =>
      if isDigit c then let '(ds, rest) := takeDigits r in (c :: ds, rest)
      else ([], s)
  | [] => ([], [])
  end.

Definition digitsValue (ds : jsstring) : Z :=
  fold_left (fun acc c => acc * 10 + Z.of_N (c - 48)) ds 0.

(** The integer part: a single [0], or digits that do not start with [0]. *)
Definition parseIntPart (s : jsstring) : option (jsstring * jsstring) :=
  match s with
  | c :: r =>
      if N.eqb c 48 then Some ([c], r)
      else if isDigit c then Some (takeDigits s)
      else None
  | [] => None
  end.

Definition parseFraction (s : jsstring) : option (jsstring * jsstring) :=
  match s with
  | c :: r =>
      if N.eqb c 46 then
        match takeDigits r with
        | ([], _) => None
        | (ds, rest) => Some (ds, rest)
        end
      else Some ([], s)
  | [] => Some ([], [])
  end.

Definition parseExponent (s : jsstring) : option (Z * jsstring) :=
  match s with
  | c :: r =>
      if N.eqb c 101 || N.eqb c 69 then
        let '(neg, r1) :=
          match r with
          | sg :: r' =>
              if N.eqb sg 45 then (true, r')
              else if N.eqb sg 43 then (false, r') else (false, r)
          | [] => (false, r)
          end in
        match takeDigits r1 with
        | ([], _) => None
        | (ds, rest) =>
            Some (if neg then - digitsValue ds else digitsValue ds, rest)
        end
      else Some (0, s)
  | [] => Some (0, [])
  end.

Definition parseNumber (s : jsstring) : parseResult json :=
  let '(neg, s1) :=
    match s with
    | c :: r => if N.eqb c 45 then (true, r) else (false, s)
    | [] => (false, s)
    end in
  match parseIntPart s1 with
  | None => PSyntaxError
  | Some (ip, s2) =>
      match parseFraction s2 with
      | None => PSyntaxError
      | Some (fp, s3) =>
          match parseExponent s3 with
          | None => PSyntaxError
          | Some (ex, s4) =>
              let m := digitsValue (ip ++ fp) in
              POk (JNum (if neg then - m else m) (ex - Z.of_nat (List.length fp))) s4
          end
      end
  end.

Fixpoint stripPrefix (pre s : jsstring) : option jsstring :=
  match pre, s with
  | [], _ => Some s
  | p :: pre', c :: s' => if N.eqb p c then stripPrefix pre' s' else None
  | _ :: _, [] => None
  end.

Definition parseLiteral (word : string) (v : json) (s : jsstring) : parseResult json :=
  match stripPrefix (js word) s with
  | Some rest => POk v rest
  | None => PSyntaxError
  end.

(** A value, the elements of an array after [[], the members of an object
    after [{].  Every call spends one unit of fuel. *)
Fixpoint parseValue (fuel : nat) (s : jsstring) : parseResult json :=
  match fuel with
  | O => POutOfFuel
  | S f =>
      match skipWs s with
      | [] => PSyntaxError
      | c :: r =>
          if N.eqb c 123 then
            match skipWs r with
            | c' :: r' =>
                if N.eqb c' 125 then POk (JObj []) r' else parseMembers f [] r
            | [] => PSyntaxError
            end
          else if N.eqb c 91 then
            match skipWs r with
            | c' :: r' =>
                if N.eqb c' 93 then POk (JArr []) r' else parseElements f [] r
            | [] => PSyntaxError
            end
          else if N.eqb c 34 then
            match parseChars r with
            | Some (str, rest) => POk (JStr str) rest
            | None => PSyntaxError
            end
          else if N.eqb c 116 then parseLiteral "true" (JBool true) (c :: r)
          else if N.eqb c 102 then parseLiteral "false" (JBool false) (c :: r)
          else if N.eqb c 110 then parseLiteral "null" JNull (c :: r)
          else parseNumber (c :: r)
      end
  end
with parseElements (fuel : nat) (acc : list json) (s : jsstring) : parseResult json :=
  match fuel with
  | O => POutOfFuel
  | S f =>
      match parseValue f s with
      | POk v r =>
          match skipWs r with
          | c :: r' =>
              if N.eqb c 44 then parseElements f (v :: acc) r'
              else if N.eqb c 93 then POk (JArr (rev (v :: acc))) r'
              else PSyntaxError
          | [] => PSyntaxError
          end
      | PSyntaxError => PSyntaxError
      | POutOfFuel => POutOfFuel
      end
  end
with parseMembers (fuel : nat) (acc : list (jsstring * json)) (s : jsstring)
  : parseResult json :=
  match fuel with
  | O => POutOfFuel
  | S f =>
      match skipWs s with
      | q :: r0 =>
          if N.eqb q 34 then
            match parseChars r0 with
            | Some (key, r1) =>
                match skipWs r1 with
                | colon :: r2 =>
                    if N.eqb colon 58 then
                      match parseValue f r2 with
                      | POk v r =>
                          match skipWs r with
                          | c :: r' =>
                              if N.eqb c 44 then parseMembers f (setProp acc key v) r'
                              else if N.eqb c 125 then POk (JObj (setProp acc key v)) r'
                              else PSyntaxError
                          | [] => PSyntaxError
                          end
                      | PSyntaxError => PSyntaxError
                      | POutOfFuel => POutOfFuel
                      end
                    else PSyntaxError
                | [] => PSyntaxError
                end
            | None => PSyntaxError
            end
          else PSyntaxError
      | [] => PSyntaxError
      end
  end.

(** [JSON.parse]: [None] when it throws a SyntaxError.  The fuel is enough
    for every text (lemma [parseValue_fuel]). *)
Definition JSON_parse (s : jsstring) : option json :=
  match parseValue (2 * List.length s + 1) s with
  | POk v rest => if isEmpty (skipWs rest) then Some v else None
  | _ => None
  end.

(** ** Number values: binary64

    The Number a literal denotes is the binary64 value nearest to its
    decimal, ties to the even significand; [String] prints the shortest
    decimal that reads back as that value. *)

(** A value that is not negative: zero, [mant * 2^ex] with
    [0 < mant < 2^53] and [-1074 <= ex <= 971] ([2^52 <= mant] unless
    [ex = -1074]), or Infinity. *)
Inductive double : Type :=
| DZero
| DFinite (mant ex : Z)
| DInfinity.

Definition double_eqb (x y : double) : bool :=
  match x, y with
  | DZero, DZero => true
  | DFinite m1 e1, DFinite m2 e2 => (m1 =? m2) && (e1 =? e2)
  | DInfinity, DInfinity => true
  | _, _ => false
  end.

(** [den * 2^l <= num]. *)
Definition pow2Leb (l num den : Z) : bool :=
  if 0 <=? l then den * 2 ^ l <=? num else den <=? num * 2 ^ (- l).

(** [floor (log2 (num / den))], for [num] and [den] positive. *)
Definition log2Ratio (num den : Z) : Z :=
  let l := Z.log2 num - Z.log2 den in
  if pow2Leb l num den then l else l - 1.

(** The binary64 value nearest to [num / den] ([den] positive), ties to
    even. *)
Definition roundRatio (num den : Z) : double :=
  if num <=? 0 then DZero
  else
    let ex := Z.max (log2Ratio num den - 52) (-1074) in
    let n := if 0 <=? ex then num else num * 2 ^ (- ex) in
    let d := if 0 <=? ex then den * 2 ^ ex else den in
    let q := n / d in
    let r := n mod d in
    let q' :=
      if 2 * r <? d then q
      else if d <? 2 * r then q + 1
      else if Z.even q then q else q + 1 in
    if q' =? 0 then DZero
    else
      let mant := if q' =? 2 ^ 53 then 2 ^ 52 else q' in
      let ex' := if q' =? 2 ^ 53 then ex + 1 else ex in
      if 971 <? ex' then DInfinity else DFinite mant ex'.

(** The binary64 value of [s * 10^p]. *)
Definition roundDecimal (s p : Z) : double :=
  if 0 <=? p then roundRatio (s * 10 ^ p) 1 else roundRatio s (10 ^ (- p)).

(** The magnitude of the Number the literal [m * 10^e] denotes.  A literal
    of [k] digits is at least [10^(e+k-1)] and below [10^(e+k)]: from
    [10^309] on it is Infinity, below [10^-324] it is zero. *)
Definition toDouble (m e : Z) : double :=
  let a := Z.abs m in
  if a =? 0 then DZero
  else
    let k := Z.of_nat (List.length (decimalDigits (Z.to_N a))) in
    if 310 <=? e + k then DInfinity
    else if e + k <=? -324 then DZero
    else roundDecimal a e.

(** [10^n <= num / den]. *)
Definition pow10Leb (n num den : Z) : bool :=
  if 0 <=? n then den * 10 ^ n <=? num else den <=? num * 10 ^ (- n).

(** The [n] with [10^(n-1) <= num / den < 10^n]. *)
Definition decimalExponent (num den : Z) : Z :=
  let est := (Z.log2 num - Z.log2 den) * 30103 / 100000 in
  if pow10Leb (est + 1) num den then est + 2
  else if pow10Leb est num den then est + 1
  else est.

(** The decimal of [k] digits nearest to [num / den] among those that read
    back as [x], as digits [s] and exponent [p] ([s * 10^p]); [n] is the
    decimal exponent of [num / den]. *)
Definition digitsAt (x : double) (num den n k : Z) : option (Z * Z) :=
  let p := n - k in
  let sn := if 0 <=? p then num else num * 10 ^ (- p) in
  let sd := if 0 <=? p then den * 10 ^ p else den in
  let lo := sn / sd in
  let hi := lo + 1 in
  let r := sn mod sd in
  let okLo := double_eqb (roundDecimal lo p) x in
  let okHi := double_eqb (roundDecimal hi p) x in
  if okLo && okHi then
    if 2 * r <? sd then Some (lo, p)
    else if sd <? 2 * r then Some (hi, p)
    else if Z.even lo then Some (lo, p) else Some (hi, p)
  else if okLo then Some (lo, p)
  else if okHi then Some (hi, p)
  else None.

(** The fewest digits that read back as [x]: seventeen always do. *)
Fixpoint shortestDigits (fuel : nat) (x : double) (num den n k : Z) : Z * Z :=
  match fuel with
  | O => (num / den, 0)
  | S f =>
      match digitsAt x num den n k with
      | Some sp => sp
      | None => shortestDigits f x num den n (k + 1)
      end
  end.

(** ** Reading parsed values the way the pages do *)

(** Truthiness of a parsed value; a number is falsy when its value is
    zero. *)
Definition truthy (v : json) : bool :=
  match v with
  | JNull => false
  | JBool b => b
  | JNum m e => negb (double_eqb (toDouble m e) DZero)
  | JStr s => negb (isEmpty s)
  | JArr _ => true
  | JObj _ => true
  end.

(** [Object.prototype.hasOwnProperty.call(v, key)] for the keys the pages
    ask for (none of them is [length] or an index, the own properties of
    arrays and strings).  [None]: the call throws, on [null]. *)
Definition hasOwnProperty (v : json) (key : jsstring) : option bool :=
  match v with
  | JNull => None
  | JObj props => Some (match getProp props key with Some _ => true | None => false end)
  | _ => Some false
  end.

(** [v[key]] on a value that is not [null], for those keys: [None] is
    [undefined]. *)
Definition getMember (v : json) (key : jsstring) : option json :=
  match v with
  | JObj props => getProp props key
  | _ => None
  end.

Fixpoint dropTrailingZeros (revDigits : jsstring) (e : Z) : jsstring * Z :=
  match revDigits with
  | c :: r => if N.eqb c 48 then dropTrailingZeros r (e + 1) else (revDigits, e)
  | [] => ([], e)
  end.

(** Number::toString of the digits [ds] with the decimal point after the
    [n]-th. *)
Definition formatDigits (ds : jsstring) (n : Z) : jsstring :=
  let k := Z.of_nat (List.length ds) in
  if (k <=? n) && (n <=? 21) then ds ++ repeat 48%N (Z.to_nat (n - k))
  else if (0 <? n) && (n <=? 21) then
    firstn (Z.to_nat n) ds ++ js "." ++ skipn (Z.to_nat n) ds
  else if (-6 <? n) && (n <=? 0) then
    js "0." ++ repeat 48%N (Z.to_nat (- n)) ++ ds
  else
    let ex := (if n - 1 <? 0 then js "e-" else js "e+")
              ++ decimalDigits (Z.to_N (Z.abs (n - 1))) in
    match ds with
    | [d] => [d] ++ ex
    | d :: more => [d] ++ js "." ++ more ++ ex
    | [] => ex
    end.

(** [String] of the Number the literal [m * 10^e] denotes. *)
Definition numberToString (m e : Z) : jsstring :=
  let sign := if m <? 0 then js "-" else [] in
  match toDouble m e with
  | DZero => js "0"
  | DInfinity => sign ++ js "Infinity"
  | DFinite mant ex =>
      let num := if 0 <=? ex then mant * 2 ^ ex else mant in
      let den := if 0 <=? ex then 1 else 2 ^ (- ex) in
      let n := decimalExponent num den in
      let '(s, p) := shortestDigits 17 (DFinite mant ex) num den n 1 in
      let '(rd, p') := dropTrailingZeros (rev (decimalDigits (Z.to_N s))) p in
      let ds := rev rd in
      sign ++ formatDigits ds (Z.of_nat (List.length ds) + p')
  end.

Fixpoint joinWith (sep : jsstring) (parts : list jsstring) : jsstring :=
  match parts with
  | [] => []
  | [p] => p
  | p :: rest => p ++ sep ++ joinWith sep rest
  end.

(** [String(v)]; [None] is a thrown TypeError.  An object that has no
    own property [toString] is printed by [Object.prototype.toString]; the
    own property of a parsed object is never callable, and neither is the
    result of [valueOf] a primitive, so with one the conversion throws.  An
    array joins its elements with commas, [null] elements being empty. *)
Fixpoint toString (v : json) : option jsstring :=
  match v with
  | JNull => Some (js "null")
  | JBool true => Some (js "true")
  | JBool false => Some (js "false")
  | JNum m e => Some (numberToString m e)
  | JStr s => Some s
  | JArr items =>
      option_map (joinWith (js ","))
        ((fix elements (l : list json) : option (list jsstring) :=
            match l with
            | [] => Some []
            | x :: r =>
                match (match x with JNull => Some [] | _ => toString x end) with
                | Some str =>
                    match elements r with
                    | Some strs => Some (str :: strs)
                    | None => None
                    end
                | None => None
                end
            end) items)
  | JObj props =>
      match getProp props (js "toString") with
      | Some _ => None
      | None => Some (js "[object Object]")
      end
  end.

(** An array index: canonical decimal digits of a number below 2^32 - 1. *)
Definition arrayIndex (key : jsstring) : option N :=
  match key with
  | [] => None
  | c :: r =>
      if forallb isDigit key && (isEmpty r || negb (N.eqb c 48)) then
        let v := Z.to_N (digitsValue key) in
        if N.ltb v 4294967295 then Some v else None
      else None
  end.

Fixpoint insertIndexed (x : N * (jsstring * json)) (l : list (N * (jsstring * json)))
  : list (N * (jsstring * json)) :=
  match l with
  | [] => [x]
  | y :: r => if N.leb (fst x) (fst y) then x :: l else y :: insertIndexed x r
  end.

Definition indexedProps (props : list (jsstring * json)) : list (N * (jsstring * json)) :=
  flat_map (fun p => match arrayIndex (fst p) with
                     | Some i => [(i, p)]
                     | None => []
                     end) props.

Definition namedProps (props : list (jsstring * json)) : list (jsstring * json) :=
  filter (fun p => match arrayIndex (fst p) with Some _ => false | None => true end) props.

Fixpoint enumerate {A : Type} (i : N) (l : list A) : list (N * A) :=
  match l with
  | [] => []
  | x :: r => (i, x) :: enumerate (i + 1) r
  end.

(** [Object.entries(v)] on a value that is not [null]: index keys in
    ascending order, then the other keys in creation order. *)
Definition Object_entries (v : json) : list (jsstring * json) :=
  match v with
  | JObj props =>
      map snd (fold_right insertIndexed [] (indexedProps props)) ++ namedProps props
  | JArr items => map (fun p => (decimalDigits (fst p), snd p)) (enumerate 0 items)
  | JStr s => map (fun p => (decimalDigits (fst p), JStr [snd p])) (enumerate 0 s)
  | _ => []
  end.

(** [/id/i.test(key)]: an [i] or [I] followed by a [d] or [D]. *)
Fixpoint testId (key : jsstring) : bool :=
  match key with
  | c :: r =>
      match r with
      | d :: _ =>
          ((N.eqb c 105 || N.eqb c 73) && (N.eqb d 100 || N.eqb d 68)) || testId r
      | [] => false
      end
  | [] => false
  end.

(** ** [Array.prototype.sort]

    The sort is stable; with a consistent comparator its result is the one
    of a stable insertion sort.  [cmp a b > 0] puts [a] after [b]. *)

Section Sort.
Context {A : Type} (cmp : A -> A -> Z).

Fixpoint insertBy (x : A) (l : list A) : list A :=
  match l with
  | [] => [x]
  | y :: r => if 0 <? cmp x y then y :: insertBy x r else x :: l
  end.

Definition Array_sort (l : list A) : list A := fold_right insertBy [] l.

End Sort.

(** ** The scan-log page *)

Module ScanLog.

Record ScannedItem : Type := mkItem {
  deviceId : jsstring;
  rawData : jsstring;
  name : option jsstring;
  metadata : option json;
  scannedAt : Z  (* epoch ms *)
}.

(** The result of [parseDeviceIdFromQrPayload]. *)
Record Parsed : Type := mkParsed {
  p_deviceId : jsstring;
  p_name : option jsstring;
  p_metadata : option json
}.

Definition nameCandidateKeys : list jsstring :=
  map js ["name"; "fullName"; "studentName"; "student_name"; "ownerName";
          "owner"; "userName"; "username"; "firstName"; "lastName"]%string.

Definition candidateKeys : list jsstring :=
  map js ["deviceId"; "deviceID"; "device_id"; "id"; "device"]%string.

(** The loop over [nameCandidateKeys].  The outer [None] is a thrown
    TypeError ([hasOwnProperty] on [null]); the inner option is
    [extractedName]. *)
Fixpoint scanNameKeys (parsed : json) (keys : list jsstring)
  : option (option jsstring) :=
  match keys with
  | [] => Some None
  | key :: rest =>
      match hasOwnProperty parsed key with
      | None => None
      | Some true =>
          match getMember parsed key with
          | Some (JStr value) =>
              if isEmpty (trim value) then scanNameKeys parsed rest
              else Some (Some (trim value))
          | _ => scanNameKeys parsed rest
          end
      | Some false => scanNameKeys parsed rest
      end
  end.

(** [if (!extractedName) { ... firstName, lastName ... }]. *)
Definition combineFirstLast (parsed : json) (extractedName : option jsstring)
  : option jsstring :=
  let falsy := match extractedName with None => true | Some n => isEmpty n end in
  if falsy then
    match getMember parsed (js "firstName"), getMember parsed (js "lastName") with
    | Some (JStr first), Some (JStr last) =>
        let combo := trim (first ++ js " " ++ last) in
        if isEmpty combo then extractedName else Some combo
    | _, _ => extractedName
    end
  else extractedName.

(** The loop over [candidateKeys].  The outer [None] is a thrown TypeError
    ([hasOwnProperty] on [null], [String] of a nested id); the inner option
    is the returned id. *)
Fixpoint scanDeviceKeys (parsed : json) (keys : list jsstring)
  : option (option jsstring) :=
  match keys with
  | [] => Some None
  | key :: rest =>
      match hasOwnProperty parsed key with
      | None => None
      | Some true =>
          match getMember parsed key with
          | Some (JStr value) =>
              if (0 <? Z.of_nat (List.length (trim value))) then Some (Some (trim value))
              else scanDeviceKeys parsed rest
          | Some (JObj props) =>
              match getProp props (js "id") with
              | Some idv =>
                  if truthy idv then
                    match toString idv with
                    | Some str =>
                        let nested := trim str in
                        if (0 <? Z.of_nat (List.length nested)) then Some (Some nested)
                        else scanDeviceKeys parsed rest
                    | None => None
                    end
                  else scanDeviceKeys parsed rest
              | None => scanDeviceKeys parsed rest
              end
          | _ => scanDeviceKeys parsed rest
          end
      | Some false => scanDeviceKeys parsed rest
      end
  end.

(** The loop over [Object.entries(parsed)]. *)
Fixpoint scanIdLikeEntries (entries : list (jsstring * json)) : option jsstring :=
  match entries with
  | [] => None
  | (key, value) :: rest =>
      match value with
      | JStr str =>
          if testId key && negb (isEmpty (trim str)) then Some (trim str)
          else scanIdLikeEntries rest
      | _ => scanIdLikeEntries rest
      end
  end.

(** The body of the [try] block, once [JSON.parse] has returned [parsed];
    [None] when it throws. *)
Definition parseParsed (trimmed : jsstring) (parsed : json) : option Parsed :=
  match scanNameKeys parsed nameCandidateKeys with
  | None => None
  | Some found =>
      let extractedName := combineFirstLast parsed found in
      match scanDeviceKeys parsed candidateKeys with
      | None => None
      | Some (Some id) => Some (mkParsed id extractedName (Some parsed))
      | Some None =>
          match scanIdLikeEntries (Object_entries parsed) with
          | Some id => Some (mkParsed id extractedName (Some parsed))
          | None => Some (mkParsed trimmed extractedName (Some parsed))
          end
      end
  end.

Definition parseDeviceIdFromQrPayload (payload : jsstring) : Parsed :=
  let trimmed := trim payload in
  let notJson := mkParsed trimmed None None in
  match JSON_parse trimmed with
  | None => notJson
  | Some parsed =>
      match parseParsed trimmed parsed with
      | Some r => r
      | None => notJson
      end
  end.

Record State : Type := mkState {
  scannedItems : list ScannedItem;
  isScanning : bool;
  statusMessage : jsstring;
  lastRaw : jsstring;      (* lastRawRef.current *)
  lastTime : Z;            (* lastTimeRef.current *)
  stored : option (list ScannedItem)  (* localStorage["qratt:scans"] *)
}.

(** The return taken by [handleDecoded]. *)
Inductive Outcome : Type :=
| Debounced
| NoDeviceId
| DuplicateIgnored (id : jsstring)
| Saved (item : ScannedItem).

Definition initialState (stored : option (list ScannedItem)) : State :=
  mkState [] true (js "Align a QR code within the frame") [] 0 stored.

Definition setStatusMessage (msg : jsstring) (s : State) : State :=
  mkState (scannedItems s) (isScanning s) msg (lastRaw s) (lastTime s) (stored s).

Definition setScannedItems (items : list ScannedItem) (s : State) : State :=
  mkState items (isScanning s) (statusMessage s) (lastRaw s) (lastTime s) (stored s).

Definition setLast (raw : jsstring) (now : Z) (s : State) : State :=
  mkState (scannedItems s) (isScanning s) (statusMessage s) raw now (stored s).

(** [deviceIdSet.has(id)]. *)
Definition deviceIdSet_has (s : State) (id : jsstring) : bool :=
  existsb (fun item => jseqb (deviceId item) id) (scannedItems s).

(** [handleDecoded]; [now] is the reading of [Date.now()]. *)
Definition handleDecoded (now : Z) (decodedText : jsstring) (s : State)
  : State * Outcome :=
  if jseqb (lastRaw s) decodedText && (now - lastTime s <? 1500) then
    (s, Debounced)
  else
    let s := setLast decodedText now s in
    let r := parseDeviceIdFromQrPayload decodedText in
    if isEmpty (p_deviceId r) then
      (setStatusMessage (js "No device id found in QR") s, NoDeviceId)
    else if deviceIdSet_has s (p_deviceId r) then
      (setStatusMessage (js "Duplicate ignored: " ++ p_deviceId r) s,
       DuplicateIgnored (p_deviceId r))
    else
      let newItem := mkItem (p_deviceId r) decodedText (p_name r) (p_metadata r) now in
      let s := setScannedItems (newItem :: scannedItems s) s in
      (setStatusMessage (js "Saved: " ++ p_deviceId r) s, Saved newItem).

(** The effect that persists [scannedItems] after a render. *)
Definition persist (s : State) : State :=
  mkState (scannedItems s) (isScanning s) (statusMessage s) (lastRaw s)
    (lastTime s) (Some (scannedItems s)).

(** The mounted page: the stored scans are loaded. *)
Definition mount (stored : option (list ScannedItem)) : State :=
  match stored with
  | Some items => persist (setScannedItems items (initialState stored))
  | None => persist (initialState stored)
  end.

(** The scanner's [onScan]: an empty text is not handed on. *)
Definition onScan (now : Z) (text : jsstring) (s : State) : State * option Outcome :=
  if isEmpty text then (s, None)
  else let '(s', o) := handleDecoded now text s in (persist s', Some o).

End ScanLog.

(** ** What the two name-keyed pages share *)

Module Attendance.

Record AttendanceEntry : Type := mkEntry {
  name : jsstring;
  deviceId : jsstring;
  timestamp : jsstring  (* ISO string *)
}.

(** The three [localStorage] items of the pages.  The list is stored as
    [JSON.stringify] writes it and read back by [JSON.parse]; the item holds
    the list itself. *)
Record LocalStorage : Type := mkStorage {
  attendanceList : option (list AttendanceEntry);  (* attendance:list *)
  storedDeviceId : option jsstring;                (* attendance:deviceId *)
  selfAttemptedItem : option jsstring              (* attendance:self:attempted *)
}.

Definition emptyStorage : LocalStorage := mkStorage None None None.

(** [getOrCreateDeviceId] in the browser; [fresh] is what
    [crypto.randomUUID()] (or its fallback) yields when it is called. *)
Definition getOrCreateDeviceId (fresh : jsstring) (ls : LocalStorage)
  : jsstring * LocalStorage :=
  match storedDeviceId ls with
  | Some id =>
      if isEmpty id then
        (fresh, mkStorage (attendanceList ls) (Some fresh) (selfAttemptedItem ls))
      else (id, ls)
  | None =>
      (fresh, mkStorage (attendanceList ls) (Some fresh) (selfAttemptedItem ls))
  end.

Definition readAttendance (ls : LocalStorage) : list AttendanceEntry :=
  match attendanceList ls with
  | Some entries => entries
  | None => []
  end.

Definition writeAttendance (entries : list AttendanceEntry) (ls : LocalStorage)
  : LocalStorage :=
  mkStorage (Some entries) (storedDeviceId ls) (selfAttemptedItem ls).

(** The return taken by [addEntry]. *)
Inductive AddOutcome : Type :=
| InvalidName                       (* [if (!name) return] *)
| DuplicateName                     (* [if (exists) return] *)
| Accepted (e : AttendanceEntry).   (* the entry was put in front *)

(** [entries.some(e => e.name.localeCompare(name, undefined,
    { sensitivity: "accent" }) === 0)] *)
Definition nameExists (entries : list AttendanceEntry) (nm : jsstring) : bool :=
  existsb (fun e => localeCompare Accent (name e) nm =? 0) entries.

(** [addEntry], on the list: [dev] is [deviceIdRef.current], [now] the
    instant [new Date()] reads.  The result is the value of [updated] when
    an entry is added, the list as it was otherwise. *)
Definition addEntry (dev : jsstring) (now : Z) (nameRaw : jsstring)
  (entries : list AttendanceEntry) : list AttendanceEntry * AddOutcome :=
  let nm := trim nameRaw in
  if isEmpty nm then (entries, InvalidName)
  else if nameExists entries nm then (entries, DuplicateName)
  else
    let newEntry := mkEntry nm dev (toISOString now) in
    (newEntry :: entries, Accepted newEntry).

(** The comparator of [sortedEntries]:
    [(a, b) => b.timestamp.localeCompare(a.timestamp)]. *)
Definition byTimestampDesc (a b : AttendanceEntry) : Z :=
  localeCompare Variant (timestamp b) (timestamp a).

Definition sortedEntries (entries : list AttendanceEntry) : list AttendanceEntry :=
  Array_sort byTimestampDesc entries.

(** The records that carry the timestamp [t]. *)
Definition stampedAt (t : jsstring) (e : AttendanceEntry) : bool :=
  jseqb (timestamp e) t.

(** Pending [setTimeout] callbacks, by deadline.  [fireTimer now] removes
    the first one that is due; [None] when none is. *)
Fixpoint fireTimer (now : Z) (timers : list Z) : option (list Z) :=
  match timers with
  | [] => None
  | d :: rest =>
      if d <=? now then Some rest
      else match fireTimer now rest with
           | Some rest' => Some (d :: rest')
           | None => None
           end
  end.

End Attendance.

(** ** The name-keyed organizer page without a lock *)

Module Roster.
Import Attendance.

Record State : Type := mkState {
  entries : list AttendanceEntry;
  manualName : jsstring;
  scanError : option jsstring;
  infoMessage : option jsstring;
  justScanned : bool;
  deviceIdRef : jsstring;
  timers : list Z;             (* deadlines of the pending [setTimeout]s *)
  localStorage : LocalStorage
}.

Definition setEntries (v : list AttendanceEntry) (s : State) : State :=
  mkState v (manualName s) (scanError s) (infoMessage s) (justScanned s)
    (deviceIdRef s) (timers s) (localStorage s).

Definition setManualName (v : jsstring) (s : State) : State :=
  mkState (entries s) v (scanError s) (infoMessage s) (justScanned s)
    (deviceIdRef s) (timers s) (localStorage s).

Definition setScanError (v : option jsstring) (s : State) : State :=
  mkState (entries s) (manualName s) v (infoMessage s) (justScanned s)
    (deviceIdRef s) (timers s) (localStorage s).

Definition setInfoMessage (v : option jsstring) (s : State) : State :=
  mkState (entries s) (manualName s) (scanError s) v (justScanned s)
    (deviceIdRef s) (timers s) (localStorage s).

Definition setJustScanned (v : bool) (s : State) : State :=
  mkState (entries s) (manualName s) (scanError s) (infoMessage s) v
    (deviceIdRef s) (timers s) (localStorage s).

Definition setDeviceIdRef (v : jsstring) (s : State) : State :=
  mkState (entries s) (manualName s) (scanError s) (infoMessage s) (justScanned s)
    v (timers s) (localStorage s).

Definition setTimers (v : list Z) (s : State) : State :=
  mkState (entries s) (manualName s) (scanError s) (infoMessage s) (justScanned s)
    (deviceIdRef s) v (localStorage s).

Definition setLocalStorage (v : LocalStorage) (s : State) : State :=
  mkState (entries s) (manualName s) (scanError s) (infoMessage s) (justScanned s)
    (deviceIdRef s) (timers s) v.

(** [setTimeout(callback, delay)] called at [now]. *)
Definition setTimeout (now delay : Z) (s : State) : State :=
  setTimers (timers s ++ [now + delay]) s.

(** The [useState] values of the first render. *)
Definition initialState (ls : LocalStorage) : State :=
  mkState [] [] None None false [] [] ls.

(** The mount effect. *)
Definition mount (fresh : jsstring) (ls : LocalStorage) : State :=
  let s := initialState ls in
  let '(id, ls') := getOrCreateDeviceId fresh (localStorage s) in
  let s := setLocalStorage ls' (setDeviceIdRef id s) in
  setEntries (readAttendance (localStorage s)) s.

(** [addEntry] on the page state. *)
Definition addEntry (now : Z) (nameRaw : jsstring) (s : State) : State * AddOutcome :=
  let '(updated, o) := Attendance.addEntry (deviceIdRef s) now nameRaw (entries s) in
  match o with
  | Accepted _ =>
      (setLocalStorage (writeAttendance updated (localStorage s)) (setEntries updated s), o)
  | _ => (s, o)
  end.

(** The return taken by a handler. *)
Inductive Outcome : Type :=
| Debounced                  (* [if (justScanned) return] *)
| Threw                      (* TypeError: [.trim] of a value that is no string *)
| NoValidName                (* "QR does not contain a valid name." *)
| DeviceAlready              (* "This device has already checked in." *)
| BlankManualName            (* [if (!manualName.trim()) return] *)
| Submitted (o : AddOutcome).

(** [(parsed && parsed.key ? parsed.key : "").trim()]; [None] when [trim]
    is called on a value that is not a string. *)
Definition trimmedField (parsed : json) (key : jsstring) : option jsstring :=
  let v :=
    if truthy parsed then
      match getMember parsed key with
      | Some x => if truthy x then x else JStr []
      | None => JStr []
      end
    else JStr [] in
  match v with
  | JStr str => Some (trim str)
  | _ => None
  end.

(** [try { parsed = JSON.parse(result) } catch { parsed = { name: result } }]. *)
Definition parsePayload (result : jsstring) : json :=
  match JSON_parse result with
  | Some v => v
  | None => JObj [(js "name", JStr result)]
  end.

(** [handleDecode]; [now] is the instant of the call. *)
Definition handleDecode (now : Z) (result : jsstring) (s : State) : State * Outcome :=
  if justScanned s then (s, Debounced)
  else
    let s := setJustScanned true s in
    let s := setTimeout now 1200 s in
    let s := setScanError None s in
    let s := setInfoMessage None s in
    let parsed := parsePayload result in
    match trimmedField parsed (js "name") with
    | None => (s, Threw)
    | Some incomingName =>
        match trimmedField parsed (js "deviceId") with
        | None => (s, Threw)
        | Some incomingDeviceId =>
            if isEmpty incomingName then
              (setScanError (Some (js "QR does not contain a valid name.")) s,
               NoValidName)
            else if negb (isEmpty incomingDeviceId)
                    && existsb (fun e => jseqb (deviceId e) incomingDeviceId) (entries s)
            then
              (setScanError (Some (js "This device has already checked in.")) s,
               DeviceAlready)
            else
              let '(s', o) := addEntry now incomingName s in (s', Submitted o)
        end
    end.

Definition handleManualAdd (now : Z) (s : State) : State * Outcome :=
  if isEmpty (trim (manualName s)) then (s, BlankManualName)
  else
    let '(s', o) := addEntry now (manualName s) s in
    (setManualName [] s', Submitted o).

(** [clearAll]; [fresh] is the next value of the random source. *)
Definition clearAll (fresh : jsstring) (s : State) : State :=
  let s := setEntries [] s in
  let ls := mkStorage None None (selfAttemptedItem (localStorage s)) in
  let '(id, ls) := getOrCreateDeviceId fresh ls in
  let s := setDeviceIdRef id s in
  let s := setManualName [] s in
  let s := setScanError None s in
  let s := setInfoMessage None s in
  setLocalStorage (writeAttendance [] ls) s.

(** What happens to the page. *)
Inductive Event : Type :=
| Scan (now : Z) (rawValue : jsstring)   (* the scanner's [onScan] *)
| TimerFires (now : Z)                   (* a due [setTimeout] callback runs *)
| TypeManualName (text : jsstring)
| ClickAdd (now : Z)
| ClickClear (fresh : jsstring)
| Reload (fresh : jsstring).             (* the page is loaded again *)

(** One event, handled to completion.  The scanner hands on a text that is
    not empty; a timer event with no due timer changes nothing. *)
Definition step (ev : Event) (s : State) : State * option Outcome :=
  match ev with
  | Scan now value =>
      if isEmpty value then (s, None)
      else let '(s', o) := handleDecode now value s in (s', Some o)
  | TimerFires now =>
      match fireTimer now (timers s) with
      | Some rest => (setJustScanned false (setTimers rest s), None)
      | None => (s, None)
      end
  | TypeManualName text => (setManualName text s, None)
  | ClickAdd now => let '(s', o) := handleManualAdd now s in (s', Some o)
  | ClickClear fresh => (clearAll fresh s, None)
  | Reload fresh => (mount fresh (localStorage s), None)
  end.

Fixpoint run (evs : list Event) (s : State) : State * list (option Outcome) :=
  match evs with
  | [] => (s, [])
  | ev :: rest =>
      let '(s1, o) := step ev s in
      let '(s2, os) := run rest s1 in
      (s2, o :: os)
  end.

(** The random source never yields the empty string. *)
Definition freshOk (ev : Event) : Prop :=
  match ev with
  | ClickClear fresh | Reload fresh => fresh <> []
  | _ => True
  end.

(** The states the page passes through, from a first visit (nothing
    stored). *)
Inductive reachable : State -> Prop :=
| reach_mount : forall fresh, fresh <> [] -> reachable (mount fresh emptyStorage)
| reach_step : forall s ev, reachable s -> freshOk ev -> reachable (fst (step ev s)).

End Roster.

(** ** The organizer page with the mode switch and the PIN lock *)

Module Gate.
Import Attendance.

Inductive Mode : Type := scanner | self.

Record State : Type := mkState {
  mode : Mode;
  entries : list AttendanceEntry;
  manualName : jsstring;
  scanError : option jsstring;
  infoMessage : option jsstring;
  justScanned : bool;
  selfAttempted : bool;
  organizerUnlocked : bool;
  pinInput : jsstring;
  unlockError : option jsstring;
  deviceIdRef : jsstring;
  timers : list Z;             (* deadlines of the pending [setTimeout]s *)
  localStorage : LocalStorage
}.

Definition setMode (v : Mode) (s : State) : State :=
  mkState v (entries s) (manualName s) (scanError s) (infoMessage s)
    (justScanned s) (selfAttempted s) (organizerUnlocked s) (pinInput s)
    (unlockError s) (deviceIdRef s) (timers s) (localStorage s).

Definition setEntries (v : list AttendanceEntry) (s : State) : State :=
  mkState (mode s) v (manualName s) (scanError s) (infoMessage s)
    (justScanned s) (selfAttempted s) (organizerUnlocked s) (pinInput s)
    (unlockError s) (deviceIdRef s) (timers s) (localStorage s).

Definition setManualName (v : jsstring) (s : State) : State :=
  mkState (mode s) (entries s) v (scanError s) (infoMessage s)
    (justScanned s) (selfAttempted s) (organizerUnlocked s) (pinInput s)
    (unlockError s) (deviceIdRef s) (timers s) (localStorage s).

Definition setScanError (v : option jsstring) (s : State) : State :=
  mkState (mode s) (entries s) (manualName s) v (infoMessage s)
    (justScanned s) (selfAttempted s) (organizerUnlocked s) (pinInput s)
    (unlockError s) (deviceIdRef s) (timers s) (localStorage s).

Definition setInfoMessage (v : option jsstring) (s : State) : State :=
  mkState (mode s) (entries s) (manualName s) (scanError s) v
    (justScanned s) (selfAttempted s) (organizerUnlocked s) (pinInput s)
    (unlockError s) (deviceIdRef s) (timers s) (localStorage s).

Definition setJustScanned (v : bool) (s : State) : State :=
  mkState (mode s) (entries s) (manualName s) (scanError s) (infoMessage s)
    v (selfAttempted s) (organizerUnlocked s) (pinInput s)
    (unlockError s) (deviceIdRef s) (timers s) (localStorage s).

Definition setSelfAttempted (v : bool) (s : State) : State :=
  mkState (mode s) (entries s) (manualName s) (scanError s) (infoMessage s)
    (justScanned s) v (organizerUnlocked s) (pinInput s)
    (unlockError s) (deviceIdRef s) (timers s) (localStorage s).

Definition setOrganizerUnlocked (v : bool) (s : State) : State :=
  mkState (mode s) (entries s) (manualName s) (scanError s) (infoMessage s)
    (justScanned s) (selfAttempted s) v (pinInput s)
    (unlockError s) (deviceIdRef s) (timers s) (localStorage s).

Definition setPinInput (v : jsstring) (s : State) : State :=
  mkState (mode s) (entries s) (manualName s) (scanError s) (infoMessage s)
    (justScanned s) (selfAttempted s) (organizerUnlocked s) v
    (unlockError s) (deviceIdRef s) (timers s) (localStorage s).

Definition setUnlockError (v : option jsstring) (s : State) : State :=
  mkState (mode s) (entries s) (manualName s) (scanError s) (infoMessage s)
    (justScanned s) (selfAttempted s) (organizerUnlocked s) (pinInput s)
    v (deviceIdRef s) (timers s) (localStorage s).

Definition setDeviceIdRef (v : jsstring) (s : State) : State :=
  mkState (mode s) (entries s) (manualName s) (scanError s) (infoMessage s)
    (justScanned s) (selfAttempted s) (organizerUnlocked s) (pinInput s)
    (unlockError s) v (timers s) (localStorage s).

Definition setTimers (v : list Z) (s : State) : State :=
  mkState (mode s) (entries s) (manualName s) (scanError s) (infoMessage s)
    (justScanned s) (selfAttempted s) (organizerUnlocked s) (pinInput s)
    (unlockError s) (deviceIdRef s) v (localStorage s).

Definition setLocalStorage (v : LocalStorage) (s : State) : State :=
  mkState (mode s) (entries s) (manualName s) (scanError s) (infoMessage s)
    (justScanned s) (selfAttempted s) (organizerUnlocked s) (pinInput s)
    (unlockError s) (deviceIdRef s) (timers s) v.

(** [setTimeout(callback, delay)] called at [now]. *)
Definition setTimeout (now delay : Z) (s : State) : State :=
  setTimers (timers s ++ [now + delay]) s.

(** [process.env.NEXT_PUBLIC_ORG_PIN ?? "1234"]. *)
Definition ORGANIZER_PIN (NEXT_PUBLIC_ORG_PIN : option jsstring) : jsstring :=
  match NEXT_PUBLIC_ORG_PIN with
  | Some pin => pin
  | None => js "1234"
  end.

(** The [useState] values of the first render. *)
Definition initialState (ls : LocalStorage) : State :=
  mkState scanner [] [] None None false false false [] None [] [] ls.

(** The effect on [organizerUnlocked] and [mode]: "Force self mode when
    organizer lock is engaged". *)
Definition forceSelfMode (s : State) : State :=
  if negb (organizerUnlocked s) && match mode s with scanner => true | self => false end
  then setMode self s
  else s.

(** The mount effect: [localStorage.getItem(SELF_ATTEMPT_KEY) === "true"]. *)
Definition mountEffect (fresh : jsstring) (s : State) : State :=
  let '(id, ls') := getOrCreateDeviceId fresh (localStorage s) in
  let s := setLocalStorage ls' (setDeviceIdRef id s) in
  let s := setEntries (readAttendance (localStorage s)) s in
  setSelfAttempted
    (match selfAttemptedItem (localStorage s) with
     | Some v => jseqb v (js "true")
     | None => false
     end) s.

(** The page once its effects have run after the first render. *)
Definition mount (fresh : jsstring) (ls : LocalStorage) : State :=
  forceSelfMode (mountEffect fresh (initialState ls)).

(** [addEntry] on the page state. *)
Definition addEntry (now : Z) (nameRaw : jsstring) (s : State) : State * AddOutcome :=
  let '(updated, o) := Attendance.addEntry (deviceIdRef s) now nameRaw (entries s) in
  match o with
  | Accepted _ =>
      (setLocalStorage (writeAttendance updated (localStorage s)) (setEntries updated s), o)
  | _ => (s, o)
  end.

(** The return taken by a handler. *)
Inductive Outcome : Type :=
| Debounced            (* [if (justScanned) return] *)
| AlreadyCheckedIn     (* "You have already checked in from this device." *)
| SelfConfirmed        (* "Check-in recorded on this device. ..." *)
| Locked               (* "Organizer lock is enabled. Unlock to save attendance." *)
| BlankManualName      (* [if (!manualName.trim()) return] *)
| Submitted (o : AddOutcome).

Definition lockedMessage : jsstring :=
  js "Organizer lock is enabled. Unlock to save attendance.".

(** [handleDecode]; [now] is the instant of the call. *)
Definition handleDecode (now : Z) (result : jsstring) (s : State) : State * Outcome :=
  if justScanned s then (s, Debounced)
  else
    let s := setJustScanned true s in
    let s := setTimeout now 1200 s in
    let s := setScanError None s in
    let s := setInfoMessage None s in
    match mode s with
    | self =>
        if selfAttempted s then
          (setScanError (Some (js "You have already checked in from this device.")) s,
           AlreadyCheckedIn)
        else
          let ls := localStorage s in
          let s := setLocalStorage
                     (mkStorage (attendanceList ls) (storedDeviceId ls) (Some (js "true"))) s in
          let s := setSelfAttempted true s in
          (setInfoMessage
             (Some (js "Check-in recorded on this device. Please show your QR to the organizer.")) s,
           SelfConfirmed)
    | scanner =>
        if negb (organizerUnlocked s) then
          (setScanError (Some lockedMessage) s, Locked)
        else
          let '(s', o) := addEntry now result s in (s', Submitted o)
    end.

Definition handleManualAdd (now : Z) (s : State) : State * Outcome :=
  if isEmpty (trim (manualName s)) then (s, BlankManualName)
  else if negb (organizerUnlocked s) then
    (setScanError (Some lockedMessage) s, Locked)
  else
    let '(s', o) := addEntry now (manualName s) s in
    (setManualName [] s', Submitted o).

Definition clearAll (s : State) : State :=
  setLocalStorage (writeAttendance [] (localStorage s)) (setEntries [] s).

(** The [onClick] of the Unlock button. *)
Definition clickUnlock (NEXT_PUBLIC_ORG_PIN : option jsstring) (s : State) : State :=
  if jseqb (pinInput s) (ORGANIZER_PIN NEXT_PUBLIC_ORG_PIN) then
    setUnlockError None (setOrganizerUnlocked true s)
  else setUnlockError (Some (js "Invalid PIN")) s.

(** What happens to the page. *)
Inductive Event : Type :=
| Scan (now : Z) (rawValue : jsstring)   (* the scanner's [onScan] *)
| TimerFires (now : Z)                   (* a due [setTimeout] callback runs *)
| TypeManualName (text : jsstring)
| ClickAdd (now : Z)
| TypePin (text : jsstring)
| ClickUnlock
| SelectMode (m : Mode)
| ClickClear
| Reload (fresh : jsstring).             (* the page is loaded again *)

(** The handler an event reaches.  The Add and Clear buttons and the
    scanner-mode radio are [disabled] while the lock is engaged; the PIN
    field and the Unlock button are rendered only then. *)
Definition dispatch (pin : option jsstring) (ev : Event) (s : State)
  : State * option Outcome :=
  match ev with
  | Scan now value =>
      if isEmpty value then (s, None)
      else let '(s', o) := handleDecode now value s in (s', Some o)
  | TimerFires now =>
      match fireTimer now (timers s) with
      | Some rest => (setJustScanned false (setTimers rest s), None)
      | None => (s, None)
      end
  | TypeManualName text => (setManualName text s, None)
  | ClickAdd now =>
      if organizerUnlocked s
      then let '(s', o) := handleManualAdd now s in (s', Some o)
      else (s, None)
  | TypePin text =>
      if organizerUnlocked s then (s, None) else (setPinInput text s, None)
  | ClickUnlock =>
      if organizerUnlocked s then (s, None) else (clickUnlock pin s, None)
  | SelectMode scanner =>
      if organizerUnlocked s then (setMode scanner s, None) else (s, None)
  | SelectMode self => (setMode self s, None)
  | ClickClear =>
      if organizerUnlocked s then (clearAll s, None) else (s, None)
  | Reload fresh => (mountEffect fresh (initialState (localStorage s)), None)
  end.

(** One event: its handler, then the effects of the render that follows. *)
Definition step (pin : option jsstring) (ev : Event) (s : State)
  : State * option Outcome :=
  let '(s', o) := dispatch pin ev s in (forceSelfMode s', o).

Fixpoint run (pin : option jsstring) (evs : list Event) (s : State)
  : State * list (option Outcome) :=
  match evs with
  | [] => (s, [])
  | ev :: rest =>
      let '(s1, o) := step pin ev s in
      let '(s2, os) := run pin rest s1 in
      (s2, o :: os)
  end.

(** The states the page passes through once mounted. *)
Inductive reachable (pin : option jsstring) : State -> Prop :=
| reach_mount : forall fresh ls, reachable pin (mount fresh ls)
| reach_step : forall s ev, reachable pin s -> reachable pin (fst (step pin ev s)).

End Gate.

(** ** [JSON.stringify] of strings

    QuoteJSONString: the two-character escapes, [\u] and four lower-case
    hexadecimal digits for the other controls and for a surrogate that has
    no partner, every other code unit as it is. *)

Definition hexDigit (d : N) : N :=
  if N.ltb d 10 then (48 + d)%N else (87 + d)%N.

Definition unicodeEscape (c : N) : jsstring :=
  [92; 117; hexDigit (c / 4096 mod 16); hexDigit (c / 256 mod 16);
   hexDigit (c / 16 mod 16); hexDigit (c mod 16)]%N.

Definition isLeadSurrogate (c : N) : bool := inRange 55296 56319 c.
Definition isTrailSurrogate (c : N) : bool := inRange 56320 57343 c.

(** One code unit that is not the first half of a pair. *)
Definition quoteUnit (c : N) : jsstring :=
  if N.eqb c 8 then [92; 98]%N
  else if N.eqb c 9 then [92; 116]%N
  else if N.eqb c 10 then [92; 110]%N
  else if N.eqb c 12 then [92; 102]%N
  else if N.eqb c 13 then [92; 114]%N
  else if N.eqb c 34 then [92; 34]%N
  else if N.eqb c 92 then [92; 92]%N
  else if N.ltb c 32 || isLeadSurrogate c || isTrailSurrogate c then unicodeEscape c
  else [c].

Fixpoint quoteChars (s : jsstring) : jsstring :=
  match s with
  | [] => []
  | c :: r =>
      if isLeadSurrogate c then
        match r with
        | d :: r' =>
            if isTrailSurrogate d then c :: d :: quoteChars r'
            else unicodeEscape c ++ quoteChars r
        | [] => unicodeEscape c
        end
      else quoteUnit c ++ quoteChars r
  end.

Definition quoteJSONString (s : jsstring) : jsstring :=
  [34%N] ++ quoteChars s ++ [34%N].

(** [JSON.stringify] of an object whose values are strings, properties in
    creation order, and of an array of such objects. *)
Definition stringifyProperty (p : jsstring * jsstring) : jsstring :=
  quoteJSONString (fst p) ++ js ":" ++ quoteJSONString (snd p).

Definition stringifyObject (props : list (jsstring * jsstring)) : jsstring :=
  js "{" ++ joinWith (js ",") (map stringifyProperty props) ++ js "}".

Definition stringifyArray (objects : list (list (jsstring * jsstring))) : jsstring :=
  js "[" ++ joinWith (js ",") (map stringifyObject objects) ++ js "]".

(** The object such a text denotes. *)
Definition objectOf (props : list (jsstring * jsstring)) : json :=
  JObj (map (fun p => (fst p, JStr (snd p))) props).

(** ** The student pages *)

Module Student.

(** [qrValue] of the page that encodes the bare name: [name.trim()]. *)
Definition qrValuePlain (name : jsstring) : jsstring := trim name.

(** [qrValue] of the page that encodes name and device id:
    [JSON.stringify({ name: clean, deviceId })], or the empty string when
    either is empty. *)
Definition qrValue (name deviceId : jsstring) : jsstring :=
  let clean := trim name in
  if isEmpty clean || isEmpty deviceId then []
  else stringifyObject [(js "name", clean); (js "deviceId", deviceId)].

(** [s.replace(/\s+/g, "_")]: every run of white space becomes one
    underscore.  [inRun] tells that the code unit before was white space. *)
Fixpoint replaceSpaceRuns (inRun : bool) (s : jsstring) : jsstring :=
  match s with
  | [] => []
  | c :: r =>
      if isWhiteSpace c then
        if inRun then replaceSpaceRuns true r
        else 95%N :: replaceSpaceRuns true r
      else c :: replaceSpaceRuns false r
  end.

(** The [download] name of [downloadPng]. *)
Definition downloadName (qr : jsstring) : jsstring :=
  js "qr-" ++ replaceSpaceRuns false qr ++ js ".png".

End Student.

(** ** The attendance list as it is stored *)

Module Stored.
Import Attendance.

(** A JavaScript string: every code unit has 16 bits. *)
Definition is16bit (s : jsstring) : bool := forallb (fun c => N.ltb c 65536) s.

(** The properties of an entry, in the order [addEntry] creates them. *)
Definition entryProps (e : AttendanceEntry) : list (jsstring * jsstring) :=
  [(js "name", name e); (js "deviceId", deviceId e); (js "timestamp", timestamp e)].

(** The item [writeAttendance] sets: [JSON.stringify(entries)]. *)
Definition stringifyEntries (entries : list AttendanceEntry) : jsstring :=
  stringifyArray (map entryProps entries).

(** What [readAttendance] returns for the item it gets:
    [raw ? JSON.parse(raw) : []], and [[]] when [JSON.parse] throws. *)
Definition readItem (item : option jsstring) : json :=
  match item with
  | Some raw =>
      if isEmpty raw then JArr []
      else match JSON_parse raw with
           | Some v => v
           | None => JArr []
           end
  | None => JArr []
  end.

End Stored.

(** ** The scan-log page: its other handlers and its events *)

Module ScanLogPage.
Import ScanLog.

Definition setIsScanning (v : bool) (s : State) : State :=
  mkState (scannedItems s) v (statusMessage s) (lastRaw s) (lastTime s) (stored s).

(** [handleError]: the message of an [Error], a fixed text otherwise. *)
Definition handleError (message : option jsstring) (s : State) : State :=
  match message with
  | Some m => setStatusMessage m s
  | None => setStatusMessage (js "Camera error while scanning") s
  end.

Definition removeItem (id : jsstring) (s : State) : State :=
  setScannedItems
    (filter (fun i => negb (jseqb (deviceId i) id)) (scannedItems s)) s.

Definition clearAll (s : State) : State :=
  setStatusMessage (js "All scans cleared") (setScannedItems [] s).

Inductive Event : Type :=
| Scan (now : Z) (text : jsstring)     (* the scanner's [onScan] *)
| CameraError (message : option jsstring)
| ClickRemove (id : jsstring)
| ClickClear
| ClickStartStop
| Reload.

(** One event, then the effect that persists the list.  The scanner is
    rendered only while [isScanning]. *)
Definition step (ev : Event) (s : State) : State * option Outcome :=
  match ev with
  | Scan now text =>
      if isScanning s then onScan now text s else (s, None)
  | CameraError message =>
      if isScanning s then (persist (handleError message s), None) else (s, None)
  | ClickRemove id => (persist (removeItem id s), None)
  | ClickClear => (persist (clearAll s), None)
  | ClickStartStop => (persist (setIsScanning (negb (isScanning s)) s), None)
  | Reload => (mount (stored s), None)
  end.

Fixpoint run (evs : list Event) (s : State) : State * list (option Outcome) :=
  match evs with
  | [] => (s, [])
  | ev :: rest =>
      let '(s1, o) := step ev s in
      let '(s2, os) := run rest s1 in
      (s2, o :: os)
  end.

(** The states the page passes through, from a first visit. *)
Inductive reachable : State -> Prop :=
| reach_mount : reachable (mount None)
| reach_step : forall s ev, reachable s -> reachable (fst (step ev s)).

End ScanLogPage.

(** ** Predicates of the further properties *)

(** The properties of a parsed object, as [JSON.parse] collects them from
    the members of its text: a repeated key keeps its first place. *)
Definition collectProps (acc : list (jsstring * json)) (props : list (jsstring * jsstring))
  : list (jsstring * json) :=
  fold_left (fun a p => setProp a (fst p) (JStr (snd p))) props acc.

Definition props16bit (props : list (jsstring * jsstring)) : bool :=
  forallb (fun p => Stored.is16bit (fst p) && Stored.is16bit (snd p)) props.

Definition entries16bit (entries : list Attendance.AttendanceEntry) : bool :=
  forallb (fun e => Stored.is16bit (Attendance.name e)
                    && Stored.is16bit (Attendance.deviceId e)
                    && Stored.is16bit (Attendance.timestamp e)) entries.



(** The key under which [addEntry] compares names. *)
Definition nameKey (e : Attendance.AttendanceEntry) : jsstring :=
  collationKey Accent (Attendance.name e).

(** A list of entries as [addEntry] builds it: no two names equal at
    sensitivity [accent], every name trimmed and not empty. *)
Definition ledgerOk (entries : list Attendance.AttendanceEntry) : Prop :=
  NoDup (map nameKey entries)
  /\ Forall (fun e => Attendance.name e <> []
                      /\ trim (Attendance.name e) = Attendance.name e) entries.

(** The random source never yields the empty string. *)
Definition gateFreshOk (ev : Gate.Event) : Prop :=
  match ev with
  | Gate.Reload fresh => fresh <> []
  | _ => True
  end.

(** The states the page with the lock passes through from a first visit
    (nothing stored). *)
Inductive gateFirstVisit (pin : option jsstring) : Gate.State -> Prop :=
| fv_mount : forall fresh,
    fresh <> [] -> gateFirstVisit pin (Gate.mount fresh Attendance.emptyStorage)
| fv_step : forall s ev,
    gateFirstVisit pin s -> gateFreshOk ev ->
    gateFirstVisit pin (fst (Gate.step pin ev s)).

(** What the page with the lock keeps: the list as [addEntry] builds it,
    every record under the page's device id, which is stored and not
    empty, the stored list and the stored attempt flag up to date. *)
Definition gateOk (s : Gate.State) : Prop :=
  ledgerOk (Gate.entries s)
  /\ (forall e, In e (Gate.entries s) -> Attendance.deviceId e = Gate.deviceIdRef s)
  /\ Gate.deviceIdRef s <> []
  /\ Attendance.storedDeviceId (Gate.localStorage s) = Some (Gate.deviceIdRef s)
  /\ Attendance.readAttendance (Gate.localStorage s) = Gate.entries s
  /\ Gate.selfAttempted s
     = match Attendance.selfAttemptedItem (Gate.localStorage s) with
       | Some v => jseqb v (js "true")
       | None => false
       end.

(** ** Invariants of the pages *)

(** The list on the name-keyed page without a lock: every record carries
    the id of the device the page runs on, which is stored and not empty,
    and the stored list is the list shown. *)
Definition rosterOk (s : Roster.State) : Prop :=
  (forall e, In e (Roster.entries s) ->
             Attendance.deviceId e = Roster.deviceIdRef s)
  /\ Roster.deviceIdRef s <> []
  /\ Attendance.storedDeviceId (Roster.localStorage s) = Some (Roster.deviceIdRef s)
  /\ Attendance.readAttendance (Roster.localStorage s) = Roster.entries s.

(** One timer is pending exactly while [justScanned] is set. *)
Definition timersOk (s : Roster.State) : Prop :=
  if Roster.justScanned s then exists d, Roster.timers s = [d]
  else Roster.timers s = [].

(** The same on the page with the lock. *)
Definition gateTimersOk (s : Gate.State) : Prop :=
  if Gate.justScanned s then exists d, Gate.timers s = [d]
  else Gate.timers s = [].

(** The attempt is used: the flag is set and stored. *)
Definition attemptUsed (s : Gate.State) : Prop :=
  Gate.selfAttempted s = true
  /\ Attendance.selfAttemptedItem (Gate.localStorage s) = Some (js "true").

(** ** Proof automation *)

(** Case analysis on the test of a conditional of the goal. *)
Ltac break_if :=
  match goal with
  | |- context [if ?c then _ else _] => destruct c eqn:?
  | |- context [match ?c with Gate.scanner => _ | Gate.self => _ end] =>
      destruct c eqn:?
  end.

(** Evaluation of the page handlers on a state given field by field. *)
Ltac gate_eval :=
  cbv beta iota zeta delta
    [Gate.run Gate.step Gate.dispatch Gate.mount Gate.mountEffect
     Gate.initialState Gate.forceSelfMode Gate.clickUnlock Gate.clearAll
     Gate.handleDecode Gate.handleManualAdd Gate.addEntry Gate.setTimeout
     Gate.setMode Gate.setEntries Gate.setManualName Gate.setScanError
     Gate.setInfoMessage Gate.setJustScanned Gate.setSelfAttempted
     Gate.setOrganizerUnlocked Gate.setPinInput Gate.setUnlockError
     Gate.setDeviceIdRef Gate.setTimers Gate.setLocalStorage
     Gate.mode Gate.entries Gate.manualName Gate.scanError Gate.infoMessage
     Gate.justScanned Gate.selfAttempted Gate.organizerUnlocked Gate.pinInput
     Gate.unlockError Gate.deviceIdRef Gate.timers Gate.localStorage
     Attendance.getOrCreateDeviceId Attendance.readAttendance
     Attendance.writeAttendance Attendance.emptyStorage
     Attendance.attendanceList Attendance.storedDeviceId
     Attendance.selfAttemptedItem Attendance.addEntry
     Attendance.nameExists existsb fst snd negb andb app].

(** The same for the page without a lock. *)
Ltac roster_eval :=
  cbv beta iota zeta delta
    [Roster.run Roster.step Roster.mount Roster.initialState Roster.clearAll
     Roster.handleDecode Roster.handleManualAdd Roster.addEntry Roster.setTimeout
     Roster.setEntries Roster.setManualName Roster.setScanError
     Roster.setInfoMessage Roster.setJustScanned Roster.setDeviceIdRef
     Roster.setTimers Roster.setLocalStorage
     Roster.entries Roster.manualName Roster.scanError Roster.infoMessage
     Roster.justScanned Roster.deviceIdRef Roster.timers Roster.localStorage
     Attendance.getOrCreateDeviceId Attendance.readAttendance
     Attendance.writeAttendance Attendance.emptyStorage
     Attendance.attendanceList Attendance.storedDeviceId
     Attendance.selfAttemptedItem Attendance.addEntry
     fst snd negb].

(** * Properties *)

(** ** Strings and collation *)

Lemma jseqb_eq : forall a b, jseqb a b = true <-> a = b.
Proof.
  induction a as [|x a IH]; destruct b as [|y b]; simpl; split; intro H;
    try reflexivity; try discriminate.
  - apply andb_true_iff in H as [Hx Hr].
    apply N.eqb_eq in Hx. apply IH in Hr. now subst.
  - injection H as -> ->. rewrite N.eqb_refl. now apply IH.
Qed.

Lemma jseqb_refl : forall a, jseqb a a = true.
Proof. intro a. now apply jseqb_eq. Qed.

Lemma isEmpty_true : forall s, isEmpty s = true <-> s = [].
Proof. destruct s; simpl; split; congruence. Qed.

Lemma isEmpty_false : forall s, isEmpty s = false <-> s <> [].
Proof. destruct s; simpl; split; congruence. Qed.

Lemma compareUnits_refl : forall a, compareUnits a a = 0.
Proof.
  induction a as [|x a IH]; simpl; [reflexivity|].
  now rewrite N.compare_refl.
Qed.

Lemma compareUnits_eq : forall a b, compareUnits a b = 0 <-> a = b.
Proof.
  induction a as [|x a IH]; destruct b as [|y b]; simpl; split; intro H;
    try reflexivity; try discriminate.
  - destruct (N.compare_spec x y) as [->| |]; try discriminate.
    apply IH in H. now subst.
  - injection H as -> ->. rewrite N.compare_refl. now apply IH.
Qed.

Lemma compareUnits_antisym : forall a b, compareUnits b a = - compareUnits a b.
Proof.
  induction a as [|x a IH]; destruct b as [|y b]; simpl; try reflexivity.
  rewrite (N.compare_antisym x y).
  destruct (N.compare x y); simpl; auto.
Qed.

Lemma compareUnits_trans : forall a b c,
  compareUnits a b <= 0 -> compareUnits b c <= 0 -> compareUnits a c <= 0.
Proof.
  induction a as [|x a IH]; destruct b as [|y b]; destruct c as [|z c];
    simpl; intros Hab Hbc; try lia.
  destruct (N.compare_spec x y) as [->|Hxy|Hxy]; try lia.
  - destruct (N.compare_spec y z) as [->|Hyz|Hyz]; try lia.
    now apply IH with b.
  - destruct (N.compare_spec y z) as [->|Hyz|Hyz]; try lia.
    + destruct (N.compare_spec x z); try lia.
    + destruct (N.compare_spec x z); try lia.
Qed.

Lemma localeCompare_zero : forall sens a b,
  localeCompare sens a b = 0 <-> collationKey sens a = collationKey sens b.
Proof. intros. unfold localeCompare. apply compareUnits_eq. Qed.

Lemma localeCompare_refl : forall sens a, localeCompare sens a a = 0.
Proof. intros. now apply localeCompare_zero. Qed.

Lemma collationKey_Variant : forall s, collationKey Variant s = s.
Proof. intro s. unfold collationKey. simpl. apply map_id. Qed.

(** ** Number values *)

(** [String] of parsed numbers: integers beyond 2^53 are rounded, large
    and small values are printed with an exponent, overflow is Infinity,
    underflow is zero and falsy. *)
Lemma numberToString_examples :
  map (fun me => numberToString (fst me) (snd me))
    [(1234567890123456789, 0); (1, 400); (-1, 400); (1, 21); (1, 20); (1, -6);
     (1, -7); (5, -324); (1, -400); (1, 23); (435, -2); (-15, -1);
     (9007199254740993, 0); (17976931348623157, 292)]
  = map js
      ["1234567890123456800"; "Infinity"; "-Infinity"; "1e+21";
       "100000000000000000000"; "0.000001"; "1e-7"; "5e-324"; "0"; "1e+23";
       "4.35"; "-1.5"; "9007199254740992"; "1.7976931348623157e+308"]%string
  /\ map truthy [JNum 1 (-400); JNum 0 5; JNum 5 (-324); JNum (-1) 400]
     = [false; false; true; true].
Proof. split; vm_compute; reflexivity. Qed.

(** [String] of parsed arrays and objects; an own [toString] throws. *)
Lemma toString_examples :
  toString (JArr [JNum 1 0; JNull; JArr [JStr (js "a"); JObj []]; JBool true])
  = Some (js "1,,a,[object Object],true")
  /\ toString (JObj [(js "id", JNum 1 0)]) = Some (js "[object Object]")
  /\ toString (JObj [(js "toString", JStr (js "x"))]) = None
  /\ toString (JArr [JNum 1 0; JObj [(js "toString", JNull)]]) = None.
Proof. repeat split. Qed.

(** ** [JSON.parse] never runs out of fuel *)

Lemma skipWs_le : forall s, (List.length (skipWs s) <= List.length s)%nat.
Proof.
  induction s as [|c r IH]; simpl; [lia|].
  destruct (isJsonWs c); simpl; lia.
Qed.

Lemma parseChars_shorter_upto : forall n s,
  (List.length s <= n)%nat ->
  forall str rest, parseChars s = Some (str, rest) ->
                   (List.length rest < List.length s)%nat.
Proof.
  induction n as [|n IH]; intros s Hn str rest.
  - destruct s; [discriminate|simpl in Hn; lia].
  - destruct s as [|c r]; [discriminate|]. simpl in Hn. simpl parseChars.
    destruct (N.eqb c 34); [intro E; injection E as _ <-; simpl; lia|].
    destruct (N.eqb c 92).
    + destruct r as [|e r1]; [discriminate|].
      destruct (N.eqb e 117).
      * destruct r1 as [|h1 [|h2 [|h3 [|h4 r2]]]]; try discriminate.
        destruct (hex4 h1 h2 h3 h4); [|discriminate].
        destruct (parseChars r2) as [[str' rest']|] eqn:Hp; [|discriminate].
        intro E; injection E as _ <-.
        apply IH in Hp; simpl in *; lia.
      * destruct (simpleEscape e); [|discriminate].
        destruct (parseChars r1) as [[str' rest']|] eqn:Hp; [|discriminate].
        intro E; injection E as _ <-.
        apply IH in Hp; simpl in *; lia.
    + destruct (N.ltb c 32); [discriminate|].
      destruct (parseChars r) as [[str' rest']|] eqn:Hp; [|discriminate].
      intro E; injection E as _ <-.
      apply IH in Hp; simpl in *; lia.
Qed.

Lemma parseChars_shorter : forall s str rest,
  parseChars s = Some (str, rest) -> (List.length rest < List.length s)%nat.
Proof. intros s. now apply (parseChars_shorter_upto (List.length s)). Qed.

Lemma takeDigits_le : forall s,
  (List.length (snd (takeDigits s)) <= List.length s)%nat.
Proof.
  induction s as [|c r IH]; simpl; [lia|].
  destruct (isDigit c); [|simpl; lia].
  destruct (takeDigits r). simpl in *. lia.
Qed.

Lemma parseIntPart_shorter : forall s ip rest,
  parseIntPart s = Some (ip, rest) -> (List.length rest < List.length s)%nat.
Proof.
  intros [|c r] ip rest; simpl; [discriminate|].
  destruct (N.eqb c 48); [intro E; injection E as _ <-; lia|].
  destruct (isDigit c); [|discriminate].
  pose proof (takeDigits_le r). destruct (takeDigits r).
  intro E; injection E as _ <-. simpl in *. lia.
Qed.

Lemma parseFraction_le : forall s fp rest,
  parseFraction s = Some (fp, rest) -> (List.length rest <= List.length s)%nat.
Proof.
  intros [|c r] fp rest; simpl; [intro E; injection E as _ <-; simpl; lia|].
  destruct (N.eqb c 46); [|intro E; injection E as _ <-; simpl; lia].
  pose proof (takeDigits_le r). destruct (takeDigits r) as [[|d ds] rest'];
    [discriminate|].
  intro E; injection E as _ <-. simpl in *. lia.
Qed.

Lemma parseExponent_le : forall s ex rest,
  parseExponent s = Some (ex, rest) -> (List.length rest <= List.length s)%nat.
Proof.
  intros [|c r] ex rest; simpl; [intro E; injection E as _ <-; simpl; lia|].
  destruct (N.eqb c 101 || N.eqb c 69); [|intro E; injection E as _ <-; simpl; lia].
  destruct r as [|sg r'].
  - simpl. discriminate.
  - destruct (N.eqb sg 45); [|destruct (N.eqb sg 43)].
    + pose proof (takeDigits_le r'). destruct (takeDigits r') as [[|d ds] rest'];
        [discriminate|]. intro E; injection E as _ <-. simpl in *. lia.
    + pose proof (takeDigits_le r'). destruct (takeDigits r') as [[|d ds] rest'];
        [discriminate|]. intro E; injection E as _ <-. simpl in *. lia.
    + pose proof (takeDigits_le (sg :: r')).
      destruct (takeDigits (sg :: r')) as [[|d ds] rest'];
        [discriminate|]. intro E; injection E as _ <-. simpl in *. lia.
Qed.

Lemma parseNumber_shorter : forall s v rest,
  parseNumber s = POk v rest -> (List.length rest < List.length s)%nat.
Proof.
  intros s v rest. unfold parseNumber.
  set (p := match s with
            | c :: r => if N.eqb c 45 then (true, r) else (false, s)
            | [] => (false, s)
            end).
  assert (List.length (snd p) <= List.length s)%nat as Hp.
  { subst p. destruct s as [|c r]; [simpl; lia|].
    destruct (N.eqb c 45); simpl; lia. }
  destruct p as [neg s1]. simpl in Hp.
  destruct (parseIntPart s1) as [[ip s2]|] eqn:H1; [|discriminate].
  destruct (parseFraction s2) as [[fp s3]|] eqn:H2; [|discriminate].
  destruct (parseExponent s3) as [[ex s4]|] eqn:H3; [|discriminate].
  intro E; injection E as _ <-.
  apply parseIntPart_shorter in H1. apply parseFraction_le in H2.
  apply parseExponent_le in H3. lia.
Qed.

Lemma parseNumber_fuel : forall s, parseNumber s <> POutOfFuel.
Proof.
  intros s. unfold parseNumber.
  destruct (match s with
            | c :: r => if N.eqb c 45 then (true, r) else (false, s)
            | [] => (false, s)
            end) as [neg s1].
  destruct (parseIntPart s1) as [[ip s2]|]; [|discriminate].
  destruct (parseFraction s2) as [[fp s3]|]; [|discriminate].
  destruct (parseExponent s3) as [[ex s4]|]; discriminate.
Qed.

Lemma stripPrefix_length : forall pre s rest,
  stripPrefix pre s = Some rest ->
  (List.length rest + List.length pre = List.length s)%nat.
Proof.
  induction pre as [|p pre IH]; intros s rest; simpl.
  - intro E; injection E as <-. lia.
  - destruct s as [|c s']; [discriminate|].
    destruct (N.eqb p c); [|discriminate].
    intro E. apply IH in E. simpl. lia.
Qed.

Lemma parseLiteral_shorter : forall word v s v' rest,
  word <> EmptyString ->
  parseLiteral word v s = POk v' rest -> (List.length rest < List.length s)%nat.
Proof.
  intros word v s v' rest Hw. unfold parseLiteral.
  destruct (stripPrefix (js word) s) as [r|] eqn:Hs; [|discriminate].
  intro E; injection E as _ <-. apply stripPrefix_length in Hs.
  destruct word; [contradiction|]. simpl in Hs. lia.
Qed.

Lemma parseLiteral_fuel : forall word v s, parseLiteral word v s <> POutOfFuel.
Proof.
  intros. unfold parseLiteral. destruct (stripPrefix (js word) s); discriminate.
Qed.

(** What a successful parse leaves is shorter than what it was given. *)
Lemma parse_shorter : forall fuel,
  (forall s v r, parseValue fuel s = POk v r ->
                 (List.length r < List.length s)%nat)
  /\ (forall acc s v r, parseElements fuel acc s = POk v r ->
                        (List.length r < List.length s)%nat)
  /\ (forall acc s v r, parseMembers fuel acc s = POk v r ->
                        (List.length r < List.length s)%nat).
Proof.
  induction fuel as [|f [IHv [IHe IHm]]];
    [repeat split; intros; discriminate|].
  split; [|split].
  - intros s v r. simpl.
    pose proof (skipWs_le s) as Hs.
    destruct (skipWs s) as [|c r0]; [discriminate|]. simpl in Hs.
    destruct (N.eqb c 123).
    { pose proof (skipWs_le r0) as Hs0.
      destruct (skipWs r0) as [|c' r']; [discriminate|]. simpl in Hs0.
      destruct (N.eqb c' 125).
      - intro E; injection E as _ <-. lia.
      - intro E. apply IHm in E. lia. }
    destruct (N.eqb c 91).
    { pose proof (skipWs_le r0) as Hs0.
      destruct (skipWs r0) as [|c' r']; [discriminate|]. simpl in Hs0.
      destruct (N.eqb c' 93).
      - intro E; injection E as _ <-. lia.
      - intro E. apply IHe in E. lia. }
    destruct (N.eqb c 34).
    { destruct (parseChars r0) as [[str rest]|] eqn:Hp; [|discriminate].
      intro E; injection E as _ <-. apply parseChars_shorter in Hp. lia. }
    destruct (N.eqb c 116).
    { intro E. apply parseLiteral_shorter in E; [simpl in E; lia|discriminate]. }
    destruct (N.eqb c 102).
    { intro E. apply parseLiteral_shorter in E; [simpl in E; lia|discriminate]. }
    destruct (N.eqb c 110).
    { intro E. apply parseLiteral_shorter in E; [simpl in E; lia|discriminate]. }
    intro E. apply parseNumber_shorter in E. simpl in E. lia.
  - intros acc s v r. simpl.
    destruct (parseValue f s) as [v0 r0| |] eqn:Hv; try discriminate.
    apply IHv in Hv.
    pose proof (skipWs_le r0) as Hs0.
    destruct (skipWs r0) as [|c r']; [discriminate|]. simpl in Hs0.
    destruct (N.eqb c 44); [intro E; apply IHe in E; lia|].
    destruct (N.eqb c 93); [|discriminate].
    intro E; injection E as _ <-. lia.
  - intros acc s v r. simpl.
    pose proof (skipWs_le s) as Hs.
    destruct (skipWs s) as [|q r0]; [discriminate|]. simpl in Hs.
    destruct (N.eqb q 34); [|discriminate].
    destruct (parseChars r0) as [[key r1]|] eqn:Hp; [|discriminate].
    apply parseChars_shorter in Hp.
    pose proof (skipWs_le r1) as Hs1.
    destruct (skipWs r1) as [|colon r2]; [discriminate|]. simpl in Hs1.
    destruct (N.eqb colon 58); [|discriminate].
    destruct (parseValue f r2) as [v0 r3| |] eqn:Hv; try discriminate.
    apply IHv in Hv.
    pose proof (skipWs_le r3) as Hs3.
    destruct (skipWs r3) as [|c r']; [discriminate|]. simpl in Hs3.
    destruct (N.eqb c 44); [intro E; apply IHm in E; lia|].
    destruct (N.eqb c 125); [|discriminate].
    intro E; injection E as _ <-. lia.
Qed.

(** Two units of fuel for each code unit are enough. *)
Lemma parse_fuel : forall fuel,
  (forall s, (2 * List.length s + 1 <= fuel)%nat -> parseValue fuel s <> POutOfFuel)
  /\ (forall acc s, (2 * List.length s + 2 <= fuel)%nat ->
                    parseElements fuel acc s <> POutOfFuel)
  /\ (forall acc s, (2 * List.length s + 2 <= fuel)%nat ->
                    parseMembers fuel acc s <> POutOfFuel).
Proof.
  induction fuel as [|f [IHv [IHe IHm]]]; [repeat split; intros; lia|].
  split; [|split].
  - intros s Hf. simpl.
    pose proof (skipWs_le s) as Hs.
    destruct (skipWs s) as [|c r0]; [discriminate|]. simpl in Hs.
    destruct (N.eqb c 123).
    { pose proof (skipWs_le r0) as Hs0.
      destruct (skipWs r0) as [|c' r']; [discriminate|].
      destruct (N.eqb c' 125); [discriminate|]. apply IHm. lia. }
    destruct (N.eqb c 91).
    { pose proof (skipWs_le r0) as Hs0.
      destruct (skipWs r0) as [|c' r']; [discriminate|].
      destruct (N.eqb c' 93); [discriminate|]. apply IHe. lia. }
    destruct (N.eqb c 34).
    { destruct (parseChars r0) as [[str rest]|]; discriminate. }
    destruct (N.eqb c 116); [apply parseLiteral_fuel|].
    destruct (N.eqb c 102); [apply parseLiteral_fuel|].
    destruct (N.eqb c 110); [apply parseLiteral_fuel|].
    apply parseNumber_fuel.
  - intros acc s Hf. simpl.
    destruct (parseValue f s) as [v0 r0| |] eqn:Hv; try discriminate.
    + apply (proj1 (parse_shorter f)) in Hv.
      pose proof (skipWs_le r0) as Hs0.
      destruct (skipWs r0) as [|c r']; [discriminate|]. simpl in Hs0.
      destruct (N.eqb c 44); [apply IHe; lia|].
      destruct (N.eqb c 93); discriminate.
    + exfalso. revert Hv. apply IHv. lia.
  - intros acc s Hf. simpl.
    pose proof (skipWs_le s) as Hs.
    destruct (skipWs s) as [|q r0]; [discriminate|]. simpl in Hs.
    destruct (N.eqb q 34); [|discriminate].
    destruct (parseChars r0) as [[key r1]|] eqn:Hp; [|discriminate].
    apply parseChars_shorter in Hp.
    pose proof (skipWs_le r1) as Hs1.
    destruct (skipWs r1) as [|colon r2]; [discriminate|]. simpl in Hs1.
    destruct (N.eqb colon 58); [|discriminate].
    destruct (parseValue f r2) as [v0 r3| |] eqn:Hv; try discriminate.
    + apply (proj1 (parse_shorter f)) in Hv.
      pose proof (skipWs_le r3) as Hs3.
      destruct (skipWs r3) as [|c r']; [discriminate|]. simpl in Hs3.
      destruct (N.eqb c 44); [apply IHm; lia|].
      destruct (N.eqb c 125); discriminate.
    + exfalso. revert Hv. apply IHv. lia.
Qed.

(** The fuel [JSON_parse] gives is enough for every text: a [None] is a
    syntax error, never a lack of fuel. *)
Lemma parseValue_fuel : forall s,
  parseValue (2 * List.length s + 1) s <> POutOfFuel.
Proof. intro s. apply (proj1 (parse_fuel _)). lia. Qed.

(** ** De-duplication by name *)

Lemma nameExists_iff : forall entries nm,
  Attendance.nameExists entries nm = true <->
  exists e, In e entries /\ localeCompare Accent (Attendance.name e) nm = 0.
Proof.
  intros entries nm. unfold Attendance.nameExists. rewrite existsb_exists.
  split; intros [e [Hin He]]; exists e; split; auto; now apply Z.eqb_eq.
Qed.

Lemma addEntry_outcome_cases : forall dev now nameRaw entries,
  Attendance.addEntry dev now nameRaw entries =
    if isEmpty (trim nameRaw) then (entries, Attendance.InvalidName)
    else if Attendance.nameExists entries (trim nameRaw)
         then (entries, Attendance.DuplicateName)
         else (Attendance.mkEntry (trim nameRaw) dev (toISOString now) :: entries,
               Attendance.Accepted
                 (Attendance.mkEntry (trim nameRaw) dev (toISOString now))).
Proof. reflexivity. Qed.




(** ** [trim] *)

Lemma trimStart_nil_iff : forall s,
  trimStart s = [] <-> forallb isWhiteSpace s = true.
Proof.
  induction s as [|c r IH]; simpl; [tauto|].
  destruct (isWhiteSpace c); simpl; [exact IH|].
  split; discriminate.
Qed.

Lemma trimStart_head : forall s c r,
  trimStart s = c :: r -> isWhiteSpace c = false.
Proof.
  induction s as [|x s IH]; simpl; intros c r H; [discriminate|].
  destruct (isWhiteSpace x) eqn:Hx; [now apply IH with r|].
  injection H as -> _. assumption.
Qed.

Lemma trim_nil_iff : forall s, trim s = [] <-> forallb isWhiteSpace s = true.
Proof.
  intro s. unfold trim, trimEnd. split; intro H.
  - destruct (trimStart s) as [|c r] eqn:Hs; [now apply trimStart_nil_iff|].
    exfalso. apply (f_equal (@rev N)) in H. rewrite rev_involutive in H.
    simpl in H. apply trimStart_nil_iff in H.
    rewrite forallb_app in H. apply andb_true_iff in H as [_ Hc].
    simpl in Hc. rewrite andb_true_r in Hc.
    apply trimStart_head in Hs. congruence.
  - apply trimStart_nil_iff in H. now rewrite H.
Qed.

Lemma trim_join_blank : forall a b,
  trim a = [] -> trim b = [] -> trim (a ++ js " " ++ b) = [].
Proof.
  intros a b Ha Hb. apply trim_nil_iff in Ha, Hb. apply trim_nil_iff.
  rewrite !forallb_app, Ha, Hb. reflexivity.
Qed.

(** ** The name a payload decodes to *)

Lemma getMember_hasOwnProperty : forall parsed key v,
  getMember parsed key = Some v -> hasOwnProperty parsed key = Some true.
Proof.
  intros parsed key v H. destruct parsed; simpl in *; try discriminate.
  now rewrite H.
Qed.

(** When no key of the list gave a name, every string among them is blank. *)
Lemma scanNameKeys_none : forall parsed keys,
  ScanLog.scanNameKeys parsed keys = Some None ->
  forall key str, In key keys -> getMember parsed key = Some (JStr str) ->
                  trim str = [].
Proof.
  induction keys as [|k keys IH]; simpl; intros H key str Hin Hget; [contradiction|].
  destruct Hin as [->|Hin].
  - rewrite (getMember_hasOwnProperty _ _ _ Hget), Hget in H.
    destruct (isEmpty (trim str)) eqn:He; [now apply isEmpty_true|discriminate].
  - destruct (hasOwnProperty parsed k) as [[|]|]; try discriminate;
      [|now apply IH with key].
    destruct (getMember parsed k) as [[| | |v| |]|]; try now apply IH with key.
    destruct (isEmpty (trim v)); [now apply IH with key|discriminate].
Qed.

Lemma scanNameKeys_some_nonempty : forall parsed keys n,
  ScanLog.scanNameKeys parsed keys = Some (Some n) -> isEmpty n = false.
Proof.
  induction keys as [|k keys IH]; simpl; intros n H; [discriminate|].
  destruct (hasOwnProperty parsed k) as [[|]|]; try discriminate; [|now apply IH].
  destruct (getMember parsed k) as [[| | |v| |]|]; try now apply IH.
  destruct (isEmpty (trim v)) eqn:He; [now apply IH|].
  injection H as <-. assumption.
Qed.

(** The combining step never changes the result of the key scan. *)
Lemma combineFirstLast_dead : forall parsed found,
  ScanLog.scanNameKeys parsed ScanLog.nameCandidateKeys = Some found ->
  ScanLog.combineFirstLast parsed found = found.
Proof.
  intros parsed found H. unfold ScanLog.combineFirstLast.
  destruct found as [n|].
  - now rewrite (scanNameKeys_some_nonempty _ _ _ H).
  - destruct (getMember parsed (js "firstName")) as [[| | |first| |]|] eqn:Hf;
      try reflexivity.
    destruct (getMember parsed (js "lastName")) as [[| | |last| |]|] eqn:Hl;
      try reflexivity.
    rewrite trim_join_blank; [reflexivity| |].
    + apply (scanNameKeys_none _ _ H (js "firstName")); [|assumption].
      unfold ScanLog.nameCandidateKeys. simpl. tauto.
    + apply (scanNameKeys_none _ _ H (js "lastName")); [|assumption].
      unfold ScanLog.nameCandidateKeys. simpl. tauto.
Qed.

(** C3, what the code does.  The payload with [firstName] "Ann" and
    [lastName] "Lee" decodes to the name "Ann": [firstName] and [lastName]
    are the last two keys of the scanned list, so the scan stops at
    [firstName].  For every parsed value the step that joins [firstName]
    and [lastName] leaves the result of the key scan as it is, so it never
    supplies a name; for every payload the decoded name is the result of
    the key scan alone when the [try] block completes, and [null] when the
    text is no JSON or the block throws (on [null], or in [String] of a
    nested id that has an own [toString], as in the last payload). *)
Theorem decode_firstName_lastName_yields_firstName :
  ScanLog.p_name
    (ScanLog.parseDeviceIdFromQrPayload (jsq "{'firstName':'Ann','lastName':'Lee'}"))
  = Some (js "Ann")
  /\ (forall parsed,
        match ScanLog.scanNameKeys parsed ScanLog.nameCandidateKeys with
        | Some found => ScanLog.combineFirstLast parsed found = found
        | None => True
        end)
  /\ (forall payload,
        ScanLog.p_name (ScanLog.parseDeviceIdFromQrPayload payload) =
        match JSON_parse (trim payload) with
        | Some parsed =>
            match ScanLog.scanNameKeys parsed ScanLog.nameCandidateKeys,
                  ScanLog.scanDeviceKeys parsed ScanLog.candidateKeys with
            | Some found, Some _ => found
            | _, _ => None
            end
        | None => None
        end)
  /\ ScanLog.parseDeviceIdFromQrPayload
       (jsq "{'name':'Ann','device':{'id':{'toString':'x'}}}")
     = ScanLog.mkParsed (jsq "{'name':'Ann','device':{'id':{'toString':'x'}}}")
         None None.
Proof.
  split; [vm_compute; reflexivity|]. split; [|split; [|vm_compute; reflexivity]].
  - intro parsed.
    destruct (ScanLog.scanNameKeys parsed ScanLog.nameCandidateKeys) as [found|] eqn:Hs;
      [|exact I].
    now apply combineFirstLast_dead.
  - intro payload. unfold ScanLog.parseDeviceIdFromQrPayload.
    destruct (JSON_parse (trim payload)) as [parsed|]; [|reflexivity].
    unfold ScanLog.parseParsed.
    destruct (ScanLog.scanNameKeys parsed ScanLog.nameCandidateKeys) as [found|] eqn:Hs;
      [|reflexivity].
    rewrite (combineFirstLast_dead _ _ Hs).
    destruct (ScanLog.scanDeviceKeys parsed ScanLog.candidateKeys) as [[id|]|];
      try reflexivity.
    destruct (ScanLog.scanIdLikeEntries (Object_entries parsed)); reflexivity.
Qed.

(** ** The stable sort *)

Section SortFacts.
Context {A : Type} (cmp : A -> A -> Z).
Hypothesis cmp_antisym : forall a b, cmp b a = - cmp a b.
Hypothesis cmp_trans : forall a b c, cmp a b <= 0 -> cmp b c <= 0 -> cmp a c <= 0.

Lemma insertBy_perm : forall x l, Permutation (x :: l) (insertBy cmp x l).
Proof.
  intros x l. induction l as [|y r IH]; simpl; [apply Permutation_refl|].
  destruct (0 <? cmp x y); [|apply Permutation_refl].
  apply perm_trans with (y :: x :: r); [apply perm_swap|].
  now apply perm_skip.
Qed.

Lemma Array_sort_perm : forall l, Permutation l (Array_sort cmp l).
Proof.
  induction l as [|x l IH]; simpl; [apply perm_nil|].
  apply perm_trans with (x :: Array_sort cmp l); [now apply perm_skip|].
  apply insertBy_perm.
Qed.

Lemma insertBy_sorted : forall x l,
  StronglySorted (fun a b => cmp a b <= 0) l ->
  StronglySorted (fun a b => cmp a b <= 0) (insertBy cmp x l).
Proof.
  intros x l Hs. induction Hs as [|y r Hr IH Hy]; simpl.
  - constructor; constructor.
  - destruct (0 <? cmp x y) eqn:Hxy.
    + apply Z.ltb_lt in Hxy. constructor; [assumption|].
      rewrite Forall_forall in *. intros z Hz.
      apply Permutation_in with (l' := x :: r) in Hz;
        [|apply Permutation_sym, insertBy_perm].
      destruct Hz as [<-|Hz]; [|now apply Hy].
      rewrite cmp_antisym. lia.
    + apply Z.ltb_ge in Hxy. constructor; [now constructor|].
      constructor; [assumption|].
      rewrite Forall_forall in *. intros z Hz.
      apply cmp_trans with y; [assumption|now apply Hy].
Qed.

Lemma Array_sort_sorted : forall l,
  StronglySorted (fun a b => cmp a b <= 0) (Array_sort cmp l).
Proof.
  induction l as [|x l IH]; simpl; [constructor|now apply insertBy_sorted].
Qed.

(** Elements the comparator does not tell apart keep their order: a class
    [p] of such elements is met in the result in the order of the array. *)
Lemma insertBy_filter : forall (p : A -> bool),
  (forall a b, p a = true -> p b = true -> cmp a b <= 0) ->
  forall x l, filter p (insertBy cmp x l) = filter p (x :: l).
Proof.
  intros p Hp x l. induction l as [|y r IH]; [reflexivity|].
  simpl insertBy. destruct (0 <? cmp x y) eqn:Hxy; [|reflexivity].
  apply Z.ltb_lt in Hxy.
  change (filter p (y :: insertBy cmp x r)) with
    (if p y then y :: filter p (insertBy cmp x r) else filter p (insertBy cmp x r)).
  rewrite IH. simpl.
  destruct (p y) eqn:Hy; [|reflexivity].
  destruct (p x) eqn:Hx; [|reflexivity].
  specialize (Hp x y Hx Hy). lia.
Qed.

Lemma Array_sort_stable : forall (p : A -> bool),
  (forall a b, p a = true -> p b = true -> cmp a b <= 0) ->
  forall l, filter p (Array_sort cmp l) = filter p l.
Proof.
  intros p Hp l. induction l as [|x l IH]; [reflexivity|].
  simpl Array_sort. rewrite insertBy_filter by assumption.
  simpl. now rewrite IH.
Qed.

End SortFacts.

Lemma byTimestampDesc_units : forall a b,
  Attendance.byTimestampDesc a b =
  compareUnits (Attendance.timestamp b) (Attendance.timestamp a).
Proof.
  intros. unfold Attendance.byTimestampDesc, localeCompare.
  now rewrite !collationKey_Variant.
Qed.

Lemma byTimestampDesc_antisym : forall a b,
  Attendance.byTimestampDesc b a = - Attendance.byTimestampDesc a b.
Proof. intros. rewrite !byTimestampDesc_units. apply compareUnits_antisym. Qed.

Lemma byTimestampDesc_trans : forall a b c,
  Attendance.byTimestampDesc a b <= 0 -> Attendance.byTimestampDesc b c <= 0 ->
  Attendance.byTimestampDesc a c <= 0.
Proof.
  intros a b c. rewrite !byTimestampDesc_units. intros H1 H2.
  now apply compareUnits_trans with (Attendance.timestamp b).
Qed.

Lemma stampedAt_same : forall t a b,
  Attendance.stampedAt t a = true -> Attendance.stampedAt t b = true -> Attendance.byTimestampDesc a b <= 0.
Proof.
  intros t a b Ha Hb. unfold Attendance.stampedAt in *.
  apply jseqb_eq in Ha, Hb. rewrite byTimestampDesc_units, Ha, Hb.
  rewrite compareUnits_refl. lia.
Qed.

(** C7.  For every list of entries, [sortedEntries] is a rearrangement of
    it in which no record is followed by one with a greater timestamp, and
    the records that share a timestamp come in the order they have in
    [entries].  [addEntry] puts each new record in front of [entries], so
    among the records that share its timestamp the one inserted last comes
    first. *)
Theorem sortedEntries_descending_stable :
  forall entries : list Attendance.AttendanceEntry,
    Permutation entries (Attendance.sortedEntries entries)
    /\ StronglySorted
         (fun a b => localeCompare Variant (Attendance.timestamp b)
                       (Attendance.timestamp a) <= 0)
         (Attendance.sortedEntries entries)
    /\ (forall t, filter (Attendance.stampedAt t) (Attendance.sortedEntries entries)
                  = filter (Attendance.stampedAt t) entries)
    /\ (forall dev now nameRaw,
          let updated := fst (Attendance.addEntry dev now nameRaw entries) in
          updated = entries
          \/ exists e, updated = e :: entries
               /\ filter (Attendance.stampedAt (Attendance.timestamp e))
                    (Attendance.sortedEntries updated)
                  = e :: filter (Attendance.stampedAt (Attendance.timestamp e))
                         (Attendance.sortedEntries entries)).
Proof.
  intro entries.
  assert (forall l t, filter (Attendance.stampedAt t) (Attendance.sortedEntries l)
                      = filter (Attendance.stampedAt t) l) as Hstable.
  { intros l t. apply Array_sort_stable. apply stampedAt_same. }
  split; [|split; [|split]].
  - apply Array_sort_perm.
  - apply (Array_sort_sorted Attendance.byTimestampDesc);
      [apply byTimestampDesc_antisym|apply byTimestampDesc_trans].
  - apply Hstable.
  - intros dev now nameRaw updated. subst updated.
    rewrite addEntry_outcome_cases.
    destruct (isEmpty (trim nameRaw)); [now left|].
    destruct (Attendance.nameExists entries (trim nameRaw)); [now left|].
    right. eexists. split; [reflexivity|].
    rewrite !Hstable. simpl filter at 1.
    unfold Attendance.stampedAt at 1. simpl. now rewrite jseqb_refl.
Qed.

(** ** The page with the lock: mode and lock *)

Lemma addEntry_cases : forall now nameRaw s,
  Gate.addEntry now nameRaw s =
    if isEmpty (trim nameRaw) then (s, Attendance.InvalidName)
    else if Attendance.nameExists (Gate.entries s) (trim nameRaw)
         then (s, Attendance.DuplicateName)
         else
           let e := Attendance.mkEntry (trim nameRaw) (Gate.deviceIdRef s)
                      (toISOString now) in
           (Gate.setLocalStorage
              (Attendance.writeAttendance (e :: Gate.entries s) (Gate.localStorage s))
              (Gate.setEntries (e :: Gate.entries s) s),
            Attendance.Accepted e).
Proof.
  intros. unfold Gate.addEntry. rewrite addEntry_outcome_cases.
  destruct (isEmpty (trim nameRaw)); [reflexivity|].
  destruct (Attendance.nameExists (Gate.entries s) (trim nameRaw)); reflexivity.
Qed.

Lemma forceSelfMode_locked : forall s,
  Gate.organizerUnlocked (Gate.forceSelfMode s) = false ->
  Gate.mode (Gate.forceSelfMode s) = Gate.self.
Proof.
  intros s. unfold Gate.forceSelfMode.
  destruct (Gate.organizerUnlocked s) eqn:Hu, (Gate.mode s) eqn:Hm; simpl;
    congruence.
Qed.

Lemma reachable_is_forced : forall pin s,
  Gate.reachable pin s -> exists s0, s = Gate.forceSelfMode s0.
Proof.
  intros pin s H. destruct H as [fresh ls|s ev _].
  - eexists. reflexivity.
  - unfold Gate.step. destruct (Gate.dispatch pin ev s) as [s' o].
    eexists. reflexivity.
Qed.

Lemma run_fst_cons : forall pin ev evs s,
  fst (Gate.run pin (ev :: evs) s) = fst (Gate.run pin evs (fst (Gate.step pin ev s))).
Proof.
  intros. simpl. destruct (Gate.step pin ev s) as [s1 o]. simpl.
  destruct (Gate.run pin evs s1). reflexivity.
Qed.

Lemma reachable_run : forall pin evs s,
  Gate.reachable pin s -> Gate.reachable pin (fst (Gate.run pin evs s)).
Proof.
  induction evs as [|ev evs IH]; intros s H; [exact H|].
  rewrite run_fst_cons. apply IH. now apply Gate.reach_step.
Qed.

(** C8, as the code has it.  Once the page is mounted (its effects have
    run, no event yet) the lock is engaged and the mode is [self]; in every
    state reached from there, a lock that is not open means mode [self],
    and mode [scanner] means the lock is open.  The state of the first
    render, before its effects, is not such a state: its mode is [scanner]
    under an engaged lock, and it is the mode-forcing effect, which
    establishes the invariant on whatever state it runs, that puts the page
    in mode [self]. *)
Theorem mode_lock_invariant :
  (forall fresh ls,
      Gate.organizerUnlocked (Gate.mount fresh ls) = false
      /\ Gate.mode (Gate.mount fresh ls) = Gate.self)
  /\ (forall pin s, Gate.reachable pin s ->
       (Gate.organizerUnlocked s = false -> Gate.mode s = Gate.self)
       /\ (Gate.mode s = Gate.scanner -> Gate.organizerUnlocked s = true))
  /\ (forall ls,
        Gate.mode (Gate.initialState ls) = Gate.scanner
        /\ Gate.organizerUnlocked (Gate.initialState ls) = false
        /\ Gate.mode (Gate.forceSelfMode (Gate.initialState ls)) = Gate.self)
  /\ (forall s,
        Gate.organizerUnlocked (Gate.forceSelfMode s) = false ->
        Gate.mode (Gate.forceSelfMode s) = Gate.self).
Proof.
  split; [|split; [|split]].
  - intros fresh ls. unfold Gate.mount, Gate.mountEffect.
    destruct (Attendance.getOrCreateDeviceId fresh
                (Gate.localStorage (Gate.initialState ls))) as [id ls'].
    split; reflexivity.
  - intros pin s H. destruct (reachable_is_forced _ _ H) as [s0 ->].
    assert (Gate.organizerUnlocked (Gate.forceSelfMode s0) = false ->
            Gate.mode (Gate.forceSelfMode s0) = Gate.self) as Hinv
      by apply forceSelfMode_locked.
    split; [assumption|].
    intro Hm. destruct (Gate.organizerUnlocked (Gate.forceSelfMode s0));
      [reflexivity|]. rewrite Hinv in Hm by reflexivity. discriminate.
  - intro ls. repeat split.
  - apply forceSelfMode_locked.
Qed.

(** The invariant at work: a state reached by a wrong PIN followed by a
    click on the scanner-mode radio. *)
Lemma mode_lock_invariant_witness :
  let s := fst (Gate.run None
                  [Gate.TypePin (js "0000"); Gate.ClickUnlock;
                   Gate.SelectMode Gate.scanner]
                  (Gate.mount (js "dev-1") Attendance.emptyStorage)) in
  Gate.reachable None s /\ Gate.organizerUnlocked s = false /\ Gate.mode s = Gate.self.
Proof.
  intro s.
  assert (Gate.reachable None s) as Hr.
  { subst s. apply reachable_run. apply Gate.reach_mount. }
  split; [exact Hr|]. split; [reflexivity|].
  apply (proj1 (proj1 (proj2 mode_lock_invariant) None s Hr)). reflexivity.
Defined.

(** C8 as the specification words it fails: the initial state, before any
    user action, is the state of the first render.  There the lock is
    engaged and the mode is [scanner]; a scan handled in that state takes
    the scanner branch and is refused as locked, where mode [self] would
    have confirmed a self check-in. *)
Lemma initial_state_scanner_under_lock :
  let s := Gate.initialState Attendance.emptyStorage in
  Gate.organizerUnlocked s = false
  /\ Gate.mode s = Gate.scanner
  /\ Gate.mode s <> Gate.self
  /\ snd (Gate.handleDecode 1000 (js "Ann") s) = Gate.Locked
  /\ snd (Gate.handleDecode 1000 (js "Ann") (Gate.forceSelfMode s)) = Gate.SelfConfirmed.
Proof.
  vm_compute. repeat split; discriminate.
Qed.

(** ** Self check-in *)

(** [handleDecode] in mode [self], return by return. *)
Lemma handleDecode_self : forall now result s,
  Gate.mode s = Gate.self ->
  Gate.handleDecode now result s =
    if Gate.justScanned s then (s, Gate.Debounced)
    else
      let s0 := Gate.setInfoMessage None
                  (Gate.setScanError None
                     (Gate.setTimeout now 1200 (Gate.setJustScanned true s))) in
      if Gate.selfAttempted s then
        (Gate.setScanError
           (Some (js "You have already checked in from this device.")) s0,
         Gate.AlreadyCheckedIn)
      else
        (Gate.setInfoMessage
           (Some (js "Check-in recorded on this device. Please show your QR to the organizer."))
           (Gate.setSelfAttempted true
              (Gate.setLocalStorage
                 (Attendance.mkStorage
                    (Attendance.attendanceList (Gate.localStorage s))
                    (Attendance.storedDeviceId (Gate.localStorage s))
                    (Some (js "true"))) s0)),
         Gate.SelfConfirmed).
Proof.
  intros now result s Hm. unfold Gate.handleDecode.
  destruct (Gate.justScanned s); [reflexivity|].
  cbn [Gate.mode Gate.setInfoMessage Gate.setScanError Gate.setTimeout
       Gate.setTimers Gate.setJustScanned].
  rewrite Hm. reflexivity.
Qed.

(** C10.  In mode [self], [handleDecode] does the same for every two
    texts: same return, same next state.  Whatever the text, a scan that
    meets an unused attempt (and is not debounced) uses it up. *)
Theorem self_scan_ignores_payload : forall now raw1 raw2 s,
  Gate.mode s = Gate.self ->
  Gate.handleDecode now raw1 s = Gate.handleDecode now raw2 s
  /\ (Gate.justScanned s = false -> Gate.selfAttempted s = false ->
      snd (Gate.handleDecode now raw1 s) = Gate.SelfConfirmed
      /\ Gate.selfAttempted (fst (Gate.handleDecode now raw1 s)) = true).
Proof.
  intros now raw1 raw2 s Hm. split.
  - now rewrite !handleDecode_self.
  - intros Hj Ha. rewrite handleDecode_self by assumption.
    rewrite Hj, Ha. split; reflexivity.
Qed.

(** Two unlike texts, the empty one and one that is no JSON, on a freshly
    mounted page. *)
Lemma self_scan_ignores_payload_witness :
  let s := Gate.mount (js "dev-1") Attendance.emptyStorage in
  Gate.mode s = Gate.self
  /\ Gate.handleDecode 5000 [] s = Gate.handleDecode 5000 (js "%%garbage") s
  /\ snd (Gate.handleDecode 5000 [] s) = Gate.SelfConfirmed.
Proof.
  intro s.
  pose proof (self_scan_ignores_payload 5000 [] (js "%%garbage") s eq_refl) as [H1 H2].
  split; [reflexivity|]. split; [exact H1|].
  exact (proj1 (H2 eq_refl eq_refl)).
Defined.

Lemma getOrCreateDeviceId_selfAttemptedItem : forall fresh ls,
  Attendance.selfAttemptedItem (snd (Attendance.getOrCreateDeviceId fresh ls))
  = Attendance.selfAttemptedItem ls.
Proof.
  intros fresh ls. unfold Attendance.getOrCreateDeviceId.
  destruct (Attendance.storedDeviceId ls) as [id|]; [|reflexivity].
  destruct (isEmpty id); reflexivity.
Qed.

Lemma forceSelfMode_attemptUsed : forall s,
  attemptUsed s -> attemptUsed (Gate.forceSelfMode s).
Proof.
  intros s H. unfold Gate.forceSelfMode. break_if; [|assumption].
  exact H.
Qed.

Lemma handleDecode_attemptUsed : forall now result s,
  attemptUsed s -> attemptUsed (fst (Gate.handleDecode now result s)).
Proof.
  intros now result s [Ha Hi]. unfold Gate.handleDecode, attemptUsed.
  rewrite addEntry_cases.
  destruct s; simpl in *; subst.
  repeat break_if; simpl; auto.
Qed.

Lemma handleManualAdd_attemptUsed : forall now s,
  attemptUsed s -> attemptUsed (fst (Gate.handleManualAdd now s)).
Proof.
  intros now s [Ha Hi]. unfold Gate.handleManualAdd, attemptUsed.
  rewrite addEntry_cases.
  destruct s; simpl in *; subst.
  repeat break_if; simpl; auto.
Qed.

Lemma dispatch_attemptUsed : forall pin ev s,
  attemptUsed s -> attemptUsed (fst (Gate.dispatch pin ev s)).
Proof.
  intros pin ev s H. destruct ev; simpl.
  - destruct (isEmpty rawValue); [assumption|].
    pose proof (handleDecode_attemptUsed now rawValue s H).
    destruct (Gate.handleDecode now rawValue s). assumption.
  - destruct (Attendance.fireTimer now (Gate.timers s)); exact H.
  - exact H.
  - destruct (Gate.organizerUnlocked s); [|assumption].
    pose proof (handleManualAdd_attemptUsed now s H).
    destruct (Gate.handleManualAdd now s). assumption.
  - destruct (Gate.organizerUnlocked s); exact H.
  - destruct (Gate.organizerUnlocked s); [assumption|].
    unfold Gate.clickUnlock. break_if; exact H.
  - destruct m; [|exact H]. destruct (Gate.organizerUnlocked s); exact H.
  - destruct (Gate.organizerUnlocked s); exact H.
  - destruct H as [Ha Hi]. unfold Gate.mountEffect, attemptUsed.
    pose proof (getOrCreateDeviceId_selfAttemptedItem fresh (Gate.localStorage s)) as Hg.
    simpl. destruct (Attendance.getOrCreateDeviceId fresh (Gate.localStorage s)) as [id ls'].
    simpl in *. rewrite Hg, Hi. split; reflexivity.
Qed.

Lemma step_attemptUsed : forall pin ev s,
  attemptUsed s -> attemptUsed (fst (Gate.step pin ev s)).
Proof.
  intros pin ev s H. unfold Gate.step.
  pose proof (dispatch_attemptUsed pin ev s H) as Hd.
  destruct (Gate.dispatch pin ev s) as [s' o]. simpl in *.
  now apply forceSelfMode_attemptUsed.
Qed.

Lemma run_attemptUsed : forall pin evs s,
  attemptUsed s -> attemptUsed (fst (Gate.run pin evs s)).
Proof.
  induction evs as [|ev evs IH]; intros s H; [exact H|].
  rewrite run_fst_cons. apply IH. now apply step_attemptUsed.
Qed.

(** A scan in mode [self] leaves the list and its stored copy alone. *)
Lemma handleDecode_self_ledger : forall now result s,
  Gate.mode s = Gate.self ->
  Gate.entries (fst (Gate.handleDecode now result s)) = Gate.entries s
  /\ Attendance.attendanceList (Gate.localStorage (fst (Gate.handleDecode now result s)))
     = Attendance.attendanceList (Gate.localStorage s).
Proof.
  intros now result s Hm. rewrite handleDecode_self by assumption.
  destruct (Gate.justScanned s); [split; reflexivity|].
  destruct (Gate.selfAttempted s); split; reflexivity.
Qed.

(** C4, as the code has it.  In mode [self], a scan that is not debounced
    and meets an unused attempt is confirmed and sets the flag.  After it,
    whatever events follow (a reload of the page included), every scan in
    mode [self] that is not debounced is rejected as already checked in; a
    debounced one returns at once and changes nothing.  No scan in mode
    [self] changes the attendance list or its stored copy. *)
Theorem self_checkin_single_attempt : forall pin now raw s,
  Gate.mode s = Gate.self ->
  Gate.justScanned s = false ->
  Gate.selfAttempted s = false ->
  let s1 := fst (Gate.handleDecode now raw s) in
  snd (Gate.handleDecode now raw s) = Gate.SelfConfirmed
  /\ Gate.selfAttempted s1 = true
  /\ (forall evs now' raw',
        let s2 := fst (Gate.run pin evs s1) in
        Gate.mode s2 = Gate.self ->
        Gate.selfAttempted s2 = true
        /\ (Gate.justScanned s2 = false ->
            snd (Gate.handleDecode now' raw' s2) = Gate.AlreadyCheckedIn)
        /\ (Gate.justScanned s2 = true ->
            Gate.handleDecode now' raw' s2 = (s2, Gate.Debounced)))
  /\ (forall now' raw' s',
        Gate.mode s' = Gate.self ->
        Gate.entries (fst (Gate.handleDecode now' raw' s')) = Gate.entries s'
        /\ Attendance.attendanceList
             (Gate.localStorage (fst (Gate.handleDecode now' raw' s')))
           = Attendance.attendanceList (Gate.localStorage s')).
Proof.
  intros pin now raw s Hm Hj Ha s1.
  assert (attemptUsed s1) as Hused.
  { subst s1. rewrite handleDecode_self by assumption. rewrite Hj, Ha.
    split; reflexivity. }
  split; [|split; [|split]].
  - rewrite handleDecode_self by assumption. now rewrite Hj, Ha.
  - apply Hused.
  - intros evs now' raw' s2 Hm2.
    pose proof (run_attemptUsed pin evs s1 Hused) as [Ha2 _]. fold s2 in Ha2.
    split; [assumption|]. split; intro Hj2.
    + rewrite handleDecode_self by assumption. now rewrite Hj2, Ha2.
    + rewrite handleDecode_self by assumption. now rewrite Hj2.
  - intros now' raw' s' Hm'. now apply handleDecode_self_ledger.
Qed.

(** A first scan on a freshly mounted page, then the timer, a reload and a
    second scan. *)
Lemma self_checkin_single_attempt_witness :
  let s := Gate.mount (js "dev-1") Attendance.emptyStorage in
  let s1 := fst (Gate.handleDecode 1000 (js "Ann") s) in
  let s2 := fst (Gate.run None [Gate.TimerFires 2200; Gate.Reload (js "dev-2")] s1) in
  (Gate.mode s = Gate.self /\ Gate.justScanned s = false /\ Gate.selfAttempted s = false)
  /\ snd (Gate.handleDecode 1000 (js "Ann") s) = Gate.SelfConfirmed
  /\ (Gate.mode s2 = Gate.self /\ Gate.justScanned s2 = false)
  /\ snd (Gate.handleDecode 9000 (js "Bob") s2) = Gate.AlreadyCheckedIn
  /\ Gate.entries (fst (Gate.handleDecode 9000 (js "Bob") s2)) = Gate.entries s2.
Proof.
  intros s s1 s2.
  pose proof (self_checkin_single_attempt None 1000 (js "Ann") s
                eq_refl eq_refl eq_refl) as [H1 [_ [H3 H4]]].
  split; [repeat split|]. split; [exact H1|]. split; [split; reflexivity|].
  split.
  - exact (proj1 (proj2 (H3 [Gate.TimerFires 2200; Gate.Reload (js "dev-2")]
                           9000 (js "Bob") eq_refl)) eq_refl).
  - exact (proj1 (H4 9000 (js "Bob") s2 eq_refl)).
Defined.

(** C4 as the specification words it fails.  After the confirmed scan of
    "Ann", a scan of another text, "Bob", that arrives while [justScanned]
    is still set (here 100 ms later) is dropped by the debounce: it gets no
    "already checked in" rejection and no message at all.  The same text
    once the timer has run is rejected. *)
Lemma self_second_scan_debounced :
  let s := Gate.mount (js "dev-1") Attendance.emptyStorage in
  let '(s1, o1) := Gate.step None (Gate.Scan 1000 (js "Ann")) s in
  let '(s2, o2) := Gate.step None (Gate.Scan 1100 (js "Bob")) s1 in
  let '(s3, o3) :=
    Gate.step None (Gate.Scan 2300 (js "Bob"))
      (fst (Gate.step None (Gate.TimerFires 2200) s2)) in
  Gate.mode s1 = Gate.self
  /\ o1 = Some Gate.SelfConfirmed
  /\ o2 = Some Gate.Debounced
  /\ o2 <> Some Gate.AlreadyCheckedIn
  /\ s2 = s1
  /\ Gate.scanError s2 = None
  /\ o3 = Some Gate.AlreadyCheckedIn.
Proof.
  vm_compute. repeat split; discriminate.
Qed.

(** ** The lock *)

(** C5, as the code has it.  While the lock is engaged, no call of
    [handleDecode] or [handleManualAdd] changes the attendance list or its
    stored copy, in either mode.  A scan in mode [scanner] that is not
    debounced leaves through the "locked" return, a debounced one returns
    at once; a manual entry leaves through the "locked" return when the
    typed name is not blank, whatever the mode, and returns at once when it
    is blank. *)
Theorem locked_handlers_leave_ledger : forall now s,
  Gate.organizerUnlocked s = false ->
  (forall result,
      Gate.entries (fst (Gate.handleDecode now result s)) = Gate.entries s
      /\ Attendance.attendanceList (Gate.localStorage (fst (Gate.handleDecode now result s)))
         = Attendance.attendanceList (Gate.localStorage s)
      /\ (Gate.mode s = Gate.scanner -> Gate.justScanned s = false ->
          snd (Gate.handleDecode now result s) = Gate.Locked
          /\ Gate.scanError (fst (Gate.handleDecode now result s))
             = Some Gate.lockedMessage)
      /\ (Gate.justScanned s = true ->
          Gate.handleDecode now result s = (s, Gate.Debounced)))
  /\ Gate.entries (fst (Gate.handleManualAdd now s)) = Gate.entries s
  /\ Attendance.attendanceList (Gate.localStorage (fst (Gate.handleManualAdd now s)))
     = Attendance.attendanceList (Gate.localStorage s)
  /\ (trim (Gate.manualName s) <> [] ->
      snd (Gate.handleManualAdd now s) = Gate.Locked
      /\ Gate.scanError (fst (Gate.handleManualAdd now s)) = Some Gate.lockedMessage)
  /\ (trim (Gate.manualName s) = [] ->
      Gate.handleManualAdd now s = (s, Gate.BlankManualName)).
Proof.
  intros now s Hu.
  assert (forall result,
             Gate.mode s = Gate.scanner -> Gate.justScanned s = false ->
             Gate.handleDecode now result s
             = (Gate.setScanError (Some Gate.lockedMessage)
                  (Gate.setInfoMessage None
                     (Gate.setScanError None
                        (Gate.setTimeout now 1200 (Gate.setJustScanned true s)))),
                Gate.Locked)) as Hscan.
  { intros result Hm Hj. unfold Gate.handleDecode. rewrite Hj. cbn.
    rewrite Hm, Hu. reflexivity. }
  assert (Gate.handleManualAdd now s
          = if isEmpty (trim (Gate.manualName s)) then (s, Gate.BlankManualName)
            else (Gate.setScanError (Some Gate.lockedMessage) s, Gate.Locked))
    as Hmanual.
  { unfold Gate.handleManualAdd. now rewrite Hu. }
  split; [intro result; split; [|split; [|split]]|split; [|split; [|split]]].
  - destruct (Gate.mode s) eqn:Hm; [|now apply handleDecode_self_ledger].
    destruct (Gate.justScanned s) eqn:Hj; [|now rewrite Hscan].
    unfold Gate.handleDecode. now rewrite Hj.
  - destruct (Gate.mode s) eqn:Hm; [|now apply handleDecode_self_ledger].
    destruct (Gate.justScanned s) eqn:Hj; [|now rewrite Hscan].
    unfold Gate.handleDecode. now rewrite Hj.
  - intros Hm Hj. rewrite Hscan by assumption. split; reflexivity.
  - intro Hj. unfold Gate.handleDecode. now rewrite Hj.
  - rewrite Hmanual. destruct (isEmpty (trim (Gate.manualName s))); reflexivity.
  - rewrite Hmanual. destruct (isEmpty (trim (Gate.manualName s))); reflexivity.
  - intro Hne. apply isEmpty_false in Hne. rewrite Hmanual, Hne.
    split; reflexivity.
  - intro He. rewrite Hmanual, He. reflexivity.
Qed.

(** The first render (mode [scanner], lock engaged) with a name typed. *)
Lemma locked_handlers_leave_ledger_witness :
  let s := Gate.setManualName (js "Ann") (Gate.initialState Attendance.emptyStorage) in
  Gate.organizerUnlocked s = false
  /\ (Gate.mode s = Gate.scanner /\ Gate.justScanned s = false
      /\ snd (Gate.handleDecode 1000 (js "Bob") s) = Gate.Locked)
  /\ (trim (Gate.manualName s) <> []
      /\ snd (Gate.handleManualAdd 1000 s) = Gate.Locked)
  /\ Gate.entries (fst (Gate.handleManualAdd 1000 s)) = Gate.entries s.
Proof.
  intro s.
  pose proof (locked_handlers_leave_ledger 1000 s eq_refl) as [Hd [He [_ [Hm _]]]].
  assert (trim (Gate.manualName s) <> []) as Hne by (vm_compute; discriminate).
  split; [reflexivity|]. split; [|split].
  - split; [reflexivity|]. split; [reflexivity|].
    destruct (Hd (js "Bob")) as [_ [_ [Hl _]]]. exact (proj1 (Hl eq_refl eq_refl)).
  - split; [exact Hne|]. exact (proj1 (Hm Hne)).
  - exact He.
Defined.

(** C5 as the specification words it fails: with the lock engaged and
    nothing typed in the name field, [handleManualAdd] returns before it
    looks at the lock and reports nothing. *)
Lemma locked_blank_manual_entry_silent :
  let s := Gate.mount (js "dev-1") Attendance.emptyStorage in
  Gate.organizerUnlocked s = false
  /\ Gate.handleManualAdd 1000 s = (s, Gate.BlankManualName)
  /\ snd (Gate.handleManualAdd 1000 s) <> Gate.Locked
  /\ Gate.scanError (fst (Gate.handleManualAdd 1000 s)) = None.
Proof.
  vm_compute. repeat split; discriminate.
Qed.

(** ** The organizer's flow, end to end *)

Lemma trim_nonempty_arg : forall s, trim s <> [] -> isEmpty s = false.
Proof. intros [|c r] H; [now contradiction H|reflexivity]. Qed.

(** C2, as the code has it.  On a first visit the organizer types the PIN,
    unlocks, selects scanner mode and scans a text whose trimmed form is
    not empty.  The list then holds exactly one record: its name is the
    trimmed text itself (the text is not decoded), its device id is the
    scanning device's.  A manual entry whose trimmed name is not empty and
    compares equal to that name at sensitivity [accent] is then rejected as
    a duplicate; the page state is as it was after the scan (the name field
    is emptied again) and [sortedEntries] presents that single record. *)
Theorem organizer_flow_scan_then_manual_duplicate :
  forall env dev t1 t2 raw typed,
    trim raw <> [] ->
    trim typed <> [] ->
    localeCompare Accent (trim raw) (trim typed) = 0 ->
    let pin := Gate.ORGANIZER_PIN env in
    let record := Attendance.mkEntry (trim raw) dev (toISOString t1) in
    let s0 := Gate.mount dev Attendance.emptyStorage in
    let s1 := fst (Gate.run env
                     [Gate.TypePin pin; Gate.ClickUnlock;
                      Gate.SelectMode Gate.scanner; Gate.Scan t1 raw] s0) in
    Gate.entries s1 = [record]
    /\ Gate.run env [Gate.TypeManualName typed; Gate.ClickAdd t2] s1
       = (s1, [None; Some (Gate.Submitted Attendance.DuplicateName)])
    /\ Attendance.sortedEntries (Gate.entries s1) = [record].
Proof.
  intros env dev t1 t2 raw typed Hraw Htyped Hdup pin record s0 s1.
  assert (s1 = Gate.mkState Gate.scanner [record] [] None None true false true pin None
                 dev [t1 + 1200]
                 (Attendance.mkStorage (Some [record]) (Some dev) None)) as Hs1.
  { subst s1 s0. gate_eval. fold pin. rewrite jseqb_refl. gate_eval.
    rewrite (trim_nonempty_arg _ Hraw). gate_eval.
    apply isEmpty_false in Hraw. rewrite Hraw. gate_eval. reflexivity. }
  rewrite Hs1. split; [reflexivity|]. split; [|reflexivity].
  gate_eval. apply isEmpty_false in Htyped. rewrite Htyped. gate_eval.
  subst record. cbn [Attendance.name]. rewrite Hdup.
  change (0 =? 0) with true. cbv beta iota delta [orb]. gate_eval. reflexivity.
Qed.

(** The flow with the text a student page encodes for "Ann", and "ann"
    typed by hand. *)
Lemma organizer_flow_scan_then_manual_duplicate_witness :
  let record := Attendance.mkEntry (js "Ann") (js "dev-1") (js "1970-01-01T00:00:01.000Z") in
  let s1 := fst (Gate.run None
                   [Gate.TypePin (js "1234"); Gate.ClickUnlock;
                    Gate.SelectMode Gate.scanner; Gate.Scan 1000 (js "Ann")]
                   (Gate.mount (js "dev-1") Attendance.emptyStorage)) in
  (trim (js "Ann") <> [] /\ trim (js " ann ") <> []
   /\ localeCompare Accent (trim (js "Ann")) (trim (js " ann ")) = 0)
  /\ Gate.entries s1 = [record]
  /\ snd (Gate.run None [Gate.TypeManualName (js " ann "); Gate.ClickAdd 2000] s1)
     = [None; Some (Gate.Submitted Attendance.DuplicateName)]
  /\ Attendance.sortedEntries (Gate.entries s1) = [record].
Proof.
  intros record s1.
  assert (trim (js "Ann") <> []) as H1 by (vm_compute; discriminate).
  assert (trim (js " ann ") <> []) as H1' by (vm_compute; discriminate).
  assert (localeCompare Accent (trim (js "Ann")) (trim (js " ann ")) = 0) as H2
    by (vm_compute; reflexivity).
  destruct (organizer_flow_scan_then_manual_duplicate
              None (js "dev-1") 1000 2000 (js "Ann") (js " ann ") H1 H1' H2)
    as [Ha [Hb Hc]].
  split; [repeat split; assumption|]. split; [exact Ha|]. split; [|exact Hc].
  exact (f_equal snd Hb).
Defined.

(** C2 as the specification words it fails.  Right after the unlock the
    page is still in mode [self]: the scan of the JSON text is taken as a
    self check-in and the list stays empty.  With scanner mode selected
    first, the record's name is the whole JSON text and its device id the
    scanner's, not "Ann" and "d1"; "Ann" typed by hand is then accepted
    and the list has two records. *)
Lemma organizer_flow_counterexample :
  let raw := jsq "{'name':'Ann','deviceId':'d1'}" in
  let s0 := Gate.mount (js "dev-1") Attendance.emptyStorage in
  let unlock := [Gate.TypePin (js "1234"); Gate.ClickUnlock] in
  let '(sA, outsA) := Gate.run None (unlock ++ [Gate.Scan 1000 raw]) s0 in
  let '(sB, outsB) :=
    Gate.run None
      (unlock ++ [Gate.SelectMode Gate.scanner; Gate.Scan 1000 raw;
                  Gate.TypeManualName (js "Ann"); Gate.ClickAdd 2000]) s0 in
  (Gate.organizerUnlocked sA = true
   /\ outsA = [None; None; Some Gate.SelfConfirmed]
   /\ Gate.entries sA = [])
  /\ map Attendance.name (Gate.entries sB) = [js "Ann"; raw]
  /\ map Attendance.deviceId (Gate.entries sB) = [js "dev-1"; js "dev-1"]
  /\ (forall e, In e (Gate.entries sB) ->
        ~ (Attendance.name e = js "Ann" /\ Attendance.deviceId e = js "d1"))
  /\ List.length (Gate.entries sB) = 2%nat.
Proof.
  vm_compute. repeat split.
  intros e [<-|[<-|[]]] [Hn Hd]; discriminate.
Qed.

(** ** The page without a lock: whose device id a record carries *)

Lemma roster_addEntry_cases : forall now nameRaw s,
  Roster.addEntry now nameRaw s =
    if isEmpty (trim nameRaw) then (s, Attendance.InvalidName)
    else if Attendance.nameExists (Roster.entries s) (trim nameRaw)
         then (s, Attendance.DuplicateName)
         else
           let e := Attendance.mkEntry (trim nameRaw) (Roster.deviceIdRef s)
                      (toISOString now) in
           (Roster.setLocalStorage
              (Attendance.writeAttendance (e :: Roster.entries s) (Roster.localStorage s))
              (Roster.setEntries (e :: Roster.entries s) s),
            Attendance.Accepted e).
Proof.
  intros. unfold Roster.addEntry. rewrite addEntry_outcome_cases.
  destruct (isEmpty (trim nameRaw)); [reflexivity|].
  destruct (Attendance.nameExists (Roster.entries s) (trim nameRaw)); reflexivity.
Qed.

Lemma roster_addEntry_ok : forall now nameRaw s,
  rosterOk s -> rosterOk (fst (Roster.addEntry now nameRaw s)).
Proof.
  intros now nameRaw s H. rewrite roster_addEntry_cases.
  destruct (isEmpty (trim nameRaw)); [exact H|].
  destruct (Attendance.nameExists (Roster.entries s) (trim nameRaw)); [exact H|].
  destruct H as [He [Hd [Hs Hr]]]. destruct s. unfold rosterOk in *.
  roster_eval. simpl in *. repeat split; auto.
  intros e [<-|Hin]; [reflexivity|now apply He].
Qed.

(** The fields the invariant reads are those [addEntry] may change. *)
Lemma rosterOk_same : forall s s',
  Roster.entries s' = Roster.entries s ->
  Roster.deviceIdRef s' = Roster.deviceIdRef s ->
  Roster.localStorage s' = Roster.localStorage s ->
  rosterOk s -> rosterOk s'.
Proof.
  intros s s' He Hd Hl H. unfold rosterOk in *. now rewrite He, Hd, Hl.
Qed.

Lemma roster_handleDecode_ok : forall now result s,
  rosterOk s -> rosterOk (fst (Roster.handleDecode now result s)).
Proof.
  intros now result s H. unfold Roster.handleDecode.
  destruct (Roster.justScanned s); [exact H|].
  set (s0 := Roster.setInfoMessage None _).
  assert (rosterOk s0) as H0 by (apply (rosterOk_same s); auto).
  destruct (Roster.trimmedField (Roster.parsePayload result) (js "name")) as [nm|];
    [|exact H0].
  destruct (Roster.trimmedField (Roster.parsePayload result) (js "deviceId")) as [id|];
    [|exact H0].
  destruct (isEmpty nm); [apply (rosterOk_same s); auto|].
  destruct (negb (isEmpty id) && _); [apply (rosterOk_same s); auto|].
  pose proof (roster_addEntry_ok now nm s0 H0).
  destruct (Roster.addEntry now nm s0). assumption.
Qed.

Lemma roster_handleManualAdd_ok : forall now s,
  rosterOk s -> rosterOk (fst (Roster.handleManualAdd now s)).
Proof.
  intros now s H. unfold Roster.handleManualAdd.
  destruct (isEmpty (trim (Roster.manualName s))); [exact H|].
  pose proof (roster_addEntry_ok now (Roster.manualName s) s H) as Ha.
  destruct (Roster.addEntry now (Roster.manualName s) s) as [s' o].
  simpl in *. apply (rosterOk_same s'); auto.
Qed.

Lemma roster_mount_ok : forall fresh ls,
  (forall e, In e (Attendance.readAttendance ls) ->
             Attendance.storedDeviceId ls = Some (Attendance.deviceId e)) ->
  match Attendance.storedDeviceId ls with
  | Some id => id <> []
  | None => fresh <> []
  end ->
  rosterOk (Roster.mount fresh ls).
Proof.
  intros fresh ls He Hid. unfold rosterOk. destruct ls as [al sd sa].
  roster_eval. simpl in *.
  destruct sd as [id|].
  - apply isEmpty_false in Hid. rewrite Hid. simpl. repeat split; auto.
    + intros e Hin. specialize (He e Hin). congruence.
    + now apply isEmpty_false.
  - simpl. repeat split; auto.
    intros e Hin. specialize (He e Hin). discriminate.
Qed.

Lemma roster_step_ok : forall ev s,
  Roster.freshOk ev -> rosterOk s -> rosterOk (fst (Roster.step ev s)).
Proof.
  intros ev s Hf H. destruct ev; simpl.
  - destruct (isEmpty rawValue); [exact H|].
    pose proof (roster_handleDecode_ok now rawValue s H).
    destruct (Roster.handleDecode now rawValue s). assumption.
  - destruct (Attendance.fireTimer now (Roster.timers s)); [|exact H].
    apply (rosterOk_same s); auto.
  - apply (rosterOk_same s); auto.
  - pose proof (roster_handleManualAdd_ok now s H).
    destruct (Roster.handleManualAdd now s). assumption.
  - simpl in Hf. unfold rosterOk. destruct s. roster_eval. simpl.
    repeat split; auto. intros e [].
  - simpl in Hf. destruct H as [He [Hd [Hs Hr]]].
    apply roster_mount_ok.
    + rewrite Hr, Hs. intros e Hin. now rewrite (He e Hin).
    + now rewrite Hs.
Qed.

Lemma roster_reachable_ok : forall s, Roster.reachable s -> rosterOk s.
Proof.
  intros s H. induction H as [fresh Hf|s ev _ IH Hf].
  - apply roster_mount_ok; [intros e []|exact Hf].
  - now apply roster_step_ok.
Qed.

(** The one place [handleDecode] can add a record. *)
Lemma roster_handleDecode_accepted : forall now result s e,
  snd (Roster.handleDecode now result s) = Roster.Submitted (Attendance.Accepted e) ->
  Attendance.deviceId e = Roster.deviceIdRef s
  /\ Roster.entries (fst (Roster.handleDecode now result s)) = e :: Roster.entries s.
Proof.
  intros now result s e. unfold Roster.handleDecode.
  destruct (Roster.justScanned s); [discriminate|].
  destruct (Roster.trimmedField (Roster.parsePayload result) (js "name")) as [nm|];
    [|discriminate].
  destruct (Roster.trimmedField (Roster.parsePayload result) (js "deviceId")) as [id|];
    [|discriminate].
  destruct (isEmpty nm); [discriminate|].
  destruct (negb (isEmpty id) && _); [discriminate|].
  rewrite roster_addEntry_cases.
  destruct (isEmpty (trim nm)); [discriminate|].
  destruct (Attendance.nameExists _ (trim nm)); [discriminate|].
  simpl. intro H. injection H as <-. split; reflexivity.
Qed.

(** C9.  On the name-keyed page without a lock, a record added by a scan
    carries [deviceIdRef.current], the id of the device the page runs on,
    whatever [deviceId] the payload holds.  So in every state reached from
    a first visit all records carry that id, and a payload whose [deviceId]
    is another one is never rejected by the "already checked in" check. *)
Theorem roster_records_carry_scanner_id :
  (forall now nameRaw s e,
      snd (Roster.addEntry now nameRaw s) = Attendance.Accepted e ->
      Attendance.deviceId e = Roster.deviceIdRef s)
  /\ (forall now result s e,
      snd (Roster.handleDecode now result s)
        = Roster.Submitted (Attendance.Accepted e) ->
      Attendance.deviceId e = Roster.deviceIdRef s
      /\ Roster.entries (fst (Roster.handleDecode now result s)) = e :: Roster.entries s)
  /\ forall s, Roster.reachable s ->
       (forall e, In e (Roster.entries s) ->
                  Attendance.deviceId e = Roster.deviceIdRef s)
       /\ forall now result,
            Roster.trimmedField (Roster.parsePayload result) (js "deviceId")
              <> Some (Roster.deviceIdRef s) ->
            snd (Roster.handleDecode now result s) <> Roster.DeviceAlready.
Proof.
  split; [|split; [exact roster_handleDecode_accepted|]].
  { intros now nameRaw s e. rewrite roster_addEntry_cases.
    destruct (isEmpty (trim nameRaw)); [discriminate|].
    destruct (Attendance.nameExists _ (trim nameRaw)); [discriminate|].
    simpl. intro H. injection H as <-. reflexivity. }
  intros s Hr. destruct (roster_reachable_ok s Hr) as [He _].
  split; [exact He|].
  intros now result Hdiff. unfold Roster.handleDecode.
  destruct (Roster.justScanned s); [discriminate|].
  destruct (Roster.trimmedField (Roster.parsePayload result) (js "name")) as [nm|];
    [|discriminate].
  destruct (Roster.trimmedField (Roster.parsePayload result) (js "deviceId")) as [id|];
    [|discriminate].
  destruct (isEmpty nm); [discriminate|].
  destruct (negb (isEmpty id) && _) eqn:Hc.
  - exfalso. apply andb_true_iff in Hc as [_ Hex].
    apply existsb_exists in Hex as [e [Hin Heq]].
    apply jseqb_eq in Heq. apply Hdiff. f_equal. rewrite <- Heq.
    apply He. exact Hin.
  - destruct (Roster.addEntry now nm _). discriminate.
Qed.

(** Two students show codes made on one device, "d1"; the scanner is
    "dev-1".  Both are recorded, both under "dev-1". *)
Lemma roster_records_carry_scanner_id_witness :
  let ann := jsq "{'name':'Ann','deviceId':'d1'}" in
  let bob := jsq "{'name':'Bob','deviceId':'d1'}" in
  let s := fst (Roster.step (Roster.TimerFires 2200)
             (fst (Roster.step (Roster.Scan 1000 ann)
                (Roster.mount (js "dev-1") Attendance.emptyStorage)))) in
  Roster.reachable s
  /\ Roster.trimmedField (Roster.parsePayload bob) (js "deviceId") = Some (js "d1")
  /\ map Attendance.deviceId (Roster.entries s) = [js "dev-1"]
  /\ snd (Roster.handleDecode 3000 bob s) <> Roster.DeviceAlready
  /\ map Attendance.deviceId (Roster.entries (fst (Roster.handleDecode 3000 bob s)))
     = [js "dev-1"; js "dev-1"].
Proof.
  intros ann bob s.
  assert (Roster.reachable s) as Hr.
  { subst s. apply Roster.reach_step; [|exact I].
    apply Roster.reach_step; [|exact I].
    apply Roster.reach_mount. discriminate. }
  destruct roster_records_carry_scanner_id as [_ [_ Hinv]].
  destruct (Hinv s Hr) as [_ Hcheck].
  split; [exact Hr|]. split; [vm_compute; reflexivity|].
  split; [vm_compute; reflexivity|]. split.
  - apply Hcheck. vm_compute. discriminate.
  - vm_compute. reflexivity.
Defined.

(** ** Debounce *)

(** A text that [handleDecoded] did not drop is the last one seen. *)
Lemma handleDecoded_last : forall now text s,
  snd (ScanLog.handleDecoded now text s) <> ScanLog.Debounced ->
  ScanLog.lastRaw (fst (ScanLog.handleDecoded now text s)) = text
  /\ ScanLog.lastTime (fst (ScanLog.handleDecoded now text s)) = now.
Proof.
  intros now text s. unfold ScanLog.handleDecoded.
  destruct (jseqb (ScanLog.lastRaw s) text && (now - ScanLog.lastTime s <? 1500));
    [intro H; now contradiction H|].
  intros _.
  destruct (isEmpty _); [split; reflexivity|].
  destruct (ScanLog.deviceIdSet_has _ _); split; reflexivity.
Qed.

Lemma fireTimer_not_due : forall now d,
  now < d -> Attendance.fireTimer now [d] = None.
Proof.
  intros now d H. simpl. destruct (d <=? now) eqn:Hd; [|reflexivity].
  apply Z.leb_le in Hd. lia.
Qed.

Lemma roster_timers_frame_addEntry : forall now nameRaw s,
  Roster.justScanned (fst (Roster.addEntry now nameRaw s)) = Roster.justScanned s
  /\ Roster.timers (fst (Roster.addEntry now nameRaw s)) = Roster.timers s.
Proof.
  intros. rewrite roster_addEntry_cases.
  destruct (isEmpty (trim nameRaw)); [split; reflexivity|].
  destruct (Attendance.nameExists (Roster.entries s) (trim nameRaw));
    split; reflexivity.
Qed.

(** A scan that is not dropped sets the flag and starts one more timer. *)
Lemma roster_handleDecode_timers : forall now result s,
  Roster.justScanned s = false ->
  Roster.justScanned (fst (Roster.handleDecode now result s)) = true
  /\ Roster.timers (fst (Roster.handleDecode now result s))
     = Roster.timers s ++ [now + 1200].
Proof.
  intros now result s Hj. unfold Roster.handleDecode. rewrite Hj.
  destruct (Roster.trimmedField (Roster.parsePayload result) (js "name")) as [nm|];
    [|split; reflexivity].
  destruct (Roster.trimmedField (Roster.parsePayload result) (js "deviceId")) as [id|];
    [|split; reflexivity].
  destruct (isEmpty nm); [split; reflexivity|].
  destruct (negb (isEmpty id) && _); [split; reflexivity|].
  match goal with |- context [Roster.addEntry now nm ?s0] =>
    pose proof (roster_timers_frame_addEntry now nm s0) as [H1 H2];
    destruct (Roster.addEntry now nm s0) as [s' o] end.
  simpl in *. rewrite H1, H2. split; reflexivity.
Qed.

Lemma roster_handleDecode_debounced : forall now result s,
  snd (Roster.handleDecode now result s) = Roster.Debounced <->
  Roster.justScanned s = true.
Proof.
  intros now result s. unfold Roster.handleDecode.
  destruct (Roster.justScanned s); [tauto|].
  split; [|discriminate].
  destruct (Roster.trimmedField (Roster.parsePayload result) (js "name")) as [nm|];
    [|discriminate].
  destruct (Roster.trimmedField (Roster.parsePayload result) (js "deviceId")) as [id|];
    [|discriminate].
  destruct (isEmpty nm); [discriminate|].
  destruct (negb (isEmpty id) && _); [discriminate|].
  destruct (Roster.addEntry now nm _). discriminate.
Qed.

Lemma roster_step_timersOk : forall ev s,
  timersOk s -> timersOk (fst (Roster.step ev s)).
Proof.
  intros ev s H. destruct ev; simpl.
  - destruct (isEmpty rawValue); [exact H|].
    destruct (Roster.justScanned s) eqn:Hj.
    + unfold Roster.handleDecode. rewrite Hj. exact H.
    + pose proof (roster_handleDecode_timers now rawValue s Hj) as [H1 H2].
      destruct (Roster.handleDecode now rawValue s) as [s' o]. simpl in *.
      unfold timersOk in *. rewrite Hj in H. rewrite H1, H2, H.
      eexists. reflexivity.
  - unfold timersOk in H. destruct (Roster.justScanned s) eqn:Hj.
    + destruct H as [d Hd]. rewrite Hd. simpl.
      destruct (d <=? now); [reflexivity|].
      simpl. unfold timersOk. rewrite Hj. now exists d.
    + rewrite H. simpl. unfold timersOk. now rewrite Hj.
  - exact H.
  - unfold Roster.handleManualAdd.
    destruct (isEmpty (trim (Roster.manualName s))); [exact H|].
    pose proof (roster_timers_frame_addEntry now (Roster.manualName s) s) as [H1 H2].
    destruct (Roster.addEntry now (Roster.manualName s) s) as [s' o]. simpl in *.
    unfold timersOk in *. simpl. now rewrite H1, H2.
  - exact H.
  - unfold Roster.mount.
    destruct (Attendance.getOrCreateDeviceId fresh _). reflexivity.
Qed.

Lemma roster_reachable_timersOk : forall s, Roster.reachable s -> timersOk s.
Proof.
  intros s H. induction H as [fresh Hf|s ev _ IH Hf].
  - unfold Roster.mount.
    destruct (Attendance.getOrCreateDeviceId fresh _). reflexivity.
  - now apply roster_step_timersOk.
Qed.

Lemma gate_timers_frame_addEntry : forall now nameRaw s,
  Gate.justScanned (fst (Gate.addEntry now nameRaw s)) = Gate.justScanned s
  /\ Gate.timers (fst (Gate.addEntry now nameRaw s)) = Gate.timers s.
Proof.
  intros. rewrite addEntry_cases.
  destruct (isEmpty (trim nameRaw)); [split; reflexivity|].
  destruct (Attendance.nameExists (Gate.entries s) (trim nameRaw));
    split; reflexivity.
Qed.

Lemma gate_handleDecode_timers : forall now result s,
  Gate.justScanned s = false ->
  Gate.justScanned (fst (Gate.handleDecode now result s)) = true
  /\ Gate.timers (fst (Gate.handleDecode now result s))
     = Gate.timers s ++ [now + 1200].
Proof.
  intros now result s Hj. unfold Gate.handleDecode. rewrite Hj.
  cbn [Gate.mode Gate.setInfoMessage Gate.setScanError Gate.setTimeout
       Gate.setTimers Gate.setJustScanned Gate.selfAttempted
       Gate.organizerUnlocked].
  destruct (Gate.mode s).
  - destruct (negb (Gate.organizerUnlocked s)); [split; reflexivity|].
    match goal with |- context [Gate.addEntry now result ?s0] =>
      pose proof (gate_timers_frame_addEntry now result s0) as [H1 H2];
      destruct (Gate.addEntry now result s0) as [s' o] end.
    simpl in *. rewrite H1, H2. split; reflexivity.
  - destruct (Gate.selfAttempted s); split; reflexivity.
Qed.

Lemma gate_handleDecode_debounced : forall now result s,
  snd (Gate.handleDecode now result s) = Gate.Debounced <->
  Gate.justScanned s = true.
Proof.
  intros now result s. unfold Gate.handleDecode.
  destruct (Gate.justScanned s); [tauto|].
  split; [|discriminate].
  cbn [Gate.mode Gate.setInfoMessage Gate.setScanError Gate.setTimeout
       Gate.setTimers Gate.setJustScanned Gate.selfAttempted
       Gate.organizerUnlocked].
  destruct (Gate.mode s).
  - destruct (negb (Gate.organizerUnlocked s)); [discriminate|].
    destruct (Gate.addEntry now result _). discriminate.
  - destruct (Gate.selfAttempted s); discriminate.
Qed.

Lemma forceSelfMode_timers : forall s,
  gateTimersOk s -> gateTimersOk (Gate.forceSelfMode s).
Proof.
  intros s H. unfold Gate.forceSelfMode. break_if; [|assumption]. exact H.
Qed.

Lemma gate_step_timersOk : forall pin ev s,
  gateTimersOk s -> gateTimersOk (fst (Gate.step pin ev s)).
Proof.
  intros pin ev s H. unfold Gate.step.
  assert (gateTimersOk (fst (Gate.dispatch pin ev s))) as Hd.
  { destruct ev; simpl.
    - destruct (isEmpty rawValue); [exact H|].
      destruct (Gate.justScanned s) eqn:Hj.
      + unfold Gate.handleDecode. rewrite Hj. exact H.
      + pose proof (gate_handleDecode_timers now rawValue s Hj) as [H1 H2].
        destruct (Gate.handleDecode now rawValue s) as [s' o]. simpl in *.
        unfold gateTimersOk in *. rewrite Hj in H. rewrite H1, H2, H.
        eexists. reflexivity.
    - unfold gateTimersOk in H. destruct (Gate.justScanned s) eqn:Hj.
      + destruct H as [d Hd]. rewrite Hd. simpl.
        destruct (d <=? now); [reflexivity|].
        simpl. unfold gateTimersOk. rewrite Hj. now exists d.
      + rewrite H. simpl. unfold gateTimersOk. now rewrite Hj.
    - exact H.
    - destruct (Gate.organizerUnlocked s); [|exact H].
      unfold Gate.handleManualAdd.
      destruct (isEmpty (trim (Gate.manualName s))); [exact H|].
      destruct (negb (Gate.organizerUnlocked s)); [exact H|].
      pose proof (gate_timers_frame_addEntry now (Gate.manualName s) s) as [H1 H2].
      destruct (Gate.addEntry now (Gate.manualName s) s) as [s' o]. simpl in *.
      unfold gateTimersOk in *. simpl. now rewrite H1, H2.
    - destruct (Gate.organizerUnlocked s); exact H.
    - destruct (Gate.organizerUnlocked s); [exact H|].
      unfold Gate.clickUnlock. break_if; exact H.
    - destruct m; [|exact H]. destruct (Gate.organizerUnlocked s); exact H.
    - destruct (Gate.organizerUnlocked s); exact H.
    - unfold Gate.mountEffect.
      destruct (Attendance.getOrCreateDeviceId fresh _). reflexivity. }
  destruct (Gate.dispatch pin ev s) as [s' o]. simpl in *.
  now apply forceSelfMode_timers.
Qed.

Lemma gate_reachable_timersOk : forall pin s,
  Gate.reachable pin s -> gateTimersOk s.
Proof.
  intros pin s H. induction H as [fresh ls|s ev _ IH].
  - apply forceSelfMode_timers. unfold Gate.mountEffect.
    destruct (Attendance.getOrCreateDeviceId fresh _). reflexivity.
  - now apply gate_step_timersOk.
Qed.

(** C6, as the code has it.  On the scan-log page the window is 1500 ms
    and the guard looks at the text: once a decode event has been handled,
    an event with the same text whose [Date.now()] is less than 1500 ms
    later is dropped, the page state unchanged.  On the name-keyed page the
    window is the 1200 ms of the timer and the guard is the [justScanned]
    flag: once a decode event has been handled, the timer cannot run before
    1200 ms have passed, and until it runs every decode event, whatever its
    text, is dropped, the page state unchanged; once it has run, the next
    decode event is handled.  The page with the lock has the same guard and
    the same window. *)
Theorem debounce_windows :
  (forall t1 t2 raw s,
      snd (ScanLog.handleDecoded t1 raw s) <> ScanLog.Debounced ->
      t2 - t1 < 1500 ->
      ScanLog.handleDecoded t2 raw (fst (ScanLog.handleDecoded t1 raw s))
      = (fst (ScanLog.handleDecoded t1 raw s), ScanLog.Debounced))
  /\ (forall s, Roster.reachable s ->
       forall t1 raw1,
         snd (Roster.handleDecode t1 raw1 s) <> Roster.Debounced ->
         let s1 := fst (Roster.handleDecode t1 raw1 s) in
         (forall t2 raw2,
             t2 < t1 + 1200 ->
             Roster.step (Roster.TimerFires t2) s1 = (s1, None)
             /\ Roster.handleDecode t2 raw2 s1 = (s1, Roster.Debounced))
         /\ (forall t2 t3 raw3,
               t1 + 1200 <= t2 ->
               snd (Roster.handleDecode t3 raw3
                      (fst (Roster.step (Roster.TimerFires t2) s1)))
               <> Roster.Debounced))
  /\ (forall pin s, Gate.reachable pin s ->
       forall t1 raw1,
         snd (Gate.handleDecode t1 raw1 s) <> Gate.Debounced ->
         let s1 := fst (Gate.handleDecode t1 raw1 s) in
         forall t2 raw2,
           t2 < t1 + 1200 ->
           Gate.dispatch pin (Gate.TimerFires t2) s1 = (s1, None)
           /\ Gate.handleDecode t2 raw2 s1 = (s1, Gate.Debounced)).
Proof.
  split; [|split].
  - intros t1 t2 raw s Hnd Hlt.
    destruct (handleDecoded_last t1 raw s Hnd) as [Hr Ht].
    unfold ScanLog.handleDecoded at 1. rewrite Hr, Ht, jseqb_refl.
    assert ((t2 - t1 <? 1500) = true) as -> by now apply Z.ltb_lt.
    reflexivity.
  - intros s Hr t1 raw1 Hnd s1.
    assert (Roster.justScanned s = false) as Hj.
    { destruct (Roster.justScanned s) eqn:Hj; [|reflexivity].
      exfalso. apply Hnd. now apply roster_handleDecode_debounced. }
    pose proof (roster_reachable_timersOk s Hr) as Hok.
    unfold timersOk in Hok. rewrite Hj in Hok.
    destruct (roster_handleDecode_timers t1 raw1 s Hj) as [Hj1 Ht1].
    fold s1 in Hj1, Ht1. rewrite Hok in Ht1. simpl in Ht1.
    split.
    + intros t2 raw2 Hlt. split.
      * simpl. rewrite Ht1, fireTimer_not_due by lia. reflexivity.
      * unfold Roster.handleDecode. now rewrite Hj1.
    + intros t2 t3 raw3 Hge Hd.
      apply roster_handleDecode_debounced in Hd.
      simpl in Hd. rewrite Ht1 in Hd. simpl in Hd.
      assert ((t1 + 1200 <=? t2) = true) as Hle by now apply Z.leb_le.
      rewrite Hle in Hd. simpl in Hd. discriminate.
  - intros pin s Hr t1 raw1 Hnd s1 t2 raw2 Hlt.
    assert (Gate.justScanned s = false) as Hj.
    { destruct (Gate.justScanned s) eqn:Hj; [|reflexivity].
      exfalso. apply Hnd. now apply gate_handleDecode_debounced. }
    pose proof (gate_reachable_timersOk pin s Hr) as Hok.
    unfold gateTimersOk in Hok. rewrite Hj in Hok.
    destruct (gate_handleDecode_timers t1 raw1 s Hj) as [Hj1 Ht1].
    fold s1 in Hj1, Ht1. rewrite Hok in Ht1. simpl in Ht1.
    split.
    + simpl. rewrite Ht1, fireTimer_not_due by lia. reflexivity.
    + unfold Gate.handleDecode. now rewrite Hj1.
Qed.

(** The same text twice, 1000 ms apart, on the three pages. *)
Lemma debounce_windows_witness :
  let a := ScanLog.mount None in
  let r := Roster.mount (js "dev-1") Attendance.emptyStorage in
  let g := Gate.mount (js "dev-1") Attendance.emptyStorage in
  (snd (ScanLog.handleDecoded 50000 (js "d1") a) <> ScanLog.Debounced
   /\ snd (ScanLog.handleDecoded 51000 (js "d1")
             (fst (ScanLog.handleDecoded 50000 (js "d1") a))) = ScanLog.Debounced)
  /\ (Roster.reachable r
      /\ snd (Roster.handleDecode 50000 (js "Ann") r) <> Roster.Debounced
      /\ snd (Roster.handleDecode 51000 (js "Ann")
                (fst (Roster.handleDecode 50000 (js "Ann") r))) = Roster.Debounced)
  /\ (Gate.reachable None g
      /\ snd (Gate.handleDecode 50000 (js "Ann") g) <> Gate.Debounced
      /\ snd (Gate.handleDecode 51000 (js "Ann")
                (fst (Gate.handleDecode 50000 (js "Ann") g))) = Gate.Debounced).
Proof.
  intros a r g.
  destruct debounce_windows as [Hscan [Hroster Hgate]].
  assert (snd (ScanLog.handleDecoded 50000 (js "d1") a) <> ScanLog.Debounced) as H1
    by (vm_compute; discriminate).
  assert (Roster.reachable r) as Hr by (apply Roster.reach_mount; discriminate).
  assert (snd (Roster.handleDecode 50000 (js "Ann") r) <> Roster.Debounced) as H2
    by (vm_compute; discriminate).
  assert (Gate.reachable None g) as Hg by apply Gate.reach_mount.
  assert (snd (Gate.handleDecode 50000 (js "Ann") g) <> Gate.Debounced) as H3
    by (vm_compute; discriminate).
  split; [split; [exact H1|]|split; [split; [exact Hr|split; [exact H2|]]|
                                     split; [exact Hg|split; [exact H3|]]]].
  - rewrite (Hscan 50000 51000 (js "d1") a H1) by lia. reflexivity.
  - destruct (Hroster r Hr 50000 (js "Ann") H2) as [Hdrop _].
    destruct (Hdrop 51000 (js "Ann")) as [_ ->]; [lia|reflexivity].
  - destruct (Hgate None g Hg 50000 (js "Ann") H3 51000 (js "Ann")) as [_ ->];
      [lia|reflexivity].
Defined.

(** C6 as the specification words it fails.  On the name-keyed page the
    same text scanned again 1300 ms later, less than 1500 ms apart, is
    handled again once the 1200 ms timer has run.  On the scan-log page
    the guard remembers the last text only: the same text 200 ms later is
    handled again when another text came in between. *)
Lemma debounce_counterexample :
  let s0 := Roster.mount (js "dev-1") Attendance.emptyStorage in
  let '(s, outs) :=
    Roster.run [Roster.Scan 0 (js "Ann"); Roster.TimerFires 1200;
                Roster.Scan 1300 (js "Ann")] s0 in
  let '(a1, o1) := ScanLog.handleDecoded 50000 (js "d1") (ScanLog.mount None) in
  let '(a2, o2) := ScanLog.handleDecoded 50100 (js "d2") a1 in
  let '(a3, o3) := ScanLog.handleDecoded 50200 (js "d1") a2 in
  ((1300 - 0 < 1500)
   /\ outs = [Some (Roster.Submitted
                      (Attendance.Accepted
                         (Attendance.mkEntry (js "Ann") (js "dev-1")
                            (js "1970-01-01T00:00:00.000Z"))));
              None;
              Some (Roster.Submitted Attendance.DuplicateName)]
   /\ nth 2 outs None <> Some Roster.Debounced
   /\ Roster.timers s = [2500])
  /\ ((50200 - 50000 < 1500)
      /\ o3 = ScanLog.DuplicateIgnored (js "d1")
      /\ o3 <> ScanLog.Debounced
      /\ ScanLog.statusMessage a3 = js "Duplicate ignored: d1").
Proof.
  vm_compute. repeat split; discriminate.
Qed.

(** * Further properties *)

(** ** [JSON.stringify] then [JSON.parse] *)

Lemma hexValue_hexDigit : forall d, (d < 16)%N -> hexValue (hexDigit d) = Some d.
Proof.
  intros d Hd.
  assert (d = 0 \/ d = 1 \/ d = 2 \/ d = 3 \/ d = 4 \/ d = 5 \/ d = 6 \/ d = 7
          \/ d = 8 \/ d = 9 \/ d = 10 \/ d = 11 \/ d = 12 \/ d = 13 \/ d = 14
          \/ d = 15)%N as H by lia.
  repeat (destruct H as [->|H]; [reflexivity|]). subst. reflexivity.
Qed.

Lemma hex4_unicodeEscape : forall c,
  (c < 65536)%N ->
  hex4 (hexDigit (c / 4096 mod 16)) (hexDigit (c / 256 mod 16))
       (hexDigit (c / 16 mod 16)) (hexDigit (c mod 16)) = Some c.
Proof.
  intros c Hc. unfold hex4.
  rewrite !hexValue_hexDigit by (apply N.mod_lt; discriminate).
  f_equal. zify. Z.to_euclidean_division_equations. lia.
Qed.

Lemma parseChars_unicodeEscape : forall c rest,
  (c < 65536)%N ->
  parseChars (unicodeEscape c ++ rest) =
  match parseChars rest with
  | Some (str, r) => Some (c :: str, r)
  | None => None
  end.
Proof.
  intros c rest Hc. unfold unicodeEscape.
  cbn [app parseChars N.eqb Pos.eqb].
  rewrite hex4_unicodeEscape by assumption.
  destruct (parseChars rest) as [[str r]|]; reflexivity.
Qed.

Lemma parseChars_raw : forall c rest,
  N.eqb c 34 = false -> N.eqb c 92 = false -> N.ltb c 32 = false ->
  parseChars (c :: rest) =
  match parseChars rest with
  | Some (str, r) => Some (c :: str, r)
  | None => None
  end.
Proof. intros c rest H1 H2 H3. simpl. now rewrite H1, H2, H3. Qed.

Lemma parseChars_quoteUnit : forall c rest,
  (c < 65536)%N ->
  parseChars (quoteUnit c ++ rest) =
  match parseChars rest with
  | Some (str, r) => Some (c :: str, r)
  | None => None
  end.
Proof.
  intros c rest Hc. unfold quoteUnit.
  destruct (N.eqb_spec c 8) as [->|H8];
    [simpl; destruct (parseChars rest) as [[? ?]|]; reflexivity|].
  destruct (N.eqb_spec c 9) as [->|H9];
    [simpl; destruct (parseChars rest) as [[? ?]|]; reflexivity|].
  destruct (N.eqb_spec c 10) as [->|H10];
    [simpl; destruct (parseChars rest) as [[? ?]|]; reflexivity|].
  destruct (N.eqb_spec c 12) as [->|H12];
    [simpl; destruct (parseChars rest) as [[? ?]|]; reflexivity|].
  destruct (N.eqb_spec c 13) as [->|H13];
    [simpl; destruct (parseChars rest) as [[? ?]|]; reflexivity|].
  destruct (N.eqb_spec c 34) as [->|H34];
    [simpl; destruct (parseChars rest) as [[? ?]|]; reflexivity|].
  destruct (N.eqb_spec c 92) as [->|H92];
    [simpl; destruct (parseChars rest) as [[? ?]|]; reflexivity|].
  destruct (N.ltb c 32 || isLeadSurrogate c || isTrailSurrogate c) eqn:He.
  - now apply parseChars_unicodeEscape.
  - apply orb_false_iff in He as [He _]. apply orb_false_iff in He as [He _].
    apply parseChars_raw; [now apply N.eqb_neq|now apply N.eqb_neq|assumption].
Qed.

Lemma surrogate_raw : forall c,
  isLeadSurrogate c = true \/ isTrailSurrogate c = true ->
  N.eqb c 34 = false /\ N.eqb c 92 = false /\ N.ltb c 32 = false.
Proof.
  intros c H. unfold isLeadSurrogate, isTrailSurrogate, inRange in H.
  repeat split; [apply N.eqb_neq|apply N.eqb_neq|apply N.ltb_ge];
    destruct H as [H|H]; apply andb_true_iff in H as [H1 H2];
    apply N.leb_le in H1, H2; lia.
Qed.

Lemma quoteChars_cons : forall c r,
  quoteChars (c :: r) =
  if isLeadSurrogate c then
    match r with
    | d :: r' =>
        if isTrailSurrogate d then c :: d :: quoteChars r'
        else unicodeEscape c ++ quoteChars r
    | [] => unicodeEscape c
    end
  else quoteUnit c ++ quoteChars r.
Proof. reflexivity. Qed.

Lemma parseChars_quoteChars_upto : forall n s rest,
  (List.length s <= n)%nat ->
  Stored.is16bit s = true ->
  parseChars (quoteChars s ++ 34%N :: rest) = Some (s, rest).
Proof.
  induction n as [|n IH]; intros s rest Hn H16.
  - destruct s; [reflexivity|simpl in Hn; lia].
  - destruct s as [|c r]; [reflexivity|].
    simpl in Hn. unfold Stored.is16bit in H16. simpl in H16.
    apply andb_true_iff in H16 as [Hc Hr]. apply N.ltb_lt in Hc.
    rewrite quoteChars_cons.
    destruct (isLeadSurrogate c) eqn:Hlead.
    + destruct r as [|d r'].
      * rewrite parseChars_unicodeEscape by assumption. reflexivity.
      * destruct (isTrailSurrogate d) eqn:Htrail.
        -- simpl in Hr. apply andb_true_iff in Hr as [_ Hr'].
           destruct (surrogate_raw c (or_introl Hlead)) as [C1 [C2 C3]].
           destruct (surrogate_raw d (or_intror Htrail)) as [D1 [D2 D3]].
           cbn [app]. rewrite parseChars_raw by assumption.
           rewrite parseChars_raw by assumption.
           rewrite IH; [reflexivity|simpl in Hn; lia|exact Hr'].
        -- rewrite <- app_assoc, parseChars_unicodeEscape by assumption.
           rewrite IH; [reflexivity|lia|exact Hr].
    + rewrite <- app_assoc, parseChars_quoteUnit by assumption.
      rewrite IH; [reflexivity|lia|exact Hr].
Qed.

Lemma parseChars_quoteChars : forall s rest,
  Stored.is16bit s = true ->
  parseChars (quoteChars s ++ 34%N :: rest) = Some (s, rest).
Proof. intros s rest. now apply (parseChars_quoteChars_upto (List.length s)). Qed.

Lemma quoteJSONString_app : forall s rest,
  quoteJSONString s ++ rest = 34%N :: quoteChars s ++ 34%N :: rest.
Proof.
  intros. unfold quoteJSONString. cbn [app]. now rewrite <- app_assoc.
Qed.

Lemma parseValue_S_string : forall f r,
  parseValue (S f) (34%N :: r) =
  match parseChars r with
  | Some (str, rest) => POk (JStr str) rest
  | None => PSyntaxError
  end.
Proof. reflexivity. Qed.

Lemma parseValue_string : forall f s rest,
  Stored.is16bit s = true ->
  parseValue (S f) (quoteJSONString s ++ rest) = POk (JStr s) rest.
Proof.
  intros f s rest H. rewrite quoteJSONString_app, parseValue_S_string.
  now rewrite parseChars_quoteChars.
Qed.

Lemma parseMembers_S : forall f acc r0,
  parseMembers (S f) acc (34%N :: r0) =
  match parseChars r0 with
  | Some (key, r1) =>
      match skipWs r1 with
      | colon :: r2 =>
          if N.eqb colon 58 then
            match parseValue f r2 with
            | POk v r =>
                match skipWs r with
                | c :: r' =>
                    if N.eqb c 44 then parseMembers f (setProp acc key v) r'
                    else if N.eqb c 125 then POk (JObj (setProp acc key v)) r'
                    else PSyntaxError
                | [] => PSyntaxError
                end
            | PSyntaxError => PSyntaxError
            | POutOfFuel => POutOfFuel
            end
          else PSyntaxError
      | [] => PSyntaxError
      end
  | None => PSyntaxError
  end.
Proof. reflexivity. Qed.

(** One member, and what follows it. *)
Lemma parseMembers_property : forall f acc k v tail,
  Stored.is16bit k = true -> Stored.is16bit v = true ->
  parseMembers (S (S f)) acc (stringifyProperty (k, v) ++ tail) =
  match skipWs tail with
  | c :: r' =>
      if N.eqb c 44 then parseMembers (S f) (setProp acc k (JStr v)) r'
      else if N.eqb c 125 then POk (JObj (setProp acc k (JStr v))) r'
      else PSyntaxError
  | [] => PSyntaxError
  end.
Proof.
  intros f acc k v tail Hk Hv. unfold stringifyProperty. cbn [fst snd].
  change (js ":") with [58%N].
  rewrite <- !app_assoc. rewrite (quoteJSONString_app k).
  rewrite parseMembers_S, parseChars_quoteChars by assumption.
  change (skipWs ([58%N] ++ quoteJSONString v ++ tail))
    with (58%N :: quoteJSONString v ++ tail).
  change (N.eqb 58 58) with true. cbv iota.
  now rewrite parseValue_string.
Qed.

Lemma parseMembers_props : forall props p acc f rest,
  props16bit (p :: props) = true ->
  (List.length (p :: props) < f)%nat ->
  parseMembers f acc
    (joinWith (js ",") (map stringifyProperty (p :: props)) ++ 125%N :: rest)
  = POk (JObj (collectProps acc (p :: props))) rest.
Proof.
  induction props as [|p' props IH]; intros [k v] acc f rest H16 Hf.
  - destruct f as [|[|f]]; [simpl in Hf; lia|simpl in Hf; lia|].
    simpl in H16. rewrite andb_true_r in H16. apply andb_true_iff in H16 as [Hk Hv].
    cbn [map joinWith].
    rewrite parseMembers_property by assumption. reflexivity.
  - destruct f as [|[|f]]; [simpl in Hf; lia|simpl in Hf; lia|].
    unfold props16bit in H16. cbn [forallb fst snd] in H16.
    apply andb_true_iff in H16 as [Hkv H16'].
    apply andb_true_iff in Hkv as [Hk Hv].
    change (joinWith (js ",") (map stringifyProperty ((k, v) :: p' :: props)))
      with (stringifyProperty (k, v) ++ js ","
            ++ joinWith (js ",") (map stringifyProperty (p' :: props))).
    rewrite <- !app_assoc.
    rewrite parseMembers_property by assumption.
    change (js "," ++ ?x) with (44%N :: x).
    change (skipWs (44%N :: ?x)) with (44%N :: x).
    cbv beta iota. change (N.eqb 44 44) with true. cbv iota.
    rewrite (IH p' (setProp acc k (JStr v)) (S f) rest);
      [reflexivity|exact H16'|simpl in *; lia].
Qed.

Lemma parseValue_S_object : forall f r,
  parseValue (S f) (123%N :: r) =
  match skipWs r with
  | c' :: r' => if N.eqb c' 125 then POk (JObj []) r' else parseMembers f [] r
  | [] => PSyntaxError
  end.
Proof. reflexivity. Qed.

Lemma parseValue_S_array : forall f r,
  parseValue (S f) (91%N :: r) =
  match skipWs r with
  | c' :: r' => if N.eqb c' 93 then POk (JArr []) r' else parseElements f [] r
  | [] => PSyntaxError
  end.
Proof. reflexivity. Qed.

Lemma parseElements_S : forall f acc s,
  parseElements (S f) acc s =
  match parseValue f s with
  | POk v r =>
      match skipWs r with
      | c :: r' =>
          if N.eqb c 44 then parseElements f (v :: acc) r'
          else if N.eqb c 93 then POk (JArr (rev (v :: acc))) r'
          else PSyntaxError
      | [] => PSyntaxError
      end
  | PSyntaxError => PSyntaxError
  | POutOfFuel => POutOfFuel
  end.
Proof. reflexivity. Qed.

Lemma joinWith_cons2 : forall sep (a b : jsstring) l,
  joinWith sep (a :: b :: l) = a ++ sep ++ joinWith sep (b :: l).
Proof. reflexivity. Qed.

Lemma stringifyProperty_head : forall p,
  exists tail, stringifyProperty p = 34%N :: tail.
Proof. intros [k v]. eexists. reflexivity. Qed.

Lemma members_head : forall p props,
  exists tail, joinWith (js ",") (map stringifyProperty (p :: props)) = 34%N :: tail.
Proof.
  intros p props. destruct (stringifyProperty_head p) as [t Ht].
  destruct props as [|p' props]; cbn [map].
  - exists t. exact Ht.
  - rewrite joinWith_cons2, Ht. eexists. reflexivity.
Qed.

Lemma parseValue_object : forall props f rest,
  props16bit props = true ->
  (List.length props + 1 < f)%nat ->
  parseValue f (stringifyObject props ++ rest) = POk (JObj (collectProps [] props)) rest.
Proof.
  intros props f rest H16 Hf.
  destruct f as [|f]; [lia|].
  unfold stringifyObject. change (js "{") with [123%N]. change (js "}") with [125%N].
  rewrite <- !app_assoc. cbn [app]. rewrite parseValue_S_object.
  destruct props as [|p props]; [reflexivity|].
  destruct (members_head p props) as [tail Ht].
  assert (skipWs (joinWith (js ",") (map stringifyProperty (p :: props)) ++ 125%N :: rest)
          = joinWith (js ",") (map stringifyProperty (p :: props)) ++ 125%N :: rest) as Hs
    by (rewrite Ht; reflexivity).
  rewrite Hs. rewrite Ht at 1. cbn [app]. change (N.eqb 34 125) with false. cbv iota.
  apply parseMembers_props; [assumption|simpl in *; lia].
Qed.

Lemma stringifyObject_head : forall props,
  exists tail, stringifyObject props = 123%N :: tail.
Proof. intro props. eexists. reflexivity. Qed.

Lemma elements_head : forall o objs,
  exists tail, joinWith (js ",") (map stringifyObject (o :: objs)) = 123%N :: tail.
Proof.
  intros o objs. destruct objs as [|o' objs]; cbn [map].
  - eexists. reflexivity.
  - rewrite joinWith_cons2. eexists. reflexivity.
Qed.

Lemma parseElements_objects : forall objs o acc f m rest,
  forallb props16bit (o :: objs) = true ->
  Forall (fun x => (List.length x + 2 <= m)%nat) (o :: objs) ->
  (List.length (o :: objs) + m <= f)%nat ->
  parseElements f acc
    (joinWith (js ",") (map stringifyObject (o :: objs)) ++ 93%N :: rest)
  = POk (JArr (rev acc ++ map (fun x => JObj (collectProps [] x)) (o :: objs))) rest.
Proof.
  induction objs as [|o' objs IH]; intros o acc f m rest H16 Hm Hf.
  - destruct f as [|f]; [simpl in Hf; lia|].
    cbn [forallb] in H16. rewrite andb_true_r in H16.
    inversion Hm as [|? ? Ho _]; subst.
    cbn [map joinWith]. rewrite parseElements_S.
    rewrite parseValue_object; [|assumption|simpl in Hf; lia].
    reflexivity.
  - destruct f as [|f]; [simpl in Hf; lia|].
    cbn [forallb] in H16. apply andb_true_iff in H16 as [Ho16 H16'].
    inversion Hm as [|? ? Ho Hm']; subst.
    cbn [map]. rewrite joinWith_cons2. rewrite <- !app_assoc.
    rewrite parseElements_S.
    rewrite parseValue_object; [|assumption|simpl in Hf; lia].
    change (js "," ++ ?x) with (44%N :: x).
    change (skipWs (44%N :: ?x)) with (44%N :: x).
    cbv beta iota. change (N.eqb 44 44) with true. cbv iota.
    change (stringifyObject o' :: map stringifyObject objs)
      with (map stringifyObject (o' :: objs)).
    rewrite (IH o' _ f m rest); [|exact H16'|exact Hm'|simpl in *; lia].
    cbn [rev map]. now rewrite <- app_assoc.
Qed.

Lemma joinWith_length : forall sep (l : list jsstring),
  Forall (fun x => (1 <= List.length x)%nat) l ->
  (List.length l <= List.length (joinWith sep l))%nat.
Proof.
  intros sep l H. induction H as [|x l Hx Hl IH]; [simpl; lia|].
  destruct l as [|y l]; [simpl; lia|].
  rewrite joinWith_cons2, !length_app. simpl List.length in *. lia.
Qed.

Lemma stringifyObject_length : forall props,
  (2 <= List.length (stringifyObject props))%nat.
Proof.
  intro props. unfold stringifyObject. rewrite !length_app. simpl. lia.
Qed.

(** [JSON.parse(JSON.stringify(x))] for an array [x] of objects with string
    values: the array of the objects [JSON.parse] builds. *)
Lemma JSON_parse_stringifyArray : forall objs m,
  forallb props16bit objs = true ->
  Forall (fun x => (List.length x + 2 <= m)%nat) objs ->
  (m <= 5)%nat ->
  JSON_parse (stringifyArray objs)
  = Some (JArr (map (fun x => JObj (collectProps [] x)) objs)).
Proof.
  intros objs m H16 Hm Hm6. unfold JSON_parse.
  destruct objs as [|o objs]; [reflexivity|].
  unfold stringifyArray. change (js "[") with [91%N]. change (js "]") with [93%N].
  cbn [app]. set (body := joinWith (js ",") (map stringifyObject (o :: objs))).
  assert (List.length (o :: objs) <= List.length body)%nat as Hlen.
  { subst body. rewrite <- (length_map stringifyObject (o :: objs)) at 1.
    apply joinWith_length. apply Forall_forall. intros x Hx.
    apply in_map_iff in Hx as [props [<- _]].
    pose proof (stringifyObject_length props). lia. }
  replace (2 * List.length (91%N :: body ++ [93%N]) + 1)%nat
    with (S (2 * List.length (91%N :: body ++ [93%N])))%nat by lia.
  rewrite parseValue_S_array.
  destruct (elements_head o objs) as [tail Ht]. fold body in Ht.
  assert (skipWs (body ++ [93%N]) = body ++ [93%N]) as Hs by (rewrite Ht; reflexivity).
  rewrite Hs. rewrite Ht at 1. cbn [app]. change (N.eqb 123 93) with false. cbv iota.
  subst body. rewrite (parseElements_objects objs o [] _ m []);
    [reflexivity|assumption|assumption|].
  cbn [List.length] in *. rewrite length_app. cbn [List.length]. lia.
Qed.

Lemma JSON_parse_stringifyObject : forall props,
  props16bit props = true ->
  JSON_parse (stringifyObject props) = Some (JObj (collectProps [] props)).
Proof.
  intros props H16. unfold JSON_parse.
  rewrite <- (app_nil_r (stringifyObject props)) at 2.
  rewrite parseValue_object; [reflexivity|assumption|].
  assert (List.length props <= List.length (joinWith (js ",") (map stringifyProperty props)))%nat.
  { rewrite <- (length_map stringifyProperty props) at 1.
    apply joinWith_length. apply Forall_forall. intros x Hx.
    apply in_map_iff in Hx as [[k v] [<- _]].
    unfold stringifyProperty, quoteJSONString. rewrite !length_app. simpl. lia. }
  unfold stringifyObject. rewrite !length_app. simpl List.length. lia.
Qed.

(** ** More on [trim] *)

Lemma trimStart_idem : forall s, trimStart (trimStart s) = trimStart s.
Proof.
  induction s as [|c r IH]; [reflexivity|]. simpl.
  destruct (isWhiteSpace c) eqn:Hc; [exact IH|]. simpl. now rewrite Hc.
Qed.

Lemma trimStart_snoc : forall l c,
  isWhiteSpace c = false -> trimStart (l ++ [c]) = trimStart l ++ [c].
Proof.
  induction l as [|x l IH]; intros c Hc; simpl; [now rewrite Hc|].
  destruct (isWhiteSpace x); [now apply IH|reflexivity].
Qed.

Lemma trimEnd_cons : forall c r,
  isWhiteSpace c = false -> trimEnd (c :: r) = c :: trimEnd r.
Proof.
  intros c r Hc. unfold trimEnd. simpl rev.
  rewrite trimStart_snoc by assumption. rewrite rev_app_distr. reflexivity.
Qed.

Lemma trimEnd_idem : forall s, trimEnd (trimEnd s) = trimEnd s.
Proof.
  intro s. unfold trimEnd. now rewrite rev_involutive, trimStart_idem.
Qed.

Lemma trimStart_trimEnd : forall s,
  trimStart (trimEnd (trimStart s)) = trimEnd (trimStart s).
Proof.
  intro s. destruct (trimStart s) as [|c r] eqn:Hs; [reflexivity|].
  pose proof (trimStart_head _ _ _ Hs) as Hc.
  rewrite trimEnd_cons by assumption. simpl. now rewrite Hc.
Qed.

Lemma trim_idem : forall s, trim (trim s) = trim s.
Proof.
  intro s. unfold trim. now rewrite trimStart_trimEnd, trimEnd_idem.
Qed.

(** A text that begins and ends with no white space is its own [trim]. *)
Lemma trim_fixed : forall c mid d,
  isWhiteSpace c = false -> isWhiteSpace d = false ->
  trim (c :: mid ++ [d]) = c :: mid ++ [d].
Proof.
  intros c mid d Hc Hd. unfold trim.
  replace (trimStart (c :: mid ++ [d])) with (c :: mid ++ [d])
    by (simpl; now rewrite Hc).
  unfold trimEnd.
  assert (rev (c :: mid ++ [d]) = d :: rev (c :: mid)) as Hrev.
  { rewrite app_comm_cons, rev_app_distr. reflexivity. }
  rewrite Hrev. cbn [trimStart]. rewrite Hd, <- Hrev. apply rev_involutive.
Qed.

Lemma is16bit_trimStart : forall s,
  Stored.is16bit s = true -> Stored.is16bit (trimStart s) = true.
Proof.
  induction s as [|c r IH]; intro H; [reflexivity|]. simpl.
  destruct (isWhiteSpace c); [|exact H].
  apply IH. unfold Stored.is16bit in *. simpl in H.
  now apply andb_true_iff in H as [_ H].
Qed.

Lemma is16bit_rev : forall s, Stored.is16bit (rev s) = Stored.is16bit s.
Proof.
  intro s. unfold Stored.is16bit. induction s as [|c r IH]; [reflexivity|].
  simpl. rewrite forallb_app, IH. simpl. rewrite andb_true_r. apply andb_comm.
Qed.

Lemma is16bit_trim : forall s,
  Stored.is16bit s = true -> Stored.is16bit (trim s) = true.
Proof.
  intros s H. unfold trim, trimEnd. rewrite is16bit_rev.
  apply is16bit_trimStart. rewrite is16bit_rev. now apply is16bit_trimStart.
Qed.

(** ** What is stored is read back *)

Lemma readItem_stringifyEntries : forall entries,
  entries16bit entries = true ->
  Stored.readItem (Some (Stored.stringifyEntries entries))
  = JArr (map (fun e => objectOf (Stored.entryProps e)) entries).
Proof.
  intros entries H. unfold Stored.readItem.
  assert (isEmpty (Stored.stringifyEntries entries) = false) as ->
    by (unfold Stored.stringifyEntries, stringifyArray; reflexivity).
  unfold Stored.stringifyEntries.
  rewrite (JSON_parse_stringifyArray _ 5%nat).
  - rewrite map_map. reflexivity.
  - unfold entries16bit in H. rewrite forallb_forall in *.
    intros props Hin. apply in_map_iff in Hin as [e [<- He]].
    specialize (H e He). apply andb_true_iff in H as [H Ht].
    apply andb_true_iff in H as [Hn Hd].
    unfold props16bit, Stored.entryProps. cbn [forallb fst snd].
    rewrite Hn, Hd, Ht. reflexivity.
  - apply Forall_forall. intros props Hin.
    apply in_map_iff in Hin as [e [<- _]]. simpl. lia.
  - lia.
Qed.

(** X1: [writeAttendance] then [readAttendance], on the stored text.  For
    every list of entries (of JavaScript strings), the text
    [JSON.stringify(entries)] that [writeAttendance] stores is read back by
    [readAttendance] as the array of the same entries, each with its
    [name], [deviceId] and [timestamp], in the same order; an absent or
    empty item, or one that is no JSON, is read as the empty list. *)
Theorem stored_list_read_back :
  (forall entries,
      entries16bit entries = true ->
      Stored.readItem (Some (Stored.stringifyEntries entries))
      = JArr (map (fun e =>
                     JObj [(js "name", JStr (Attendance.name e));
                           (js "deviceId", JStr (Attendance.deviceId e));
                           (js "timestamp", JStr (Attendance.timestamp e))])
                entries))
  /\ Stored.readItem None = JArr []
  /\ Stored.readItem (Some []) = JArr []
  /\ (forall raw, JSON_parse raw = None -> Stored.readItem (Some raw) = JArr []).
Proof.
  split; [|split; [reflexivity|split; [reflexivity|]]].
  - intros entries H. rewrite readItem_stringifyEntries by assumption.
    reflexivity.
  - intros raw H. unfold Stored.readItem. rewrite H. now destruct (isEmpty raw).
Qed.

(** Two entries, one of them with a quote, a line feed and a lone
    surrogate in its name. *)
Lemma stored_list_read_back_witness :
  let l := [Attendance.mkEntry (js "Ann") (js "dev-1") (toISOString 1000);
            Attendance.mkEntry [34; 10; 55357; 66]%N (js "dev-1") (toISOString 0)] in
  entries16bit l = true
  /\ Stored.readItem (Some (Stored.stringifyEntries l))
     = JArr (map (fun e => objectOf (Stored.entryProps e)) l)
  /\ JSON_parse (js "not json") = None
  /\ Stored.readItem (Some (js "not json")) = JArr [].
Proof.
  intro l. destruct stored_list_read_back as [H1 [_ [_ H4]]].
  assert (entries16bit l = true) as H16 by reflexivity.
  assert (JSON_parse (js "not json") = None) as Hn by reflexivity.
  split; [exact H16|]. split; [exact (H1 l H16)|]. split; [exact Hn|].
  exact (H4 _ Hn).
Defined.

(** ** The student's code, scanned *)

Lemma qrValue_text : forall name deviceId,
  trim name <> [] -> deviceId <> [] ->
  Student.qrValue name deviceId
  = stringifyObject [(js "name", trim name); (js "deviceId", deviceId)].
Proof.
  intros name deviceId Hn Hd. unfold Student.qrValue.
  apply isEmpty_false in Hn, Hd. now rewrite Hn, Hd.
Qed.

Lemma stringifyObject_trim : forall props,
  trim (stringifyObject props) = stringifyObject props.
Proof.
  intro props. unfold stringifyObject.
  change (js "{") with [123%N]. change (js "}") with [125%N].
  cbn [app]. now apply trim_fixed.
Qed.

Lemma qrValue_parses : forall name deviceId,
  trim name <> [] -> deviceId <> [] ->
  Stored.is16bit name = true -> Stored.is16bit deviceId = true ->
  JSON_parse (Student.qrValue name deviceId)
  = Some (JObj [(js "name", JStr (trim name)); (js "deviceId", JStr deviceId)]).
Proof.
  intros name deviceId Hn Hd Hn16 Hd16. rewrite qrValue_text by assumption.
  rewrite JSON_parse_stringifyObject; [reflexivity|].
  unfold props16bit. cbn [forallb fst snd].
  rewrite is16bit_trim, Hd16 by assumption. reflexivity.
Qed.

Lemma scanNameKeys_cons : forall parsed key rest,
  ScanLog.scanNameKeys parsed (key :: rest) =
  match hasOwnProperty parsed key with
  | None => None
  | Some true =>
      match getMember parsed key with
      | Some (JStr value) =>
          if isEmpty (trim value) then ScanLog.scanNameKeys parsed rest
          else Some (Some (trim value))
      | _ => ScanLog.scanNameKeys parsed rest
      end
  | Some false => ScanLog.scanNameKeys parsed rest
  end.
Proof. reflexivity. Qed.

(** An object with a [name] that is a string and not blank. *)
Lemma scanNameKeys_name : forall props nm,
  getProp props (js "name") = Some (JStr nm) -> trim nm <> [] ->
  ScanLog.scanNameKeys (JObj props) ScanLog.nameCandidateKeys = Some (Some (trim nm)).
Proof.
  intros props nm Hg Hn. unfold ScanLog.nameCandidateKeys.
  cbn [map]. rewrite scanNameKeys_cons. cbn [hasOwnProperty getMember].
  rewrite Hg. apply isEmpty_false in Hn. now rewrite Hn.
Qed.

Lemma scanDeviceKeys_cons_string : forall props key rest value,
  getProp props key = Some (JStr value) ->
  ScanLog.scanDeviceKeys (JObj props) (key :: rest) =
  if 0 <? Z.of_nat (List.length (trim value)) then Some (Some (trim value))
  else ScanLog.scanDeviceKeys (JObj props) rest.
Proof.
  intros props key rest value H. cbn [ScanLog.scanDeviceKeys hasOwnProperty getMember].
  now rewrite H.
Qed.

(** An object with a [deviceId] that is a string and not blank. *)
Lemma scanDeviceKeys_deviceId : forall props id,
  getProp props (js "deviceId") = Some (JStr id) -> trim id <> [] ->
  ScanLog.scanDeviceKeys (JObj props) ScanLog.candidateKeys = Some (Some (trim id)).
Proof.
  intros props id Hg Hn. unfold ScanLog.candidateKeys. cbn [map].
  rewrite (scanDeviceKeys_cons_string _ _ _ _ Hg).
  destruct (trim id); [now contradiction Hn|reflexivity].
Qed.

(** X2: the code of the student page, read by the scan-log page.  For every
    name that is not blank and every device id that is not blank,
    [parseDeviceIdFromQrPayload] of the text the student page encodes
    returns the trimmed device id, the trimmed name and the object with
    these two properties. *)
Theorem student_code_on_scan_log : forall name deviceId,
  trim name <> [] -> trim deviceId <> [] ->
  Stored.is16bit name = true -> Stored.is16bit deviceId = true ->
  ScanLog.parseDeviceIdFromQrPayload (Student.qrValue name deviceId)
  = ScanLog.mkParsed (trim deviceId) (Some (trim name))
      (Some (JObj [(js "name", JStr (trim name)); (js "deviceId", JStr deviceId)])).
Proof.
  intros name deviceId Hn Hd Hn16 Hd16.
  assert (deviceId <> []) as Hd0 by (intros ->; now apply Hd).
  unfold ScanLog.parseDeviceIdFromQrPayload.
  rewrite (qrValue_text name deviceId) at 1 by assumption.
  rewrite stringifyObject_trim, <- qrValue_text by assumption.
  rewrite qrValue_parses by assumption.
  unfold ScanLog.parseParsed.
  rewrite (scanNameKeys_name _ (trim name)); [|reflexivity|now rewrite trim_idem].
  rewrite trim_idem.
  rewrite (scanDeviceKeys_deviceId _ deviceId); [|reflexivity|assumption].
  unfold ScanLog.combineFirstLast.
  apply isEmpty_false in Hn. now rewrite Hn.
Qed.

Lemma student_code_on_scan_log_witness :
  trim (js " Ann Lee ") <> [] /\ trim (js "d1") <> []
  /\ ScanLog.p_deviceId
       (ScanLog.parseDeviceIdFromQrPayload (Student.qrValue (js " Ann Lee ") (js "d1")))
     = js "d1"
  /\ ScanLog.p_name
       (ScanLog.parseDeviceIdFromQrPayload (Student.qrValue (js " Ann Lee ") (js "d1")))
     = Some (js "Ann Lee").
Proof.
  assert (trim (js " Ann Lee ") <> []) as H1 by (vm_compute; discriminate).
  assert (trim (js "d1") <> []) as H2 by (vm_compute; discriminate).
  pose proof (student_code_on_scan_log (js " Ann Lee ") (js "d1") H1 H2
                eq_refl eq_refl) as H.
  split; [exact H1|]. split; [exact H2|].
  split; [exact (f_equal ScanLog.p_deviceId H)|exact (f_equal ScanLog.p_name H)].
Defined.

Lemma trimmedField_object_string : forall props key value,
  getProp props key = Some (JStr value) ->
  Roster.trimmedField (JObj props) key = Some (trim value).
Proof.
  intros props key value H. unfold Roster.trimmedField. cbn [truthy getMember].
  rewrite H. cbn [truthy]. destruct value; reflexivity.
Qed.

(** [handleDecode] once the two fields are read. *)
Lemma roster_handleDecode_fields : forall now result s nm id,
  Roster.justScanned s = false ->
  Roster.trimmedField (Roster.parsePayload result) (js "name") = Some nm ->
  Roster.trimmedField (Roster.parsePayload result) (js "deviceId") = Some id ->
  snd (Roster.handleDecode now result s) =
    if isEmpty nm then Roster.NoValidName
    else if negb (isEmpty id)
            && existsb (fun e => jseqb (Attendance.deviceId e) id) (Roster.entries s)
         then Roster.DeviceAlready
         else Roster.Submitted
                (snd (Attendance.addEntry (Roster.deviceIdRef s) now nm (Roster.entries s))).
Proof.
  intros now result s nm id Hj Hn Hd. unfold Roster.handleDecode.
  rewrite Hj. cbv zeta. rewrite Hn, Hd.
  destruct (isEmpty nm); [reflexivity|].
  cbn [Roster.entries Roster.setInfoMessage Roster.setScanError Roster.setTimeout
       Roster.setTimers Roster.setJustScanned].
  destruct (negb (isEmpty id) && _); [reflexivity|].
  rewrite roster_addEntry_cases, addEntry_outcome_cases.
  cbn [Roster.entries Roster.deviceIdRef Roster.setInfoMessage Roster.setScanError
       Roster.setTimeout Roster.setTimers Roster.setJustScanned].
  destruct (isEmpty (trim nm)); [reflexivity|].
  destruct (Attendance.nameExists (Roster.entries s) (trim nm)); reflexivity.
Qed.

Lemma addEntry_trim : forall dev now nameRaw entries,
  Attendance.addEntry dev now (trim nameRaw) entries
  = Attendance.addEntry dev now nameRaw entries.
Proof. intros. rewrite !addEntry_outcome_cases, trim_idem. reflexivity. Qed.

(** X3: the code of the student page, scanned on the name-keyed page.  For
    every name that is not blank and every device id, a scan that is not
    debounced of the text the student page encodes is rejected as "already
    checked in" when a record carries the (trimmed, non-empty) device id of
    the code, and is otherwise submitted to [addEntry] under the student's
    name. *)
Theorem student_code_on_roster : forall now name deviceId s,
  trim name <> [] -> deviceId <> [] ->
  Stored.is16bit name = true -> Stored.is16bit deviceId = true ->
  Roster.justScanned s = false ->
  snd (Roster.handleDecode now (Student.qrValue name deviceId) s) =
    if negb (isEmpty (trim deviceId))
       && existsb (fun e => jseqb (Attendance.deviceId e) (trim deviceId))
            (Roster.entries s)
    then Roster.DeviceAlready
    else Roster.Submitted
           (snd (Attendance.addEntry (Roster.deviceIdRef s) now name (Roster.entries s))).
Proof.
  intros now name deviceId s Hn Hd Hn16 Hd16 Hj.
  assert (Roster.parsePayload (Student.qrValue name deviceId)
          = JObj [(js "name", JStr (trim name)); (js "deviceId", JStr deviceId)]) as Hp.
  { unfold Roster.parsePayload. now rewrite qrValue_parses. }
  rewrite (roster_handleDecode_fields now _ s (trim (trim name)) (trim deviceId) Hj).
  - rewrite trim_idem. apply isEmpty_false in Hn. rewrite Hn.
    now rewrite addEntry_trim.
  - rewrite Hp. now apply trimmedField_object_string.
  - rewrite Hp. now apply trimmedField_object_string.
Qed.

Lemma student_code_on_roster_witness :
  let s := Roster.mount (js "dev-1") Attendance.emptyStorage in
  (trim (js " Ann ") <> [] /\ js "d1" <> [] /\ Roster.justScanned s = false)
  /\ snd (Roster.handleDecode 1000 (Student.qrValue (js " Ann ") (js "d1")) s)
     = Roster.Submitted
         (Attendance.Accepted
            (Attendance.mkEntry (js "Ann") (js "dev-1") (toISOString 1000))).
Proof.
  intro s.
  assert (trim (js " Ann ") <> []) as H1 by (vm_compute; discriminate).
  assert (js "d1" <> []) as H2 by discriminate.
  split; [repeat split; assumption|].
  rewrite (student_code_on_roster 1000 (js " Ann ") (js "d1") s H1 H2
             eq_refl eq_refl eq_refl).
  reflexivity.
Defined.

(** X4: a text that is JSON but no object is no name.  When [JSON.parse]
    accepts the scanned text and the value is not an object (a number, a
    string, an array, [true], [false], [null]), a scan that is not
    debounced reports "QR does not contain a valid name." and the list is
    unchanged: a bare name such as "2024" or "null" cannot be scanned in. *)
Theorem roster_json_scalar_is_no_name : forall now result v s,
  JSON_parse result = Some v ->
  (forall props, v <> JObj props) ->
  Roster.justScanned s = false ->
  snd (Roster.handleDecode now result s) = Roster.NoValidName
  /\ Roster.entries (fst (Roster.handleDecode now result s)) = Roster.entries s
  /\ Roster.scanError (fst (Roster.handleDecode now result s))
     = Some (js "QR does not contain a valid name.").
Proof.
  intros now result v s Hp Hv Hj.
  assert (forall key, Roster.trimmedField (Roster.parsePayload result) key = Some []) as Hf.
  { intro key. unfold Roster.parsePayload, Roster.trimmedField. rewrite Hp.
    destruct v; try (destruct (truthy _); reflexivity).
    now contradiction (Hv props). }
  unfold Roster.handleDecode. rewrite Hj. cbv zeta. rewrite !Hf.
  repeat split; reflexivity.
Qed.

Lemma roster_json_scalar_is_no_name_witness :
  let s := Roster.mount (js "dev-1") Attendance.emptyStorage in
  JSON_parse (js "2024") = Some (JNum 2024 0)
  /\ Roster.justScanned s = false
  /\ snd (Roster.handleDecode 1000 (js "2024") s) = Roster.NoValidName.
Proof.
  intro s.
  assert (JSON_parse (js "2024") = Some (JNum 2024 0)) as Hp by reflexivity.
  split; [exact Hp|]. split; [reflexivity|].
  refine (proj1 (roster_json_scalar_is_no_name 1000 (js "2024") _ s Hp _ eq_refl)).
  intros props. discriminate.
Defined.

(** ** The scan-log page: what a payload decodes to *)

Lemma length_pos_nonempty : forall s : jsstring,
  (0 <? Z.of_nat (List.length s)) = negb (isEmpty s).
Proof. destruct s; reflexivity. Qed.

Lemma scanDeviceKeys_trimmed : forall parsed keys id,
  ScanLog.scanDeviceKeys parsed keys = Some (Some id) ->
  id <> [] /\ trim id = id.
Proof.
  intros parsed keys id. induction keys as [|k keys IH]; simpl; [discriminate|].
  destruct (hasOwnProperty parsed k) as [[|]|]; try discriminate; [|exact IH].
  destruct (getMember parsed k) as [[| | |v| |ps]|]; try exact IH.
  - rewrite length_pos_nonempty.
    destruct (isEmpty (trim v)) eqn:He; simpl; [exact IH|].
    intro H. injection H as <-. split; [now apply isEmpty_false|apply trim_idem].
  - destruct (getProp ps (js "id")) as [idv|]; [|exact IH].
    destruct (truthy idv); [|exact IH].
    destruct (toString idv) as [str|]; [|discriminate].
    rewrite length_pos_nonempty.
    destruct (isEmpty (trim str)) eqn:He; simpl; [exact IH|].
    intro H. injection H as <-. split; [now apply isEmpty_false|apply trim_idem].
Qed.

Lemma scanIdLikeEntries_trimmed : forall entries id,
  ScanLog.scanIdLikeEntries entries = Some id -> id <> [] /\ trim id = id.
Proof.
  induction entries as [|[k v] entries IH]; intros id; simpl; [discriminate|].
  destruct v; try apply IH.
  destruct (testId k && negb (isEmpty (trim s))) eqn:Hc; [|apply IH].
  apply andb_true_iff in Hc as [_ Hn]. apply negb_true_iff in Hn.
  intro H. injection H as <-. split; [now apply isEmpty_false|apply trim_idem].
Qed.

Lemma scanNameKeys_trimmed : forall parsed keys n,
  ScanLog.scanNameKeys parsed keys = Some (Some n) -> n <> [] /\ trim n = n.
Proof.
  intros parsed keys n. induction keys as [|k keys IH]; simpl; [discriminate|].
  destruct (hasOwnProperty parsed k) as [[|]|]; try discriminate; [|exact IH].
  destruct (getMember parsed k) as [[| | |v| |ps]|]; try exact IH.
  destruct (isEmpty (trim v)) eqn:He; [exact IH|].
  intro H. injection H as <-. split; [now apply isEmpty_false|apply trim_idem].
Qed.

Lemma JSON_parse_nonempty : forall s v, JSON_parse s = Some v -> s <> [].
Proof. intros s v H ->. discriminate. Qed.

(** The cases of [parseDeviceIdFromQrPayload]. *)
Lemma parse_cases : forall payload,
  let r := ScanLog.parseDeviceIdFromQrPayload payload in
  (ScanLog.p_deviceId r = trim payload
   \/ (ScanLog.p_deviceId r <> [] /\ trim (ScanLog.p_deviceId r) = ScanLog.p_deviceId r
       /\ trim payload <> []))
  /\ forall n, ScanLog.p_name r = Some n -> n <> [] /\ trim n = n.
Proof.
  intros payload r. subst r. unfold ScanLog.parseDeviceIdFromQrPayload.
  destruct (JSON_parse (trim payload)) as [parsed|] eqn:Hp;
    [|split; [now left|discriminate]].
  apply JSON_parse_nonempty in Hp.
  unfold ScanLog.parseParsed.
  destruct (ScanLog.scanNameKeys parsed ScanLog.nameCandidateKeys) as [found|] eqn:Hn;
    [|split; [now left|discriminate]].
  rewrite (combineFirstLast_dead _ _ Hn).
  assert (forall n, found = Some n -> n <> [] /\ trim n = n) as Hname.
  { intros n ->. now apply (scanNameKeys_trimmed _ _ _ Hn). }
  destruct (ScanLog.scanDeviceKeys parsed ScanLog.candidateKeys) as [[id|]|] eqn:Hd.
  - split; [right|exact Hname].
    destruct (scanDeviceKeys_trimmed _ _ _ Hd). now repeat split.
  - destruct (ScanLog.scanIdLikeEntries (Object_entries parsed)) as [id|] eqn:He.
    + split; [right|exact Hname].
      destruct (scanIdLikeEntries_trimmed _ _ He). now repeat split.
    + split; [now left|exact Hname].
  - split; [now left|discriminate].
Qed.

(** X5: what [parseDeviceIdFromQrPayload] returns, for every payload.  The
    device id is trimmed, and it is empty exactly when the payload is
    blank; a name, when one is returned, is trimmed and not empty; white
    space around the payload changes nothing. *)
Theorem parse_payload_normal_form : forall payload,
  let r := ScanLog.parseDeviceIdFromQrPayload payload in
  trim (ScanLog.p_deviceId r) = ScanLog.p_deviceId r
  /\ (ScanLog.p_deviceId r = [] <-> trim payload = [])
  /\ (forall n, ScanLog.p_name r = Some n -> n <> [] /\ trim n = n)
  /\ ScanLog.parseDeviceIdFromQrPayload (trim payload) = r.
Proof.
  intros payload r. destruct (parse_cases payload) as [Hid Hname]. fold r in Hid, Hname.
  split; [|split; [|split]].
  - destruct Hid as [->|[_ [H _]]]; [apply trim_idem|exact H].
  - destruct Hid as [->|[H1 [_ H2]]]; [tauto|]. split; intro; contradiction.
  - exact Hname.
  - subst r. unfold ScanLog.parseDeviceIdFromQrPayload. now rewrite trim_idem.
Qed.

(** X6: "No device id found in QR" is reported for blank texts only.  For
    every decode event that is not debounced, [handleDecoded] leaves
    through that return exactly when the text is white space only; the
    list of scans is then unchanged. *)
Theorem no_device_id_iff_blank : forall now text s,
  (jseqb (ScanLog.lastRaw s) text && (now - ScanLog.lastTime s <? 1500)) = false ->
  (snd (ScanLog.handleDecoded now text s) = ScanLog.NoDeviceId <-> trim text = [])
  /\ (trim text = [] ->
      ScanLog.scannedItems (fst (ScanLog.handleDecoded now text s))
      = ScanLog.scannedItems s
      /\ ScanLog.statusMessage (fst (ScanLog.handleDecoded now text s))
         = js "No device id found in QR").
Proof.
  intros now text s Hnd.
  destruct (parse_payload_normal_form text) as [_ [Hiff _]].
  unfold ScanLog.handleDecoded. rewrite Hnd.
  destruct (isEmpty (ScanLog.p_deviceId (ScanLog.parseDeviceIdFromQrPayload text)))
    eqn:He.
  - apply isEmpty_true in He. apply Hiff in He. repeat split; auto.
  - apply isEmpty_false in He.
    assert (trim text <> []) as Hne by (intro H; apply He; now apply Hiff).
    split; [|intro; contradiction].
    destruct (ScanLog.deviceIdSet_has _ _); split; try discriminate;
      intro; contradiction.
Qed.

Lemma no_device_id_iff_blank_witness :
  let s := ScanLog.mount None in
  (jseqb (ScanLog.lastRaw s) (js "  ") && (5000 - ScanLog.lastTime s <? 1500)) = false
  /\ trim (js "  ") = []
  /\ snd (ScanLog.handleDecoded 5000 (js "  ") s) = ScanLog.NoDeviceId.
Proof.
  intro s.
  destruct (no_device_id_iff_blank 5000 (js "  ") s eq_refl) as [[_ H] _].
  split; [reflexivity|]. split; [reflexivity|]. exact (H eq_refl).
Defined.

(** ** The scan-log page: its list *)

Lemma deviceIdSet_has_iff : forall s id,
  ScanLog.deviceIdSet_has s id = true
  <-> In id (map ScanLog.deviceId (ScanLog.scannedItems s)).
Proof.
  intros s id. unfold ScanLog.deviceIdSet_has. rewrite existsb_exists, in_map_iff.
  split; intros [i [H1 H2]]; exists i.
  - apply jseqb_eq in H2. tauto.
  - split; [tauto|]. apply jseqb_eq. tauto.
Qed.


(** [handleDecoded] on the list, return by return. *)
Lemma handleDecoded_items : forall now text s,
  let r := ScanLog.parseDeviceIdFromQrPayload text in
  let s' := fst (ScanLog.handleDecoded now text s) in
  match snd (ScanLog.handleDecoded now text s) with
  | ScanLog.Saved item =>
      item = ScanLog.mkItem (ScanLog.p_deviceId r) text (ScanLog.p_name r)
               (ScanLog.p_metadata r) now
      /\ ScanLog.scannedItems s' = item :: ScanLog.scannedItems s
      /\ ScanLog.p_deviceId r <> []
      /\ ~ In (ScanLog.p_deviceId r) (map ScanLog.deviceId (ScanLog.scannedItems s))
  | ScanLog.DuplicateIgnored id =>
      id = ScanLog.p_deviceId r
      /\ ScanLog.scannedItems s' = ScanLog.scannedItems s
      /\ In id (map ScanLog.deviceId (ScanLog.scannedItems s))
  | _ => ScanLog.scannedItems s' = ScanLog.scannedItems s
  end.
Proof.
  intros now text s r s'. subst s'. unfold ScanLog.handleDecoded. fold r.
  destruct (jseqb (ScanLog.lastRaw s) text && (now - ScanLog.lastTime s <? 1500));
    [reflexivity|].
  destruct (isEmpty (ScanLog.p_deviceId r)) eqn:He; [reflexivity|].
  apply isEmpty_false in He.
  destruct (ScanLog.deviceIdSet_has (ScanLog.setLast text now s) (ScanLog.p_deviceId r))
    eqn:Hh; cbn [fst snd].
  - apply deviceIdSet_has_iff in Hh. repeat split; auto.
  - repeat split; auto. intro Hin.
    apply (deviceIdSet_has_iff (ScanLog.setLast text now s)) in Hin. congruence.
Qed.








(** X8: a saved payload is not saved again.  When a decode event has been
    saved, a later event that is not debounced and decodes to the same
    device id (the same text 1500 ms later or more, or any other text with
    that id) is reported as a duplicate and the list is unchanged. *)
Theorem saved_then_duplicate : forall now1 now2 text1 text2 s item,
  snd (ScanLog.handleDecoded now1 text1 s) = ScanLog.Saved item ->
  ScanLog.p_deviceId (ScanLog.parseDeviceIdFromQrPayload text2) = ScanLog.deviceId item ->
  text2 <> text1 \/ 1500 <= now2 - now1 ->
  let s1 := fst (ScanLog.handleDecoded now1 text1 s) in
  snd (ScanLog.handleDecoded now2 text2 s1) = ScanLog.DuplicateIgnored (ScanLog.deviceId item)
  /\ ScanLog.scannedItems (fst (ScanLog.handleDecoded now2 text2 s1))
     = ScanLog.scannedItems s1.
Proof.
  intros now1 now2 text1 text2 s item Hsaved Hid Hnd s1.
  pose proof (handleDecoded_items now1 text1 s) as H1. cbv zeta in H1.
  rewrite Hsaved in H1. destruct H1 as [Hitem [Hitems [Hne _]]]. fold s1 in Hitems.
  assert (snd (ScanLog.handleDecoded now1 text1 s) <> ScanLog.Debounced) as Hnd1
    by (rewrite Hsaved; discriminate).
  destruct (handleDecoded_last now1 text1 s Hnd1) as [Hraw Htime].
  fold s1 in Hraw, Htime.
  assert (ScanLog.deviceId item = ScanLog.p_deviceId (ScanLog.parseDeviceIdFromQrPayload text1))
    as Hdev by (rewrite Hitem; reflexivity).
  unfold ScanLog.handleDecoded.
  assert ((jseqb (ScanLog.lastRaw s1) text2 && (now2 - ScanLog.lastTime s1 <? 1500)) = false)
    as ->.
  { rewrite Hraw, Htime. apply andb_false_iff. destruct Hnd as [Hne2|Hlate].
    - left. destruct (jseqb text1 text2) eqn:E; [|reflexivity].
      apply jseqb_eq in E. now contradiction Hne2.
    - right. apply Z.ltb_ge. exact Hlate. }
  rewrite Hid.
  assert (isEmpty (ScanLog.deviceId item) = false) as ->
    by (apply isEmpty_false; rewrite Hdev; exact Hne).
  assert (ScanLog.deviceIdSet_has (ScanLog.setLast text2 now2 s1) (ScanLog.deviceId item)
          = true) as ->.
  { apply deviceIdSet_has_iff. cbn [ScanLog.scannedItems ScanLog.setLast].
    rewrite Hitems. left. reflexivity. }
  split; reflexivity.
Qed.

Lemma saved_then_duplicate_witness :
  let s := ScanLog.mount None in
  let text1 := jsq "{'name':'Ann','deviceId':'d1'}" in
  let item := ScanLog.mkItem (js "d1") text1 (Some (js "Ann"))
                (JSON_parse text1) 1000 in
  snd (ScanLog.handleDecoded 1000 text1 s) = ScanLog.Saved item
  /\ ScanLog.p_deviceId (ScanLog.parseDeviceIdFromQrPayload (js " d1 ")) = js "d1"
  /\ snd (ScanLog.handleDecoded 1100 (js " d1 ")
            (fst (ScanLog.handleDecoded 1000 text1 s)))
     = ScanLog.DuplicateIgnored (js "d1").
Proof.
  intros s text1 item.
  assert (snd (ScanLog.handleDecoded 1000 text1 s) = ScanLog.Saved item) as H1
    by (vm_compute; reflexivity).
  assert (ScanLog.p_deviceId (ScanLog.parseDeviceIdFromQrPayload (js " d1 "))
          = ScanLog.deviceId item) as H2 by (vm_compute; reflexivity).
  split; [exact H1|]. split; [exact H2|].
  refine (proj1 (saved_then_duplicate 1000 1100 text1 (js " d1 ") s item H1 H2 _)).
  left. vm_compute. discriminate.
Defined.

(** X9: Remove, then scan again.  [removeItem] keeps the other scans in
    their order and leaves no scan with the given device id; a decode event
    that is not debounced and decodes to that id is then saved anew. *)
Theorem remove_then_scan_again : forall id now text s,
  let s' := ScanLogPage.removeItem id s in
  ScanLog.scannedItems s'
  = filter (fun i => negb (jseqb (ScanLog.deviceId i) id)) (ScanLog.scannedItems s)
  /\ ~ In id (map ScanLog.deviceId (ScanLog.scannedItems s'))
  /\ (ScanLog.p_deviceId (ScanLog.parseDeviceIdFromQrPayload text) = id ->
      id <> [] ->
      (jseqb (ScanLog.lastRaw s) text && (now - ScanLog.lastTime s <? 1500)) = false ->
      exists item,
        snd (ScanLog.handleDecoded now text s') = ScanLog.Saved item
        /\ ScanLog.deviceId item = id
        /\ ScanLog.scannedItems (fst (ScanLog.handleDecoded now text s'))
           = item :: ScanLog.scannedItems s').
Proof.
  intros id now text s s'.
  assert (~ In id (map ScanLog.deviceId (ScanLog.scannedItems s'))) as Hnin.
  { subst s'. cbn [ScanLogPage.removeItem ScanLog.scannedItems ScanLog.setScannedItems].
    intro Hin. apply in_map_iff in Hin as [i [Hi Hin]].
    apply filter_In in Hin as [_ Hp]. apply negb_true_iff in Hp.
    rewrite <- Hi, jseqb_refl in Hp. discriminate. }
  split; [reflexivity|]. split; [exact Hnin|].
  intros Hid Hne Hnd.
  unfold ScanLog.handleDecoded.
  change (ScanLog.lastRaw s') with (ScanLog.lastRaw s).
  change (ScanLog.lastTime s') with (ScanLog.lastTime s).
  rewrite Hnd, Hid. apply isEmpty_false in Hne. rewrite Hne.
  assert (ScanLog.deviceIdSet_has (ScanLog.setLast text now s') id = false) as ->.
  { destruct (ScanLog.deviceIdSet_has (ScanLog.setLast text now s') id) eqn:E;
      [|reflexivity].
    apply deviceIdSet_has_iff in E. now contradiction Hnin. }
  eexists. repeat split.
Qed.

Lemma remove_then_scan_again_witness :
  let s := fst (ScanLog.handleDecoded 1000 (js "d1") (ScanLog.mount None)) in
  map ScanLog.deviceId (ScanLog.scannedItems s) = [js "d1"]
  /\ (ScanLog.p_deviceId (ScanLog.parseDeviceIdFromQrPayload (js "d1")) = js "d1"
      /\ js "d1" <> []
      /\ (jseqb (ScanLog.lastRaw s) (js "d1") && (9000 - ScanLog.lastTime s <? 1500)) = false)
  /\ ScanLog.scannedItems (ScanLogPage.removeItem (js "d1") s) = []
  /\ exists item,
       snd (ScanLog.handleDecoded 9000 (js "d1") (ScanLogPage.removeItem (js "d1") s))
       = ScanLog.Saved item.
Proof.
  intro s.
  destruct (remove_then_scan_again (js "d1") 9000 (js "d1") s) as [H1 [_ H3]].
  assert (js "d1" <> []) as Hne by discriminate.
  split; [reflexivity|]. split; [repeat split; [exact Hne]|].
  split; [reflexivity|].
  destruct (H3 eq_refl Hne eq_refl) as [item [Hi _]]. now exists item.
Defined.

(** ** The attendance list: what [addEntry] keeps *)

Lemma nameExists_false_key : forall entries nm,
  Attendance.nameExists entries nm = false ->
  ~ In (collationKey Accent nm) (map nameKey entries).
Proof.
  intros entries nm H Hin. apply in_map_iff in Hin as [e [Hk He]].
  assert (Attendance.nameExists entries nm = true) as Habs; [|congruence].
  apply nameExists_iff. exists e. split; [assumption|].
  apply localeCompare_zero. exact Hk.
Qed.

Lemma addEntry_ledgerOk : forall dev now nameRaw entries,
  ledgerOk entries -> ledgerOk (fst (Attendance.addEntry dev now nameRaw entries)).
Proof.
  intros dev now nameRaw entries [Hn Hf]. rewrite addEntry_outcome_cases.
  destruct (isEmpty (trim nameRaw)) eqn:He; [now split|].
  destruct (Attendance.nameExists entries (trim nameRaw)) eqn:Hx; [now split|].
  split; cbn [fst map].
  - constructor; [|assumption]. now apply nameExists_false_key.
  - constructor; [|assumption]. cbn. split; [now apply isEmpty_false|apply trim_idem].
Qed.

(** X10: submitting a name again.  Once [addEntry] has accepted a name, a
    later [addEntry] of the same text, or of any text whose trimmed form is
    not empty and compares equal to the accepted name at sensitivity
    [accent], takes the duplicate return and leaves the list as it is,
    whatever the device and the time. *)
Theorem addEntry_again_is_duplicate :
  forall dev dev' now now' nameRaw entries e,
    snd (Attendance.addEntry dev now nameRaw entries) = Attendance.Accepted e ->
    let ledger := fst (Attendance.addEntry dev now nameRaw entries) in
    Attendance.addEntry dev' now' nameRaw ledger = (ledger, Attendance.DuplicateName)
    /\ forall nameRaw',
         trim nameRaw' <> [] ->
         localeCompare Accent (trim nameRaw) (trim nameRaw') = 0 ->
         Attendance.addEntry dev' now' nameRaw' ledger
         = (ledger, Attendance.DuplicateName).
Proof.
  intros dev dev' now now' nameRaw entries e Hacc ledger.
  assert (forall nameRaw',
             trim nameRaw' <> [] ->
             localeCompare Accent (trim nameRaw) (trim nameRaw') = 0 ->
             Attendance.addEntry dev' now' nameRaw' ledger
             = (ledger, Attendance.DuplicateName)) as Hdup.
  { intros nameRaw' Hne Hz. subst ledger.
    rewrite (addEntry_outcome_cases dev now nameRaw entries) in *.
    destruct (isEmpty (trim nameRaw)); [discriminate|].
    destruct (Attendance.nameExists entries (trim nameRaw)); [discriminate|].
    cbn [fst snd] in *. rewrite addEntry_outcome_cases.
    apply isEmpty_false in Hne. rewrite Hne.
    assert (Attendance.nameExists
              (Attendance.mkEntry (trim nameRaw) dev (toISOString now) :: entries)
              (trim nameRaw') = true) as ->; [|reflexivity].
    apply nameExists_iff. eexists. split; [left; reflexivity|exact Hz]. }
  split; [|exact Hdup].
  apply Hdup; [|apply localeCompare_refl].
  rewrite (addEntry_outcome_cases dev now nameRaw entries) in Hacc.
  destruct (isEmpty (trim nameRaw)) eqn:He; [discriminate|].
  now apply isEmpty_false.
Qed.

Lemma addEntry_again_is_duplicate_witness :
  let l := fst (Attendance.addEntry (js "dev-1") 1000 (js "Ann Lee") []) in
  snd (Attendance.addEntry (js "dev-1") 1000 (js "Ann Lee") [])
  = Attendance.Accepted (Attendance.mkEntry (js "Ann Lee") (js "dev-1") (toISOString 1000))
  /\ trim (js "  ANN lee ") <> []
  /\ localeCompare Accent (trim (js "Ann Lee")) (trim (js "  ANN lee ")) = 0
  /\ Attendance.addEntry (js "dev-2") 2000 (js "  ANN lee ") l
     = (l, Attendance.DuplicateName).
Proof.
  intro l.
  assert (trim (js "  ANN lee ") <> []) as Hne by (vm_compute; discriminate).
  assert (localeCompare Accent (trim (js "Ann Lee")) (trim (js "  ANN lee ")) = 0)
    as Hz by (vm_compute; reflexivity).
  split; [reflexivity|]. split; [exact Hne|]. split; [exact Hz|].
  exact (proj2 (addEntry_again_is_duplicate (js "dev-1") (js "dev-2") 1000 2000
                  (js "Ann Lee") [] _ eq_refl) (js "  ANN lee ") Hne Hz).
Defined.

(** X11: [getOrCreateDeviceId] creates once.  When the random source yields
    a string that is not empty, the id returned is not empty and is the one
    stored afterwards; a later call returns the same id and stores nothing,
    whatever the random source would yield; the stored list and the stored
    attempt flag are never touched; an id already stored is returned as it
    is. *)
Theorem getOrCreateDeviceId_creates_once : forall fresh fresh' ls,
  fresh <> [] ->
  let id := fst (Attendance.getOrCreateDeviceId fresh ls) in
  let ls1 := snd (Attendance.getOrCreateDeviceId fresh ls) in
  id <> []
  /\ Attendance.storedDeviceId ls1 = Some id
  /\ Attendance.getOrCreateDeviceId fresh' ls1 = (id, ls1)
  /\ Attendance.attendanceList ls1 = Attendance.attendanceList ls
  /\ Attendance.selfAttemptedItem ls1 = Attendance.selfAttemptedItem ls
  /\ (forall old, Attendance.storedDeviceId ls = Some old -> old <> [] ->
                  id = old /\ ls1 = ls).
Proof.
  intros fresh fresh' ls Hf id ls1. subst id ls1.
  unfold Attendance.getOrCreateDeviceId.
  pose proof Hf as Hf'. apply isEmpty_false in Hf'.
  destruct (Attendance.storedDeviceId ls) as [old|] eqn:Hs.
  - destruct (isEmpty old) eqn:Ho; cbn [fst snd Attendance.storedDeviceId
      Attendance.attendanceList Attendance.selfAttemptedItem].
    + rewrite Hf'.
      split; [exact Hf|]. do 4 (split; [reflexivity|]).
      intros old' Hold Hne. injection Hold as <-.
      apply isEmpty_false in Hne. congruence.
    + rewrite Hs, Ho.
      split; [now apply isEmpty_false|]. do 4 (split; [reflexivity|]).
      intros old' Hold _. injection Hold as <-. split; reflexivity.
  - cbn [fst snd Attendance.storedDeviceId Attendance.attendanceList
         Attendance.selfAttemptedItem].
    rewrite Hf'.
    split; [exact Hf|]. do 4 (split; [reflexivity|]).
    intros old' Hold. discriminate.
Qed.

Lemma getOrCreateDeviceId_creates_once_witness :
  js "uuid-1" <> []
  /\ Attendance.getOrCreateDeviceId (js "uuid-2")
       (snd (Attendance.getOrCreateDeviceId (js "uuid-1") Attendance.emptyStorage))
     = (js "uuid-1", Attendance.mkStorage None (Some (js "uuid-1")) None).
Proof.
  assert (js "uuid-1" <> []) as H by discriminate. split; [exact H|].
  exact (proj1 (proj2 (proj2 (getOrCreateDeviceId_creates_once
                                (js "uuid-1") (js "uuid-2") Attendance.emptyStorage H)))).
Defined.

(** ** The name-keyed pages: the list from a first visit on *)

Lemma addEntry_blank : forall dev now entries,
  fst (Attendance.addEntry dev now [] entries) = entries.
Proof. reflexivity. Qed.

(** Whatever a handler does to the list, it does through [addEntry]. *)
Lemma roster_handleDecode_entries : forall now result s,
  exists nm,
    Roster.entries (fst (Roster.handleDecode now result s))
    = fst (Attendance.addEntry (Roster.deviceIdRef s) now nm (Roster.entries s)).
Proof.
  intros now result s. unfold Roster.handleDecode.
  destruct (Roster.justScanned s); [now exists []|].
  destruct (Roster.trimmedField (Roster.parsePayload result) (js "name")) as [nm|];
    [|now exists []].
  destruct (Roster.trimmedField (Roster.parsePayload result) (js "deviceId")) as [id|];
    [|now exists []].
  destruct (isEmpty nm); [now exists []|].
  destruct (negb (isEmpty id) && _); [now exists []|].
  exists nm. rewrite roster_addEntry_cases, addEntry_outcome_cases.
  cbn [Roster.entries Roster.deviceIdRef Roster.setInfoMessage Roster.setScanError
       Roster.setTimeout Roster.setTimers Roster.setJustScanned].
  destruct (isEmpty (trim nm)); [reflexivity|].
  destruct (Attendance.nameExists (Roster.entries s) (trim nm)); reflexivity.
Qed.

Lemma roster_handleManualAdd_entries : forall now s,
  exists nm,
    Roster.entries (fst (Roster.handleManualAdd now s))
    = fst (Attendance.addEntry (Roster.deviceIdRef s) now nm (Roster.entries s)).
Proof.
  intros now s. unfold Roster.handleManualAdd.
  destruct (isEmpty (trim (Roster.manualName s))); [now exists []|].
  exists (Roster.manualName s). rewrite roster_addEntry_cases, addEntry_outcome_cases.
  destruct (isEmpty (trim (Roster.manualName s))); [reflexivity|].
  destruct (Attendance.nameExists (Roster.entries s) (trim (Roster.manualName s)));
    reflexivity.
Qed.

Lemma getOrCreateDeviceId_attendanceList : forall fresh ls,
  Attendance.attendanceList (snd (Attendance.getOrCreateDeviceId fresh ls))
  = Attendance.attendanceList ls.
Proof.
  intros fresh ls. unfold Attendance.getOrCreateDeviceId.
  destruct (Attendance.storedDeviceId ls) as [id|]; [|reflexivity].
  destruct (isEmpty id); reflexivity.
Qed.

Lemma roster_mount_entries : forall fresh ls,
  Roster.entries (Roster.mount fresh ls) = Attendance.readAttendance ls.
Proof.
  intros fresh ls. unfold Roster.mount.
  pose proof (getOrCreateDeviceId_attendanceList fresh ls) as H.
  cbn [Roster.localStorage Roster.initialState].
  destruct (Attendance.getOrCreateDeviceId fresh ls) as [id ls']. cbn in *.
  unfold Attendance.readAttendance. now rewrite H.
Qed.

Lemma roster_step_ledger : forall ev s,
  rosterOk s -> ledgerOk (Roster.entries s) ->
  ledgerOk (Roster.entries (fst (Roster.step ev s))).
Proof.
  intros ev s Hok Hl. destruct ev; cbn [Roster.step].
  - destruct (isEmpty rawValue); [exact Hl|].
    destruct (roster_handleDecode_entries now rawValue s) as [nm Hnm].
    destruct (Roster.handleDecode now rawValue s) as [s' o]. cbn [fst] in *.
    rewrite Hnm. now apply addEntry_ledgerOk.
  - destruct (Attendance.fireTimer now (Roster.timers s)); exact Hl.
  - exact Hl.
  - destruct (roster_handleManualAdd_entries now s) as [nm Hnm].
    destruct (Roster.handleManualAdd now s) as [s' o]. cbn [fst] in *.
    rewrite Hnm. now apply addEntry_ledgerOk.
  - unfold Roster.clearAll.
    cbn [Roster.localStorage Roster.setEntries].
    destruct (Attendance.getOrCreateDeviceId fresh _) as [id ls'].
    split; constructor.
  - cbn [fst]. rewrite roster_mount_entries.
    destruct Hok as [_ [_ [_ Hr]]]. now rewrite Hr.
Qed.

Lemma roster_reachable_ledger : forall s,
  Roster.reachable s -> ledgerOk (Roster.entries s).
Proof.
  intros s H. induction H as [fresh Hf|s ev Hr IH Hf].
  - rewrite roster_mount_entries. split; constructor.
  - apply roster_step_ledger; [now apply roster_reachable_ok|exact IH].
Qed.

Lemma roster_run_fst_cons : forall ev evs s,
  fst (Roster.run (ev :: evs) s) = fst (Roster.run evs (fst (Roster.step ev s))).
Proof.
  intros. simpl. destruct (Roster.step ev s) as [s1 o]. simpl.
  destruct (Roster.run evs s1). reflexivity.
Qed.

Lemma roster_reachable_run : forall evs s,
  Forall Roster.freshOk evs ->
  Roster.reachable s -> Roster.reachable (fst (Roster.run evs s)).
Proof.
  induction evs as [|ev evs IH]; intros s Hf H; [exact H|].
  inversion Hf; subst. rewrite roster_run_fst_cons. apply IH; [assumption|].
  now apply Roster.reach_step.
Qed.

(** ** The page with the lock, from a first visit on *)

Lemma gateOk_same : forall s s',
  Gate.entries s' = Gate.entries s ->
  Gate.deviceIdRef s' = Gate.deviceIdRef s ->
  Gate.localStorage s' = Gate.localStorage s ->
  Gate.selfAttempted s' = Gate.selfAttempted s ->
  gateOk s -> gateOk s'.
Proof.
  intros s s' He Hd Hl Ha H. unfold gateOk in *. now rewrite He, Hd, Hl, Ha.
Qed.

Lemma gate_addEntry_ok : forall now nameRaw s,
  gateOk s -> gateOk (fst (Gate.addEntry now nameRaw s)).
Proof.
  intros now nameRaw s H. pose proof H as [Hl [He [Hd [Hs [Hr Ha]]]]].
  pose proof (addEntry_ledgerOk (Gate.deviceIdRef s) now nameRaw (Gate.entries s) Hl)
    as Hl'.
  rewrite addEntry_outcome_cases in Hl'. rewrite addEntry_cases.
  destruct (isEmpty (trim nameRaw)); [exact H|].
  destruct (Attendance.nameExists (Gate.entries s) (trim nameRaw)); [exact H|].
  cbn [fst] in *. unfold gateOk.
  cbn [Gate.entries Gate.deviceIdRef Gate.localStorage Gate.selfAttempted
       Gate.setLocalStorage Gate.setEntries Attendance.writeAttendance
       Attendance.storedDeviceId Attendance.selfAttemptedItem
       Attendance.readAttendance Attendance.attendanceList].
  split; [exact Hl'|]. split; [|now repeat split].
  intros e [<-|Hin]; [reflexivity|now apply He].
Qed.

Lemma gate_handleDecode_ok : forall now result s,
  gateOk s -> gateOk (fst (Gate.handleDecode now result s)).
Proof.
  intros now result s H. unfold Gate.handleDecode.
  destruct (Gate.justScanned s); [exact H|].
  set (s0 := Gate.setInfoMessage None _).
  assert (gateOk s0) as H0 by (apply (gateOk_same s); auto).
  change (Gate.mode s0) with (Gate.mode s).
  change (Gate.selfAttempted s0) with (Gate.selfAttempted s).
  change (Gate.organizerUnlocked s0) with (Gate.organizerUnlocked s).
  destruct (Gate.mode s).
  - destruct (negb (Gate.organizerUnlocked s)); [apply (gateOk_same s); auto|].
    pose proof (gate_addEntry_ok now result s0 H0).
    destruct (Gate.addEntry now result s0). assumption.
  - destruct (Gate.selfAttempted s); [apply (gateOk_same s); auto|].
    destruct H as [Hl [He [Hd [Hs [Hr Ha]]]]]. unfold gateOk.
    cbn [fst Gate.entries Gate.deviceIdRef Gate.localStorage Gate.selfAttempted
         Gate.setInfoMessage Gate.setSelfAttempted Gate.setLocalStorage
         Gate.setScanError Gate.setTimeout Gate.setTimers Gate.setJustScanned
         Attendance.storedDeviceId Attendance.selfAttemptedItem s0].
    split; [exact Hl|]. split; [exact He|]. split; [exact Hd|].
    split; [exact Hs|]. split; [exact Hr|reflexivity].
Qed.

Lemma gate_handleManualAdd_ok : forall now s,
  gateOk s -> gateOk (fst (Gate.handleManualAdd now s)).
Proof.
  intros now s H. unfold Gate.handleManualAdd.
  destruct (isEmpty (trim (Gate.manualName s))); [exact H|].
  destruct (negb (Gate.organizerUnlocked s)); [apply (gateOk_same s); auto|].
  pose proof (gate_addEntry_ok now (Gate.manualName s) s H) as Ha.
  destruct (Gate.addEntry now (Gate.manualName s) s) as [s' o].
  cbn [fst] in *. apply (gateOk_same s'); auto.
Qed.

(** The page after a reload, field by field. *)
Lemma gate_reload_state : forall fresh s,
  gateOk s ->
  Gate.mountEffect fresh (Gate.initialState (Gate.localStorage s))
  = Gate.mkState Gate.scanner (Gate.entries s) [] None None false
      (Gate.selfAttempted s) false [] None (Gate.deviceIdRef s) []
      (Gate.localStorage s).
Proof.
  intros fresh s [_ [_ [Hd [Hs [Hr Ha]]]]]. unfold Gate.mountEffect.
  cbn [Gate.localStorage Gate.initialState].
  unfold Attendance.getOrCreateDeviceId. rewrite Hs.
  apply isEmpty_false in Hd. rewrite Hd.
  cbn [Gate.setLocalStorage Gate.setDeviceIdRef Gate.setEntries Gate.setSelfAttempted
       Gate.localStorage Gate.mode Gate.entries Gate.manualName Gate.scanError
       Gate.infoMessage Gate.justScanned Gate.selfAttempted Gate.organizerUnlocked
       Gate.pinInput Gate.unlockError Gate.deviceIdRef Gate.timers].
  now rewrite Hr, <- Ha.
Qed.

Lemma forceSelfMode_ok : forall s, gateOk s -> gateOk (Gate.forceSelfMode s).
Proof.
  intros s H. unfold Gate.forceSelfMode. break_if; [|assumption].
  apply (gateOk_same s); auto.
Qed.

Lemma gate_dispatch_ok : forall pin ev s,
  gateFreshOk ev -> gateOk s -> gateOk (fst (Gate.dispatch pin ev s)).
Proof.
  intros pin ev s Hf H. destruct ev; cbn [Gate.dispatch].
  - destruct (isEmpty rawValue); [exact H|].
    pose proof (gate_handleDecode_ok now rawValue s H).
    destruct (Gate.handleDecode now rawValue s). assumption.
  - destruct (Attendance.fireTimer now (Gate.timers s)); [|exact H].
    apply (gateOk_same s); auto.
  - apply (gateOk_same s); auto.
  - destruct (Gate.organizerUnlocked s); [|exact H].
    pose proof (gate_handleManualAdd_ok now s H).
    destruct (Gate.handleManualAdd now s). assumption.
  - destruct (Gate.organizerUnlocked s); [exact H|apply (gateOk_same s); auto].
  - destruct (Gate.organizerUnlocked s); [exact H|].
    unfold Gate.clickUnlock. break_if; apply (gateOk_same s); auto.
  - destruct m; [|apply (gateOk_same s); auto].
    destruct (Gate.organizerUnlocked s); [apply (gateOk_same s); auto|exact H].
  - destruct (Gate.organizerUnlocked s); [|exact H].
    destruct H as [Hl [He [Hd [Hs [Hr Ha]]]]]. unfold gateOk, Gate.clearAll.
    cbn [fst Gate.entries Gate.deviceIdRef Gate.localStorage Gate.selfAttempted
         Gate.setLocalStorage Gate.setEntries Attendance.writeAttendance
         Attendance.storedDeviceId Attendance.selfAttemptedItem].
    split; [split; constructor|]. split; [intros e []|]. split; [exact Hd|].
    split; [exact Hs|]. split; [reflexivity|exact Ha].
  - cbn [fst]. rewrite gate_reload_state by assumption.
    destruct H as [Hl [He [Hd [Hs [Hr Ha]]]]]. unfold gateOk.
    cbn [Gate.entries Gate.deviceIdRef Gate.localStorage Gate.selfAttempted].
    split; [exact Hl|]. split; [exact He|]. split; [exact Hd|].
    split; [exact Hs|]. split; [exact Hr|exact Ha].
Qed.

Lemma gate_step_ok : forall pin ev s,
  gateFreshOk ev -> gateOk s -> gateOk (fst (Gate.step pin ev s)).
Proof.
  intros pin ev s Hf H. unfold Gate.step.
  pose proof (gate_dispatch_ok pin ev s Hf H) as Hd.
  destruct (Gate.dispatch pin ev s) as [s' o]. cbn [fst] in *.
  now apply forceSelfMode_ok.
Qed.

Lemma gate_first_visit_ok : forall pin s, gateFirstVisit pin s -> gateOk s.
Proof.
  intros pin s H. induction H as [fresh Hf|s ev _ IH Hf].
  - apply forceSelfMode_ok. unfold gateOk, Gate.mountEffect.
    apply isEmpty_false in Hf.
    cbn [Gate.localStorage Gate.initialState Attendance.getOrCreateDeviceId
         Attendance.storedDeviceId Attendance.emptyStorage
         Attendance.attendanceList Attendance.selfAttemptedItem
         Gate.setLocalStorage Gate.setDeviceIdRef Gate.setEntries
         Gate.setSelfAttempted Gate.entries Gate.deviceIdRef Gate.selfAttempted
         Attendance.readAttendance].
    split; [split; constructor|]. split; [intros e []|].
    split; [now apply isEmpty_false|]. repeat split.
  - now apply gate_step_ok.
Qed.

(** X12: names in the list.  [addEntry] keeps a list in which no two names
    are equal at sensitivity [accent] and every name is trimmed and not
    empty; so such is the list in every state either name-keyed page
    reaches from a first visit. *)
Theorem ledger_names_unique :
  (forall dev now nameRaw entries,
      ledgerOk entries -> ledgerOk (fst (Attendance.addEntry dev now nameRaw entries)))
  /\ (forall s, Roster.reachable s -> ledgerOk (Roster.entries s))
  /\ (forall pin s, gateFirstVisit pin s -> ledgerOk (Gate.entries s)).
Proof.
  split; [exact addEntry_ledgerOk|]. split; [exact roster_reachable_ledger|].
  intros pin s H. exact (proj1 (gate_first_visit_ok pin s H)).
Qed.

(** "Ann", " ann " and "Bob" scanned one after the other. *)
Lemma ledger_names_unique_witness :
  let s := fst (Roster.run
                  [Roster.Scan 0 (js "Ann"); Roster.TimerFires 1200;
                   Roster.Scan 2000 (js " ann "); Roster.TimerFires 3200;
                   Roster.Scan 4000 (js "Bob")]
                  (Roster.mount (js "dev-1") Attendance.emptyStorage)) in
  Roster.reachable s
  /\ map Attendance.name (Roster.entries s) = [js "Bob"; js "Ann"]
  /\ ledgerOk (Roster.entries s).
Proof.
  intro s.
  assert (Roster.reachable s) as Hr.
  { subst s. apply roster_reachable_run; [repeat constructor|].
    apply Roster.reach_mount. discriminate. }
  split; [exact Hr|]. split; [vm_compute; reflexivity|].
  exact (proj1 (proj2 ledger_names_unique) s Hr).
Defined.

(** X13: loading the name-keyed page again.  In every state reached from a
    first visit the stored list is the list shown and the stored device id
    is the page's; after a reload the page shows the same list under the
    same device id, whatever the random source would yield, and nothing
    stored has changed. *)
Theorem roster_reload_restores : forall s fresh,
  Roster.reachable s ->
  let s' := fst (Roster.step (Roster.Reload fresh) s) in
  Attendance.readAttendance (Roster.localStorage s) = Roster.entries s
  /\ Roster.entries s' = Roster.entries s
  /\ Roster.deviceIdRef s' = Roster.deviceIdRef s
  /\ Roster.localStorage s' = Roster.localStorage s.
Proof.
  intros s fresh Hr s'. destruct (roster_reachable_ok s Hr) as [_ [Hd [Hs Hread]]].
  split; [exact Hread|]. subst s'. cbn [Roster.step fst].
  split; [now rewrite roster_mount_entries|].
  unfold Roster.mount. cbn [Roster.localStorage Roster.initialState].
  unfold Attendance.getOrCreateDeviceId. rewrite Hs.
  apply isEmpty_false in Hd. rewrite Hd. split; reflexivity.
Qed.

Lemma roster_reload_restores_witness :
  let s := fst (Roster.run [Roster.Scan 0 (js "Ann"); Roster.TypeManualName (js "Bob");
                            Roster.ClickAdd 500]
                  (Roster.mount (js "dev-1") Attendance.emptyStorage)) in
  Roster.reachable s
  /\ map Attendance.name (Roster.entries (fst (Roster.step (Roster.Reload (js "dev-2")) s)))
     = [js "Bob"; js "Ann"]
  /\ Roster.deviceIdRef (fst (Roster.step (Roster.Reload (js "dev-2")) s)) = js "dev-1".
Proof.
  intro s.
  assert (Roster.reachable s) as Hr.
  { subst s. apply roster_reachable_run; [repeat constructor|].
    apply Roster.reach_mount. discriminate. }
  destruct (roster_reload_restores s (js "dev-2") Hr) as [_ [He [Hd _]]].
  split; [exact Hr|]. split; [rewrite He; vm_compute; reflexivity|].
  rewrite Hd. vm_compute. reflexivity.
Defined.

(** X14: loading the page with the lock again.  In every state reached from
    a first visit, a reload shows the same list under the same device id
    and keeps the self check-in attempt as it was used or not; it engages
    the lock again and puts the page in mode [self]; nothing stored has
    changed. *)
Theorem gate_reload_keeps_list_and_attempt : forall pin s fresh,
  gateFirstVisit pin s ->
  let s' := fst (Gate.step pin (Gate.Reload fresh) s) in
  Gate.entries s' = Gate.entries s
  /\ Gate.deviceIdRef s' = Gate.deviceIdRef s
  /\ Gate.selfAttempted s' = Gate.selfAttempted s
  /\ Gate.localStorage s' = Gate.localStorage s
  /\ Gate.organizerUnlocked s' = false
  /\ Gate.mode s' = Gate.self.
Proof.
  intros pin s fresh H s'. subst s'. unfold Gate.step. cbn [Gate.dispatch].
  rewrite gate_reload_state by (now apply (gate_first_visit_ok pin)).
  repeat split.
Qed.

Lemma gate_first_visit_run : forall pin evs s,
  Forall gateFreshOk evs ->
  gateFirstVisit pin s -> gateFirstVisit pin (fst (Gate.run pin evs s)).
Proof.
  induction evs as [|ev evs IH]; intros s Hf H; [exact H|].
  inversion Hf; subst. rewrite run_fst_cons. apply IH; [assumption|].
  now apply fv_step.
Qed.

(** An unlocked session with one record and a used self check-in. *)
Lemma gate_reload_keeps_list_and_attempt_witness :
  let s := fst (Gate.run None
                  [Gate.Scan 0 (js "x"); Gate.TypePin (js "1234"); Gate.ClickUnlock;
                   Gate.SelectMode Gate.scanner; Gate.TimerFires 1200;
                   Gate.Scan 2000 (js "Ann")]
                  (Gate.mount (js "dev-1") Attendance.emptyStorage)) in
  let s' := fst (Gate.step None (Gate.Reload (js "dev-2")) s) in
  gateFirstVisit None s
  /\ (Gate.organizerUnlocked s = true /\ Gate.mode s = Gate.scanner)
  /\ map Attendance.name (Gate.entries s') = [js "Ann"]
  /\ Gate.deviceIdRef s' = js "dev-1"
  /\ Gate.selfAttempted s' = true
  /\ Gate.organizerUnlocked s' = false.
Proof.
  intros s s'.
  assert (gateFirstVisit None s) as Hr.
  { subst s. apply gate_first_visit_run; [repeat constructor|].
    apply fv_mount. discriminate. }
  destruct (gate_reload_keeps_list_and_attempt None s (js "dev-2") Hr)
    as [He [Hd [Ha [_ [Hu _]]]]].
  fold s' in He, Hd, Ha, Hu.
  split; [exact Hr|]. split; [split; vm_compute; reflexivity|].
  rewrite He, Hd, Ha.
  split; [vm_compute; reflexivity|]. split; [vm_compute; reflexivity|].
  split; [vm_compute; reflexivity|]. exact Hu.
Defined.

(** ** What opens the lock *)

Lemma gate_addEntry_unlocked : forall now nameRaw s,
  Gate.organizerUnlocked (fst (Gate.addEntry now nameRaw s)) = Gate.organizerUnlocked s.
Proof.
  intros. rewrite addEntry_cases.
  destruct (isEmpty (trim nameRaw)); [reflexivity|].
  destruct (Attendance.nameExists (Gate.entries s) (trim nameRaw)); reflexivity.
Qed.

Lemma gate_handleDecode_unlocked : forall now result s,
  Gate.organizerUnlocked (fst (Gate.handleDecode now result s))
  = Gate.organizerUnlocked s.
Proof.
  intros now result s. unfold Gate.handleDecode.
  destruct (Gate.justScanned s); [reflexivity|].
  set (s0 := Gate.setInfoMessage None _).
  change (Gate.mode s0) with (Gate.mode s).
  change (Gate.selfAttempted s0) with (Gate.selfAttempted s).
  change (Gate.organizerUnlocked s0) with (Gate.organizerUnlocked s).
  destruct (Gate.mode s).
  - destruct (negb (Gate.organizerUnlocked s)); [reflexivity|].
    pose proof (gate_addEntry_unlocked now result s0) as H.
    destruct (Gate.addEntry now result s0). exact H.
  - destruct (Gate.selfAttempted s); reflexivity.
Qed.

Lemma gate_handleManualAdd_unlocked : forall now s,
  Gate.organizerUnlocked (fst (Gate.handleManualAdd now s))
  = Gate.organizerUnlocked s.
Proof.
  intros now s. unfold Gate.handleManualAdd.
  destruct (isEmpty (trim (Gate.manualName s))); [reflexivity|].
  destruct (negb (Gate.organizerUnlocked s)); [reflexivity|].
  pose proof (gate_addEntry_unlocked now (Gate.manualName s) s) as H.
  destruct (Gate.addEntry now (Gate.manualName s) s). exact H.
Qed.

Lemma forceSelfMode_unlocked : forall s,
  Gate.organizerUnlocked (Gate.forceSelfMode s) = Gate.organizerUnlocked s.
Proof. intro s. unfold Gate.forceSelfMode. break_if; reflexivity. Qed.

(** The lock after one event. *)
Lemma gate_step_unlocked : forall pin ev s,
  Gate.organizerUnlocked (fst (Gate.step pin ev s)) =
  match ev with
  | Gate.Reload _ => false
  | Gate.ClickUnlock =>
      Gate.organizerUnlocked s || jseqb (Gate.pinInput s) (Gate.ORGANIZER_PIN pin)
  | _ => Gate.organizerUnlocked s
  end.
Proof.
  intros pin ev s. unfold Gate.step.
  assert (Gate.organizerUnlocked (fst (Gate.dispatch pin ev s)) =
          match ev with
          | Gate.Reload _ => false
          | Gate.ClickUnlock =>
              Gate.organizerUnlocked s || jseqb (Gate.pinInput s) (Gate.ORGANIZER_PIN pin)
          | _ => Gate.organizerUnlocked s
          end) as H.
  { destruct ev; cbn [Gate.dispatch].
    - destruct (isEmpty rawValue); [reflexivity|].
      pose proof (gate_handleDecode_unlocked now rawValue s) as H.
      destruct (Gate.handleDecode now rawValue s). exact H.
    - destruct (Attendance.fireTimer now (Gate.timers s)); reflexivity.
    - reflexivity.
    - destruct (Gate.organizerUnlocked s) eqn:Hu; [|exact Hu].
      pose proof (gate_handleManualAdd_unlocked now s) as H.
      destruct (Gate.handleManualAdd now s). cbn [fst] in *. congruence.
    - destruct (Gate.organizerUnlocked s) eqn:Hu; [exact Hu|exact Hu].
    - destruct (Gate.organizerUnlocked s) eqn:Hu; [exact Hu|].
      unfold Gate.clickUnlock.
      destruct (jseqb (Gate.pinInput s) (Gate.ORGANIZER_PIN pin)); [reflexivity|exact Hu].
    - destruct m; [|reflexivity].
      destruct (Gate.organizerUnlocked s) eqn:Hu; [exact Hu|exact Hu].
    - destruct (Gate.organizerUnlocked s) eqn:Hu; [exact Hu|exact Hu].
    - unfold Gate.mountEffect. cbn [Gate.localStorage Gate.initialState].
      destruct (Attendance.getOrCreateDeviceId fresh _). reflexivity. }
  destruct (Gate.dispatch pin ev s) as [s' o]. cbn [fst] in *.
  now rewrite forceSelfMode_unlocked.
Qed.

(** X15: only the PIN opens the lock.  An event opens an engaged lock only
    if it is a click on Unlock with the typed PIN equal to [ORGANIZER_PIN],
    and such a click does open it; a click with another PIN leaves the lock
    engaged and shows "Invalid PIN"; once open, the lock stays open under
    every event but a reload of the page. *)
Theorem lock_opens_by_pin_only : forall pin ev s,
  (Gate.organizerUnlocked s = false ->
   Gate.organizerUnlocked (fst (Gate.step pin ev s)) = true ->
   ev = Gate.ClickUnlock /\ Gate.pinInput s = Gate.ORGANIZER_PIN pin)
  /\ (Gate.organizerUnlocked s = false ->
      Gate.pinInput s = Gate.ORGANIZER_PIN pin ->
      Gate.organizerUnlocked (fst (Gate.step pin Gate.ClickUnlock s)) = true)
  /\ (Gate.organizerUnlocked s = false ->
      Gate.pinInput s <> Gate.ORGANIZER_PIN pin ->
      Gate.organizerUnlocked (fst (Gate.step pin Gate.ClickUnlock s)) = false
      /\ Gate.unlockError (fst (Gate.step pin Gate.ClickUnlock s))
         = Some (js "Invalid PIN"))
  /\ (Gate.organizerUnlocked s = true ->
      (forall fresh, ev <> Gate.Reload fresh) ->
      Gate.organizerUnlocked (fst (Gate.step pin ev s)) = true).
Proof.
  intros pin ev s. split; [|split; [|split]].
  - intros Hu Hopen. rewrite gate_step_unlocked in Hopen.
    destruct ev; try congruence.
    rewrite Hu in Hopen. cbn in Hopen. apply jseqb_eq in Hopen. now split.
  - intros Hu Hpin. rewrite gate_step_unlocked, Hu, Hpin, jseqb_refl. reflexivity.
  - intros Hu Hpin.
    assert (jseqb (Gate.pinInput s) (Gate.ORGANIZER_PIN pin) = false) as Hj.
    { destruct (jseqb _ _) eqn:E; [|reflexivity]. apply jseqb_eq in E. contradiction. }
    split; [now rewrite gate_step_unlocked, Hu, Hj|].
    unfold Gate.step, Gate.dispatch, Gate.clickUnlock. rewrite Hu, Hj.
    cbn [fst]. unfold Gate.forceSelfMode. break_if; reflexivity.
  - intros Hu Hnr. rewrite gate_step_unlocked, Hu.
    destruct ev; try reflexivity. now contradiction (Hnr fresh).
Qed.

Lemma lock_opens_by_pin_only_witness :
  let s := Gate.mount (js "dev-1") Attendance.emptyStorage in
  let wrong := fst (Gate.step None (Gate.TypePin (js "0000")) s) in
  let right := fst (Gate.step None (Gate.TypePin (js "1234")) s) in
  (Gate.organizerUnlocked wrong = false /\ Gate.pinInput wrong <> Gate.ORGANIZER_PIN None
   /\ Gate.organizerUnlocked (fst (Gate.step None Gate.ClickUnlock wrong)) = false)
  /\ (Gate.organizerUnlocked right = false /\ Gate.pinInput right = Gate.ORGANIZER_PIN None
      /\ Gate.organizerUnlocked (fst (Gate.step None Gate.ClickUnlock right)) = true).
Proof.
  intros s wrong right.
  assert (Gate.pinInput wrong <> Gate.ORGANIZER_PIN None) as Hw
    by (vm_compute; discriminate).
  destruct (lock_opens_by_pin_only None Gate.ClickUnlock wrong) as [_ [_ [H3 _]]].
  destruct (lock_opens_by_pin_only None Gate.ClickUnlock right) as [_ [H2 _]].
  split.
  - split; [reflexivity|]. split; [exact Hw|]. exact (proj1 (H3 eq_refl Hw)).
  - split; [reflexivity|]. split; [reflexivity|]. exact (H2 eq_refl eq_refl).
Defined.

Lemma gate_handleDecode_locked_ledger : forall now result s,
  Gate.organizerUnlocked s = false ->
  Gate.entries (fst (Gate.handleDecode now result s)) = Gate.entries s
  /\ Attendance.attendanceList (Gate.localStorage (fst (Gate.handleDecode now result s)))
     = Attendance.attendanceList (Gate.localStorage s).
Proof.
  intros now result s Hu.
  destruct (Gate.mode s) eqn:Hm; [|now apply handleDecode_self_ledger].
  unfold Gate.handleDecode. destruct (Gate.justScanned s); [split; reflexivity|].
  cbn [Gate.mode Gate.organizerUnlocked Gate.setInfoMessage Gate.setScanError
       Gate.setTimeout Gate.setTimers Gate.setJustScanned].
  rewrite Hm, Hu. split; reflexivity.
Qed.

(** X16: with the lock engaged nothing changes the list.  In every state
    reached from a first visit in which the lock is engaged, no event at
    all (scan, timer, typing, click on Add, Unlock, Clear or a mode radio,
    reload) changes the list shown or the stored list. *)
Theorem locked_page_keeps_list : forall pin s ev,
  gateFirstVisit pin s ->
  Gate.organizerUnlocked s = false ->
  Gate.entries (fst (Gate.step pin ev s)) = Gate.entries s
  /\ Attendance.attendanceList (Gate.localStorage (fst (Gate.step pin ev s)))
     = Attendance.attendanceList (Gate.localStorage s).
Proof.
  intros pin s ev Hr Hu. pose proof (gate_first_visit_ok pin s Hr) as Hok.
  unfold Gate.step.
  assert (Gate.entries (fst (Gate.dispatch pin ev s)) = Gate.entries s
          /\ Attendance.attendanceList (Gate.localStorage (fst (Gate.dispatch pin ev s)))
             = Attendance.attendanceList (Gate.localStorage s)) as H.
  { destruct ev; cbn [Gate.dispatch]; rewrite ?Hu; try (split; reflexivity).
    - destruct (isEmpty rawValue); [split; reflexivity|].
      pose proof (gate_handleDecode_locked_ledger now rawValue s Hu) as H.
      destruct (Gate.handleDecode now rawValue s). exact H.
    - destruct (Attendance.fireTimer now (Gate.timers s)); split; reflexivity.
    - unfold Gate.clickUnlock. break_if; split; reflexivity.
    - destruct m; rewrite ?Hu; split; reflexivity.
    - cbn [fst]. rewrite gate_reload_state by assumption. split; reflexivity. }
  destruct (Gate.dispatch pin ev s) as [s' o]. cbn [fst] in *.
  unfold Gate.forceSelfMode. break_if; exact H.
Qed.

Lemma locked_page_keeps_list_witness :
  let s := fst (Gate.run None
                  [Gate.TypePin (js "1234"); Gate.ClickUnlock;
                   Gate.SelectMode Gate.scanner; Gate.Scan 2000 (js "Ann");
                   Gate.Reload (js "dev-2"); Gate.TypeManualName (js "Bob")]
                  (Gate.mount (js "dev-1") Attendance.emptyStorage)) in
  gateFirstVisit None s /\ Gate.organizerUnlocked s = false
  /\ map Attendance.name (Gate.entries s) = [js "Ann"]
  /\ Gate.entries (fst (Gate.step None (Gate.ClickAdd 9000) s)) = Gate.entries s
  /\ Gate.entries (fst (Gate.step None (Gate.Scan 9000 (js "Bob")) s)) = Gate.entries s.
Proof.
  intro s.
  assert (gateFirstVisit None s) as Hr.
  { subst s. apply gate_first_visit_run; [repeat constructor; discriminate|].
    apply fv_mount. discriminate. }
  split; [exact Hr|]. split; [reflexivity|]. split; [vm_compute; reflexivity|].
  split.
  - exact (proj1 (locked_page_keeps_list None s (Gate.ClickAdd 9000) Hr eq_refl)).
  - exact (proj1 (locked_page_keeps_list None s (Gate.Scan 9000 (js "Bob")) Hr eq_refl)).
Defined.

(** ** The student page: the name of the download *)

Lemma replaceSpaceRuns_no_space : forall s inRun,
  Forall (fun c => isWhiteSpace c = false) (Student.replaceSpaceRuns inRun s).
Proof.
  induction s as [|c r IH]; intro inRun; simpl; [constructor|].
  destruct (isWhiteSpace c) eqn:Hc.
  - destruct inRun; [apply IH|]. constructor; [reflexivity|apply IH].
  - constructor; [exact Hc|apply IH].
Qed.

Lemma replaceSpaceRuns_id : forall s inRun,
  forallb (fun c => negb (isWhiteSpace c)) s = true ->
  Student.replaceSpaceRuns inRun s = s.
Proof.
  induction s as [|c r IH]; intros inRun H; [reflexivity|]. simpl in *.
  apply andb_true_iff in H as [Hc Hr]. apply negb_true_iff in Hc. rewrite Hc.
  now rewrite IH.
Qed.

(** X17: the name of the downloaded picture.  For every code text, the
    [download] name of [downloadPng] contains no white space; it is at most
    seven code units longer than the text; and for a text without white
    space it is "qr-", the text and ".png". *)
Theorem download_name_has_no_space : forall qr,
  Forall (fun c => isWhiteSpace c = false) (Student.downloadName qr)
  /\ (List.length (Student.downloadName qr) <= List.length qr + 7)%nat
  /\ (forallb (fun c => negb (isWhiteSpace c)) qr = true ->
      Student.downloadName qr = js "qr-" ++ qr ++ js ".png").
Proof.
  intro qr. unfold Student.downloadName. split; [|split].
  - apply Forall_app. split; [repeat constructor|].
    apply Forall_app. split; [apply replaceSpaceRuns_no_space|repeat constructor].
  - rewrite !length_app. cbn [js List.length map list_ascii_of_string].
    assert (forall s b, List.length (Student.replaceSpaceRuns b s) <= List.length s)%nat
      as Hlen.
    { induction s as [|c r IH]; intro b; simpl; [lia|].
      destruct (isWhiteSpace c); [destruct b|]; simpl;
        [specialize (IH true)|specialize (IH true)|specialize (IH false)]; lia. }
    specialize (Hlen qr false). lia.
  - intro H. now rewrite replaceSpaceRuns_id.
Qed.

Lemma download_name_has_no_space_witness :
  forallb (fun c => negb (isWhiteSpace c)) (js "Ann") = true
  /\ Student.downloadName (js "Ann") = js "qr-Ann.png"
  /\ Student.downloadName (js "Ann  Lee") = js "qr-Ann_Lee.png".
Proof.
  split; [reflexivity|]. split; [|reflexivity].
  exact (proj2 (proj2 (download_name_has_no_space (js "Ann"))) eq_refl).
Defined.

(** ** Clear List *)

(** X18: Clear List on the page without a lock starts over.  After
    [clearAll] the list shown and the stored list are empty and the page
    works under the new device id, which is stored; a pending debounce is
    kept.  Every name that is not blank, recorded before or not, is then
    accepted, in a record under the new device id. *)
Theorem roster_clear_starts_over : forall s fresh now nameRaw,
  isEmpty (trim nameRaw) = false ->
  let s' := fst (Roster.step (Roster.ClickClear fresh) s) in
  Roster.entries s' = []
  /\ Attendance.readAttendance (Roster.localStorage s') = []
  /\ Roster.deviceIdRef s' = fresh
  /\ Attendance.storedDeviceId (Roster.localStorage s') = Some fresh
  /\ Roster.justScanned s' = Roster.justScanned s
  /\ Roster.timers s' = Roster.timers s
  /\ Roster.entries (fst (Roster.addEntry now nameRaw s'))
     = [Attendance.mkEntry (trim nameRaw) fresh (toISOString now)].
Proof.
  intros s fresh now nameRaw Hn s'.
  assert (Roster.entries s' = [] /\ Roster.deviceIdRef s' = fresh) as [He Hd]
    by (split; reflexivity).
  do 6 (split; [reflexivity|]).
  rewrite roster_addEntry_cases, Hn, He, Hd. reflexivity.
Qed.

Lemma roster_clear_starts_over_witness :
  let s := fst (Roster.run [Roster.Scan 0 (js "Ann")]
                  (Roster.mount (js "dev-1") Attendance.emptyStorage)) in
  let s' := fst (Roster.step (Roster.ClickClear (js "dev-2")) s) in
  map Attendance.name (Roster.entries s) = [js "Ann"]
  /\ isEmpty (trim (js "Ann")) = false
  /\ Roster.entries (fst (Roster.addEntry 5000 (js "Ann") s'))
     = [Attendance.mkEntry (js "Ann") (js "dev-2") (toISOString 5000)].
Proof.
  intros s s'. split; [vm_compute; reflexivity|]. split; [reflexivity|].
  exact (proj2 (proj2 (proj2 (proj2 (proj2 (proj2
    (roster_clear_starts_over s (js "dev-2") 5000 (js "Ann") eq_refl))))))).
Defined.

(** X19: Clear List on the page with the lock keeps the device.  With the
    lock open, [clearAll] empties the list shown and the stored list and
    nothing else: the device id and the self check-in attempt, stored and
    in the state, are as they were, so that a device that has used its
    attempt is still refused in mode [self]; a name that is not blank is
    accepted again, under the same device id. *)
Theorem gate_clear_keeps_device_and_attempt : forall pin s now nameRaw,
  Gate.organizerUnlocked s = true ->
  isEmpty (trim nameRaw) = false ->
  let s' := fst (Gate.step pin Gate.ClickClear s) in
  Gate.entries s' = []
  /\ Attendance.readAttendance (Gate.localStorage s') = []
  /\ Gate.deviceIdRef s' = Gate.deviceIdRef s
  /\ Attendance.storedDeviceId (Gate.localStorage s')
     = Attendance.storedDeviceId (Gate.localStorage s)
  /\ Gate.selfAttempted s' = Gate.selfAttempted s
  /\ Attendance.selfAttemptedItem (Gate.localStorage s')
     = Attendance.selfAttemptedItem (Gate.localStorage s)
  /\ Gate.entries (fst (Gate.addEntry now nameRaw s'))
     = [Attendance.mkEntry (trim nameRaw) (Gate.deviceIdRef s) (toISOString now)]
  /\ (Gate.selfAttempted s = true -> Gate.justScanned s = false ->
      snd (Gate.handleDecode now nameRaw (Gate.setMode Gate.self s'))
      = Gate.AlreadyCheckedIn).
Proof.
  intros pin s now nameRaw Hu Hn s'.
  assert (s' = Gate.clearAll s) as ->.
  { subst s'. unfold Gate.step, Gate.dispatch. rewrite Hu. cbn [fst].
    unfold Gate.forceSelfMode.
    change (Gate.organizerUnlocked (Gate.clearAll s)) with (Gate.organizerUnlocked s).
    now rewrite Hu. }
  do 6 (split; [reflexivity|]). split.
  - rewrite addEntry_cases, Hn. reflexivity.
  - intros Ha Hj. unfold Gate.handleDecode.
    change (Gate.justScanned (Gate.setMode Gate.self (Gate.clearAll s)))
      with (Gate.justScanned s).
    rewrite Hj.
    cbn [Gate.mode Gate.selfAttempted Gate.setMode Gate.clearAll Gate.setInfoMessage
         Gate.setScanError Gate.setTimeout Gate.setTimers Gate.setJustScanned
         Gate.setLocalStorage Gate.setEntries].
    rewrite Ha. reflexivity.
Qed.

Lemma gate_clear_keeps_device_and_attempt_witness :
  let s := fst (Gate.run None
                  [Gate.Scan 0 (js "x"); Gate.TypePin (js "1234"); Gate.ClickUnlock;
                   Gate.SelectMode Gate.scanner; Gate.TimerFires 1200;
                   Gate.Scan 2000 (js "Ann")]
                  (Gate.mount (js "dev-1") Attendance.emptyStorage)) in
  let s' := fst (Gate.step None Gate.ClickClear s) in
  (map Attendance.name (Gate.entries s) = [js "Ann"]
   /\ Gate.organizerUnlocked s = true /\ Gate.selfAttempted s = true)
  /\ isEmpty (trim (js "Ann")) = false
  /\ Gate.entries s' = []
  /\ Gate.selfAttempted s' = Gate.selfAttempted s
  /\ Gate.entries (fst (Gate.addEntry 9000 (js "Ann") s'))
     = [Attendance.mkEntry (js "Ann") (js "dev-1") (toISOString 9000)].
Proof.
  intros s s'.
  destruct (gate_clear_keeps_device_and_attempt None s 9000 (js "Ann") eq_refl eq_refl)
    as [He [_ [_ [_ [Ha [_ [Hadd _]]]]]]].
  split; [repeat split; vm_compute; reflexivity|]. split; [reflexivity|].
  split; [exact He|]. split; [exact Ha|]. exact Hadd.
Defined.
